(** * D* Lite planner: a shallow embedding of src/planner.cpp

    The planner of Koenig and Likhachev's "D* Lite, final version" as the
    class [Planner] implements it.  Doubles are IEEE binary64 numbers
    (Rocq's primitive floats), the state store [_cell_hash] is a finite map,
    the open list a list of entries in iteration order, and every member
    function is a function on the planner state. *)

From Stdlib Require Import ZArith List Bool Floats Uint63.
From stdpp Require Import gmap.
Import ListNotations.

(** ** Numbers *)

(** A C++ [double]. *)
Definition double := float.

(** [DBL_MIN] of <cfloat>: the smallest positive normal double. *)
Definition DBL_MIN : double := 0x1p-1022%float.

(** [std::min(a, b)] of <algorithm>: [(b < a) ? b : a]. *)
Definition std_min (a b : double) : double :=
  if (b <? a)%float then b else a.

(** Conversion to [double] of the non-negative [long] that [labs] returns. *)
Definition of_long (z : Z) : double := PrimFloat.of_uint63 (Uint63.of_Z z).

(** ** What the planner borrows *)

(** The class [Math] (math.h) is not among the sources: its three tolerant
    comparisons and its two constants are taken as they are declared. *)
Record Math := mkMath {
  Math_equals : double -> double -> bool;
  Math_less : double -> double -> bool;
  Math_greater : double -> double -> bool;
  Math_INFINITY : double;
  Math_SQRT2 : double
}.

(** A [Map::Cell*] that is not NULL is the identity of a cell; a pointer
    that may be NULL is an [option cell]. *)
Definition cell := positive.

(** The cell graph (map.h, not among the sources): the coordinates [x()]
    and [y()], the array [nbrs()] of [NUM_NBRS] pointers, NULL where there
    is no neighbour, and the constant [Map::Cell::COST_UNWALKABLE].  The
    mutable field [cost] of the cells is part of the state below. *)
Record Map := mkMap {
  cell_x : cell -> Z;
  cell_y : cell -> Z;
  cell_nbrs : cell -> list (option cell);
  COST_UNWALKABLE : double
}.

(** ** The planner's state *)

Definition key : Type := double * double.

(** [OL], a [multimap<pair<double,double>, Map::Cell*, KeyCompare>], as the
    list of its entries in iteration order: [begin()] is the head. *)
Definition OL : Type := list (key * cell).

(** The members of [Planner], with the [cost] fields of the cells it reads
    and writes.  [_start], [_goal] and [_last] are never NULL: the
    constructor dereferences them and the setters ignore NULL.  An iterator
    of [_open_hash] points to the one entry of its cell, so the reverse
    index is the set of the cells it has an iterator for. *)
Record Planner := mkPlanner {
  cost : cell -> double;
  _km : double;
  _start : cell;
  _goal : cell;
  _last : cell;
  _cell_hash : gmap cell (double * double);
  _open_list : OL;
  _open_hash : gset cell;
  _path : list (option cell)
}.

Definition with_cost (f : cell -> double) (s : Planner) : Planner :=
  mkPlanner f (_km s) (_start s) (_goal s) (_last s) (_cell_hash s)
            (_open_list s) (_open_hash s) (_path s).

Definition with_km (k : double) (s : Planner) : Planner :=
  mkPlanner (cost s) k (_start s) (_goal s) (_last s) (_cell_hash s)
            (_open_list s) (_open_hash s) (_path s).

Definition with_start (u : cell) (s : Planner) : Planner :=
  mkPlanner (cost s) (_km s) u (_goal s) (_last s) (_cell_hash s)
            (_open_list s) (_open_hash s) (_path s).

Definition with_goal (u : cell) (s : Planner) : Planner :=
  mkPlanner (cost s) (_km s) (_start s) u (_last s) (_cell_hash s)
            (_open_list s) (_open_hash s) (_path s).

Definition with_last (u : cell) (s : Planner) : Planner :=
  mkPlanner (cost s) (_km s) (_start s) (_goal s) u (_cell_hash s)
            (_open_list s) (_open_hash s) (_path s).

Definition with_cell_hash (h : gmap cell (double * double)) (s : Planner) : Planner :=
  mkPlanner (cost s) (_km s) (_start s) (_goal s) (_last s) h
            (_open_list s) (_open_hash s) (_path s).

Definition with_open (l : OL) (h : gset cell) (s : Planner) : Planner :=
  mkPlanner (cost s) (_km s) (_start s) (_goal s) (_last s) (_cell_hash s)
            l h (_path s).

Definition with_path (p : list (option cell)) (s : Planner) : Planner :=
  mkPlanner (cost s) (_km s) (_start s) (_goal s) (_last s) (_cell_hash s)
            (_open_list s) (_open_hash s) p.

(** ** The open list *)

Section OpenList.

Variable key_compare : key -> key -> bool.

(** [multimap::insert(value)]: after the entries whose key is not
    greater, before the first entry with a greater key. *)
Fixpoint ol_insert (e : key * cell) (l : OL) : OL :=
  match l with
  | [] => [e]
  | e' :: l' =>
      if key_compare (fst e) (fst e') then e :: l
      else e' :: ol_insert e l'
  end.

(** Insertion at the lower bound: before the first entry whose key is
    not less. *)
Fixpoint ol_insert_lower (e : key * cell) (l : OL) : OL :=
  match l with
  | [] => [e]
  | e' :: l' =>
      if key_compare (fst e') (fst e) then e' :: ol_insert_lower e l'
      else e :: l
  end.

(** [multimap::erase(pos)] for the iterator of cell [u]. *)
Fixpoint ol_erase (u : cell) (l : OL) : OL :=
  match l with
  | [] => []
  | e' :: l' => if decide (snd e' = u) then l' else e' :: ol_erase u l'
  end.

(** The entries before and after the entry of [u]. *)
Fixpoint ol_split (u : cell) (l : OL) : option (OL * OL) :=
  match l with
  | [] => None
  | e' :: l' =>
      if decide (snd e' = u) then Some ([], l')
      else match ol_split u l' with
           | Some (pre, post) => Some (e' :: pre, post)
           | None => None
           end
  end.

(** [multimap::insert(hint, value)] where the hint is the head of [post]
    ([end()] when [post] is empty) and [pre] are the entries before it:
    as close as possible to the position just before the hint. *)
Definition ol_insert_hint (pre post : OL) (e : key * cell) : OL :=
  match post with
  | [] =>
      match last pre with
      | Some p =>
          if negb (key_compare (fst e) (fst p)) then pre ++ [e]
          else ol_insert e pre
      | None => [e]
      end
  | h :: post' =>
      if negb (key_compare (fst h) (fst e)) then
        match last pre with
        | None => e :: post
        | Some p =>
            if negb (key_compare (fst e) (fst p)) then pre ++ e :: post
            else ol_insert e (pre ++ post)
        end
      else
        match post' with
        | [] => pre ++ [h; e]
        | a :: _ =>
            if negb (key_compare (fst a) (fst e)) then pre ++ h :: e :: post'
            else ol_insert_lower e (pre ++ post)
        end
  end.

End OpenList.

(** ** The member functions of [Planner] *)

Section PlannerCode.

Variable mth : Math.
Variable grid : Map.

(** Line 262 passes the identifier [min] where a double is expected; what
    that argument evaluates to is not determined by the sources. *)
Variable min_value : double.

Abbreviation INF := (Math_INFINITY mth).

(** [Planner::MAX_STEPS]. *)
Definition MAX_STEPS : nat := Z.to_nat 1000000.

(** [Planner::KeyCompare::operator()]. *)
Definition KeyCompare (p1 p2 : key) : bool :=
  if Math_less mth (fst p1) (fst p2) then true
  else if Math_greater mth (fst p1) (fst p2) then false
  else if Math_less mth (snd p1) (snd p2) then true
  else if Math_greater mth (snd p1) (snd p2) then false
  else false.

(** [_cell]: materialises [u] at (INFINITY, INFINITY) on first touch. *)
Definition _cell (u : cell) (s : Planner) : Planner :=
  match _cell_hash s !! u with
  | Some _ => s
  | None => with_cell_hash (<[u := (INF, INF)]> (_cell_hash s)) s
  end.

(** [&_cell_hash[u]]: the pair of [u]; [operator[]] finds it, since
    [_cell(u)] has just run. *)
Definition g_rhs_of (u : cell) (s : Planner) : double * double :=
  default (0%float, 0%float) (_cell_hash s !! u).

(** [_g(u, value)]; a call [_g(u)] is [_g u DBL_MIN], the default
    argument that the test against [DBL_MIN] answers. *)
Definition _g (u : cell) (value : double) (s : Planner) : double * Planner :=
  let s1 := _cell u s in
  let g_rhs := g_rhs_of u s1 in
  if negb (value =? DBL_MIN)%float then
    (value, with_cell_hash (<[u := (value, snd g_rhs)]> (_cell_hash s1)) s1)
  else (fst g_rhs, s1).

(** [_rhs(u, value)]; a call [_rhs(u)] is [_rhs u DBL_MIN]. *)
Definition _rhs (u : cell) (value : double) (s : Planner) : double * Planner :=
  if decide (u = _goal s) then (0%float, s)
  else
    let s1 := _cell u s in
    let g_rhs := g_rhs_of u s1 in
    if negb (value =? DBL_MIN)%float then
      (value, with_cell_hash (<[u := (fst g_rhs, value)]> (_cell_hash s1)) s1)
    else (snd g_rhs, s1).

(** [_h]: the heuristic between two cells. *)
Definition _h (a b : cell) : double :=
  let min := of_long (Z.abs (cell_x grid a - cell_x grid b)) in
  let max := of_long (Z.abs (cell_y grid a - cell_y grid b)) in
  let '(min, max) := if (max <? min)%float then (max, min) else (min, max) in
  ((Math_SQRT2 mth - 1) * min + max)%float.

(** [_cost]: the cost of the edge between two cells; [dx] and [dy] are
    [unsigned int]. *)
Definition _cost (a b : cell) (s : Planner) : double :=
  if (cost s a =? COST_UNWALKABLE grid)%float
     || (cost s b =? COST_UNWALKABLE grid)%float
  then COST_UNWALKABLE grid
  else
    let dx := (Z.abs (cell_x grid a - cell_x grid b) mod 2 ^ 32)%Z in
    let dy := (Z.abs (cell_y grid a - cell_y grid b) mod 2 ^ 32)%Z in
    let scale := if (1 <? (dx + dy) mod 2 ^ 32)%Z then Math_SQRT2 mth
                 else 1%float in
    (scale * ((cost s a + cost s b) / 2))%float.

(** [_k]: the key of a cell. *)
Definition _k (u : cell) (s : Planner) : key * Planner :=
  let '(g, s1) := _g u DBL_MIN s in
  let '(rhs, s2) := _rhs u DBL_MIN s1 in
  let min := if Math_less mth g rhs then g else rhs in
  ((min + _h (_start s2) u + _km s2, min)%float, s2).

(** [_list_insert]. *)
Definition _list_insert (u : cell) (k : key) (s : Planner) : Planner :=
  with_open (ol_insert KeyCompare (k, u) (_open_list s))
            ({[u]} ∪ _open_hash s) s.

(** [_list_remove]. *)
Definition _list_remove (u : cell) (s : Planner) : Planner :=
  with_open (ol_erase u (_open_list s)) (_open_hash s ∖ {[u]}) s.

(** [_list_update]: the entry of [u] is erased and a new one inserted
    with the old successor as the hint.  The callers reach it only for a
    cell of the list; for another cell the source erases [end()], and
    the model inserts with the hint [end()]. *)
Definition _list_update (u : cell) (k : key) (s : Planner) : Planner :=
  match ol_split u (_open_list s) with
  | Some (pre, post) =>
      with_open (ol_insert_hint KeyCompare pre post (k, u))
                ({[u]} ∪ _open_hash s) s
  | None =>
      with_open (ol_insert_hint KeyCompare (_open_list s) [] (k, u))
                ({[u]} ∪ _open_hash s) s
  end.

(** [_update]: reconciles the membership of [u] in the open list with
    its local consistency. *)
Definition _update (u : cell) (s : Planner) : Planner :=
  let '(g, s1) := _g u DBL_MIN s in
  let '(rhs, s2) := _rhs u DBL_MIN s1 in
  let diff := negb (Math_equals mth g rhs) in
  let exists_ := bool_decide (u ∈ _open_hash s2) in
  if diff && exists_ then
    let '(k, s3) := _k u s2 in _list_update u k s3
  else if diff && negb exists_ then
    let '(k, s3) := _k u s2 in _list_insert u k s3
  else if negb diff && exists_ then _list_remove u s2
  else s2.

(** One round of the loop of [_min_succ] for the entry [nbr] of
    [nbrs]; the accumulator is (min_cell, min_cost). *)
Definition min_succ_step (u : cell) (acc : (option cell * double) * Planner)
           (nbr : option cell) : (option cell * double) * Planner :=
  let '((min_cell, min_cost), s) := acc in
  match nbr with
  | None => acc
  | Some v =>
      let tmp_cost := _cost u v s in
      let '(tmp_g, s1) := _g v DBL_MIN s in
      if Math_equals mth tmp_cost INF || Math_equals mth tmp_g INF then
        ((min_cell, min_cost), s1)
      else
        let tmp_cost := (tmp_cost + tmp_g)%float in
        if Math_less mth tmp_cost min_cost then ((Some v, tmp_cost), s1)
        else ((min_cell, min_cost), s1)
  end.

(** [_min_succ]: the neighbour of least cost plus g, NULL when no
    neighbour has a finite one. *)
Definition _min_succ (u : cell) (s : Planner) : option cell * Planner :=
  let '((min_cell, _), s1) :=
    fold_left (min_succ_step u) (cell_nbrs grid u) ((None, INF), s) in
  (min_cell, s1).


(** The condition of the loop of [_compute],
    [! empty && key_compare(begin->first, _k(_start)) || ! equals(_rhs(_start), _g(_start))],
    with C++'s short-circuit evaluation. *)
Definition loop_cond (s : Planner) : bool * Planner :=
  let '(c1, s1) :=
    match _open_list s with
    | [] => (false, s)
    | e :: _ =>
        let '(k_start, s1) := _k (_start s) s in
        (KeyCompare (fst e) k_start, s1)
    end in
  if c1 then (true, s1)
  else
    let '(rhs, s2) := _rhs (_start s1) DBL_MIN s1 in
    let '(g, s3) := _g (_start s2) DBL_MIN s2 in
    (negb (Math_equals mth rhs g), s3).

(** Case B, one neighbour: lines 216 to 224. *)
Definition relax_step (u : cell) (s : Planner) (nbr : option cell) : Planner :=
  match nbr with
  | None => s
  | Some v =>
      let s' :=
        if decide (v = _goal s) then s
        else
          let '(r, s1) := _rhs v DBL_MIN s in
          let c := _cost v u s1 in
          let '(g, s2) := _g u DBL_MIN s1 in
          snd (_rhs v (std_min r (c + g)%float) s2) in
      _update v s'
  end.

(** Case C, one neighbour of the scan for [min_cost]: lines 246 to 259;
    [tmp_g] is the g of [u] itself. *)
Definition scan_step (u : cell) (tmp_g : double) (s : Planner)
           (min_cost : double) (nbr : option cell) : double :=
  match nbr with
  | None => min_cost
  | Some v =>
      let tmp_cost := _cost u v s in
      if Math_equals mth tmp_cost INF then min_cost
      else
        let tmp_cost := (tmp_cost + tmp_g)%float in
        if Math_less mth tmp_cost min_cost then tmp_cost else min_cost
  end.

(** Case C, the last loop: [_update] of every neighbour. *)
Definition update_nbr (s : Planner) (nbr : option cell) : Planner :=
  match nbr with
  | None => s
  | Some v => _update v s
  end.

(** How one round of the loop ends: at its closing brace, at the [break]
    of line 242, or reading [begin()] of an empty list (undefined
    behaviour). *)
Inductive round :=
| Continue (s : Planner)
| Break (s : Planner)
| EmptyFront (s : Planner).

(** The body of the loop of [_compute] after the step counter: lines 198
    to 274. *)
Definition loop_body (s : Planner) : round :=
  match _open_list s with
  | [] => EmptyFront s
  | (k_old, u) :: _ =>
      let '(k_new, s1) := _k u s in
      if KeyCompare k_old k_new then Continue (_list_update u k_new s1)
      else
        let '(g, s2) := _g u DBL_MIN s1 in
        let '(rhs, s3) := _rhs u DBL_MIN s2 in
        if Math_greater mth g rhs then
          let '(rhs', s4) := _rhs u DBL_MIN s3 in
          let '(_, s5) := _g u rhs' s4 in
          let s6 := _list_remove u s5 in
          Continue (fold_left (relax_step u) (cell_nbrs grid u) s6)
        else
          let '(g_old, s4) := _g u DBL_MIN s3 in
          let '(_, s5) := _g u INF s4 in
          if decide (u = _goal s5) then
            Continue (fold_left update_nbr (cell_nbrs grid u) (_update u s5))
          else
            let '(tmp_g, s6) := _g u DBL_MIN s5 in
            if Math_equals mth tmp_g INF then Break s6
            else
              let min_cost :=
                fold_left (scan_step u tmp_g s6) (cell_nbrs grid u) INF in
              let '(_, s7) := _rhs u min_value s6 in
              Continue (fold_left update_nbr (cell_nbrs grid u) (_update u s7))
  end.

(** What a call returns, or that it ran into undefined behaviour. *)
Inductive outcome :=
| Returned (b : bool) (s : Planner)
| Undefined (s : Planner).

(** The loop of [_compute]; [remaining] is [MAX_STEPS - attempts]. *)
Fixpoint compute_loop (remaining : nat) (s : Planner) : outcome :=
  let '(c, s1) := loop_cond s in
  if c then
    match remaining with
    | O => Returned false s1
    | S r =>
        match loop_body s1 with
        | Continue s2 => compute_loop r s2
        | Break s2 => Returned true s2
        | EmptyFront s2 => Undefined s2
        end
    end
  else Returned true s1.

(** [_compute]. *)
Definition _compute (s : Planner) : outcome :=
  match _open_list s with
  | [] => Returned false s
  | _ :: _ => compute_loop MAX_STEPS s
  end.

(** The loop of [replan] that follows the least successors from [current];
    it need not end, and [None] is the model running out of [fuel]. *)
Fixpoint walk (fuel : nat) (current : option cell) (s : Planner)
  : option (bool * Planner) :=
  if decide (current = Some (_goal s)) then Some (true, s)
  else
    match fuel with
    | O => None
    | S f =>
        match current with
        | None => Some (false, s)
        | Some c =>
            let '(g, s1) := _g c DBL_MIN s in
            if Math_equals mth g INF then Some (false, s1)
            else
              let '(next, s2) := _min_succ c s1 in
              walk f next (with_path (_path s2 ++ [next]) s2)
        end
    end.

(** [replan]. *)
Definition replan (fuel : nat) (s : Planner) : option outcome :=
  let s1 := with_path [] s in
  match _compute s1 with
  | Undefined s2 => Some (Undefined s2)
  | Returned false s2 => Some (Returned false s2)
  | Returned true s2 =>
      let current := _start s2 in
      let s3 := with_path (_path s2 ++ [Some current]) s2 in
      match walk fuel (Some current) s3 with
      | Some (b, s4) => Some (Returned b s4)
      | None => None
      end
  end.

(** [update]. *)
Definition update (u : cell) (c : double) (s : Planner) : Planner :=
  if decide (u = _goal s) then s
  else
    let s1 := with_km (_km s + _h (_last s) (_start s))%float s in
    let s2 := with_last (_start s1) s1 in
    let s3 := _cell u s2 in
    let s4 := with_cost (fun v => if decide (v = u) then c else cost s3 v) s3 in
    _update u s4.

(** [path]. *)
Definition path (s : Planner) : list (option cell) := _path s.

(** [start]. *)
Definition start (u : option cell) (s : Planner) : cell * Planner :=
  match u with
  | None => (_start s, s)
  | Some v => (v, with_start v s)
  end.

(** [goal]. *)
Definition goal (u : option cell) (s : Planner) : cell * Planner :=
  match u with
  | None => (_goal s, s)
  | Some v => (v, with_goal v s)
  end.

(** The constructor [Planner(map, start, goal)]; [cost0] are the costs of
    the cells of the map. *)
Definition new_Planner (cost0 : cell -> double) (start goal : cell) : Planner :=
  let s := mkPlanner cost0 0%float start goal start ∅ [] ∅ [] in
  let '(_, s1) := _rhs goal 0%float s in
  let '(k, s2) := _k goal s1 in
  _list_insert goal k s2.

End PlannerCode.

(** ** The numeric predicates of the specification *)

(** Modelled from the spec: the epsilon of the class [Math] of math.h,
    which is not among the sources.  "Tolerant float equality/ordering
    against a fixed epsilon (1e-5 is sufficient)", "equals(a,b), less(a,b),
    greater(a,b) treat values within epsilon as equal", infinity is "the
    platform's IEEE infinity", and the square root of 2 "a precomputed
    constant".  This is the double nearest to 1e-5. *)
Definition EPSILON : double := 0x1.4f8b588e368f1p-17%float.

(** Modelled from the spec: [Math::equals], absent with math.h.  Two values
    are equal when they are the same number, infinity included, or differ
    by less than the epsilon. *)
Definition spec_equals (a b : double) : bool :=
  (a =? b)%float || (abs (a - b) <? EPSILON)%float.

(** Modelled from the spec: [Math::less], absent with math.h; values within
    the epsilon are equal, so neither is less. *)
Definition spec_less (a b : double) : bool :=
  negb (spec_equals a b) && (a <? b)%float.

(** Modelled from the spec: [Math::greater], absent with math.h. *)
Definition spec_greater (a b : double) : bool :=
  negb (spec_equals a b) && (b <? a)%float.

(** Modelled from the spec: the class [Math] with the IEEE infinity and the
    double nearest to the square root of 2. *)
Definition spec_math : Math :=
  mkMath spec_equals spec_less spec_greater infinity 0x1.6a09e667f3bcdp+0%float.

(** ** What a cell reads as *)

Section Readings.

Variable mth : Math.

(** The pair of [u] in the state store, (INFINITY, INFINITY) before the
    first touch. *)
Definition stored (s : Planner) (u : cell) : double * double :=
  default (Math_INFINITY mth, Math_INFINITY mth) (_cell_hash s !! u).

(** What [_g(u)] and [_rhs(u)] return. *)
Definition g_of (s : Planner) (u : cell) : double := fst (stored s u).

Definition rhs_of (s : Planner) (u : cell) : double :=
  if decide (u = _goal s) then 0%float else snd (stored s u).

(** Local consistency under the tolerant equality, as [_update] tests it. *)
Definition consistent (s : Planner) (u : cell) : bool :=
  Math_equals mth (g_of s u) (rhs_of s u).

(** The state whose store binds [u] to [p]. *)
Definition write (u : cell) (p : double * double) (s : Planner) : Planner :=
  with_cell_hash (<[u := p]> (_cell_hash s)) s.

(** What a setter called with [value] leaves in a field that held [old]. *)
Definition put (value old : double) : double :=
  if (value =? DBL_MIN)%float then old else value.

Variable grid : Map.

(** The key that [_k] computes. *)
Definition key_of (s : Planner) (u : cell) : key :=
  let min := if Math_less mth (g_of s u) (rhs_of s u) then g_of s u
             else rhs_of s u in
  ((min + _h mth grid (_start s) u + _km s)%float, min).

(** The value of the condition of the loop of [_compute]. *)
Definition cond_of (s : Planner) : bool :=
  match _open_list s with
  | [] => false
  | e :: _ => KeyCompare mth (fst e) (key_of s (_start s))
  end
  || negb (Math_equals mth (rhs_of s (_start s)) (g_of s (_start s))).

(** The cells of the open list. *)
Definition cells (s : Planner) : list cell := snd <$> _open_list s.

(** The states that the setters [_g(u, x)] and [_rhs(u, x)] leave, the
    latter for a cell that is not the goal. *)
Definition set_g (u : cell) (x : double) (s : Planner) : Planner :=
  write u (put x (g_of s u), snd (stored s u)) s.

Definition set_rhs (u : cell) (x : double) (s : Planner) : Planner :=
  write u (fst (stored s u), put x (snd (stored s u))) s.

(** The members that [_compute] never assigns. *)
Definition fixed (s : Planner)
  : (cell -> double) * double * cell * cell * cell * list (option cell) :=
  (cost s, _km s, _start s, _goal s, _last s, _path s).

(** [t] is [s] up to cells touched for the first time and up to the path:
    what the reading functions change. *)
Definition touched (s t : Planner) : Prop :=
  cost s = cost t /\ _km s = _km t /\ _start s = _start t
  /\ _goal s = _goal t /\ _last s = _last t
  /\ _open_list s = _open_list t /\ _open_hash s = _open_hash t
  /\ forall v, stored s v = stored t v.

(** What the walk of [replan] depends on. *)
Definition walk_view (s t : Planner) : Prop :=
  (forall v, cost s v = cost t v) /\ _goal s = _goal t
  /\ (forall v, g_of s v = g_of t v) /\ _path s = _path t.

(** ** The correspondence between the open list and local consistency *)

(** What the tolerant comparisons and the constant [INFINITY] of the class
    [Math] are assumed to satisfy. *)
Record MathSane : Prop := {
  inf_refl : Math_equals mth (Math_INFINITY mth) (Math_INFINITY mth) = true;
  inf_not_zero : Math_equals mth (Math_INFINITY mth) 0%float = false;
  inf_not_sentinel : (Math_INFINITY mth =? DBL_MIN)%float = false;
  greater_differs : forall a b,
    Math_greater mth a b = true -> Math_equals mth a b = false;
  greater_refl : forall a b,
    Math_greater mth a b = true -> Math_equals mth b b = true;
  below_finite : forall a b,
    (a <? b)%float = true -> Math_equals mth (Math_INFINITY mth) a = false
}.

(** The claim: the cells of the open list are locally inconsistent, and
    the cells of the store that are not on the open list are locally
    consistent. *)
Definition correspondence (s : Planner) : Prop :=
  (forall u, u ∈ cells s -> consistent s u = false)
  /\ (forall u, is_Some (_cell_hash s !! u) -> u ∉ cells s ->
                consistent s u = true).

(** The open list holds a cell once, and the reverse index holds the
    cells of the open list. *)
Definition indexed (s : Planner) : Prop :=
  NoDup (cells s) /\ forall u, u ∈ _open_hash s <-> u ∈ cells s.

(** [u] is on the open list exactly when it is locally inconsistent. *)
Definition reconciled (s : Planner) (u : cell) : Prop :=
  u ∈ _open_hash s <-> consistent s u = false.

(** The g of [u] is [INFINITY] unless its rhs differs from [INFINITY], and
    its rhs is not the sentinel of the setters. *)
Definition settled (s : Planner) (u : cell) : Prop :=
  (g_of s u = Math_INFINITY mth
   \/ Math_equals mth (Math_INFINITY mth) (rhs_of s u) = false)
  /\ (rhs_of s u =? DBL_MIN)%float = false.

(** The invariant of the quiescent states. *)
Definition quiescent (s : Planner) : Prop :=
  indexed s /\ (forall u, reconciled s u) /\ (forall u, settled s u).

(** The same, but for the membership of [v] in the open list. *)
Definition quiescent_but (v : cell) (s : Planner) : Prop :=
  indexed s /\ (forall u, u <> v -> reconciled s u) /\ (forall u, settled s u).

Variable min_value : double.

(** The states of a constructed planner between public calls, the goal
    never set anew. *)
Inductive reachable : Planner -> Prop :=
| reach_new (cost0 : cell -> double) (start goal : cell) :
    reachable (new_Planner mth grid cost0 start goal)
| reach_update (s : Planner) (u : cell) (c : double) :
    reachable s -> reachable (update mth grid u c s)
| reach_replan (s s' : Planner) (fuel : nat) (b : bool) :
    reachable s ->
    replan mth grid min_value fuel s = Some (Returned b s') ->
    reachable s'
| reach_start (s : Planner) (u : option cell) :
    reachable s -> reachable (snd (start u s))
| reach_goal (s : Planner) :
    reachable s -> reachable (snd (goal None s)).

End Readings.

(** ** Grids for the scenarios *)

(** The cell at column [x] and row [y] of a grid [w] cells wide. *)
Definition at_xy (w x y : Z) : cell := Z.to_pos (1 + x + w * y).

Definition king_moves : list (Z * Z) :=
  [(0, -1); (1, -1); (1, 0); (1, 1); (0, 1); (-1, 1); (-1, 0); (-1, -1)]%Z.

(** A king-move grid of [w] by [h] cells: eight neighbours, NULL outside
    the grid; an unwalkable cell costs infinity. *)
Definition king_grid (w h : Z) : Map :=
  let x_of c := ((Z.pos c - 1) mod w)%Z in
  let y_of c := ((Z.pos c - 1) / w)%Z in
  mkMap x_of y_of
    (fun c =>
       map (fun d : Z * Z =>
              let x := (x_of c + fst d)%Z in
              let y := (y_of c + snd d)%Z in
              if (0 <=? x)%Z && (x <? w)%Z && (0 <=? y)%Z && (y <? h)%Z
              then Some (at_xy w x y) else None)
           king_moves)
    infinity.

(** Every cell costs 1. *)
Definition unit_cost : cell -> double := fun _ => 1%float.

(** The state of a call that returned, the given state otherwise. *)
Definition state_after (o : option outcome) (s : Planner) : Planner :=
  match o with
  | Some (Returned _ s') => s'
  | _ => s
  end.

(** The state in which a round of the loop, or a call, ended. *)
Definition round_state (r : round) : Planner :=
  match r with
  | Continue s | Break s | EmptyFront s => s
  end.

Definition outcome_state (o : outcome) : Planner :=
  match o with
  | Returned _ s | Undefined s => s
  end.

(** What a call returned, if it did. *)
Definition returned (o : option outcome) : option bool :=
  match o with
  | Some (Returned b _) => Some b
  | _ => None
  end.

(** ** Scenarios *)

(** The value taken for the argument [min] of line 262 in the scenarios;
    none of them reaches that line. *)
Definition min_arg : double := 0%float.

(** Scenario 1 of the specification: a row of five cells of cost 1, from
    (0,0) to (4,0). *)
Definition row5 : Map := king_grid 5 1.

Definition scenario1 : Planner :=
  new_Planner spec_math row5 unit_cost (at_xy 5 0 0) (at_xy 5 4 0).

Definition scenario1_planned : Planner :=
  state_after (replan spec_math row5 min_arg 10 scenario1) scenario1.

(** Scenario 4 of the specification: three by three cells, the middle row
    unwalkable, from (0,0) to (0,2). *)
Definition board3 : Map := king_grid 3 3.

Definition wall_cost (c : cell) : double :=
  if ((Z.pos c - 1) / 3 =? 1)%Z then infinity else 1%float.

Definition scenario4 : Planner :=
  new_Planner spec_math board3 wall_cost (at_xy 3 0 0) (at_xy 3 0 2).

(** Scenario 3 of the specification before the obstacle: five by five
    cells of cost 1, from (0,0) to (4,4), planned once. *)
Definition board5 : Map := king_grid 5 5.

Definition scenario3 : Planner :=
  new_Planner spec_math board5 unit_cost (at_xy 5 0 0) (at_xy 5 4 4).

Definition scenario3_planned : Planner :=
  state_after (replan spec_math board5 min_arg 10 scenario3) scenario3.

(** The three neighbours of the start of scenario 3 become unwalkable. *)
Definition scenario3_boxed : Planner :=
  update spec_math board5 (at_xy 5 0 1) infinity
    (update spec_math board5 (at_xy 5 1 1) infinity
       (update spec_math board5 (at_xy 5 1 0) infinity scenario3_planned)).

(** A row of three cells of cost 1 planned from (2,0) to (0,0); then the
    goal is set to (2,0) and the cost of (0,0) is reported again. *)
Definition row3 : Map := king_grid 3 1.

Definition retarget3 : Planner :=
  let s0 := new_Planner spec_math row3 unit_cost (at_xy 3 2 0) (at_xy 3 0 0) in
  let s1 := state_after (replan spec_math row3 min_arg 10 s0) s0 in
  let s2 := snd (goal (Some (at_xy 3 2 0)) s1) in
  update spec_math row3 (at_xy 3 0 0) 1%float s2.

(** A row of four cells, (2,0) unwalkable and the others of cost 0,
    planned with start and goal at (0,0); then start and goal are set to
    (3,0). *)
Definition row4 : Map := king_grid 4 1.

Definition gap_cost (c : cell) : double :=
  if (Z.pos c =? 3)%Z then infinity else 0%float.

Definition retarget4 : Planner :=
  let s0 := new_Planner spec_math row4 gap_cost (at_xy 4 0 0) (at_xy 4 0 0) in
  let s1 := state_after (replan spec_math row4 min_arg 10 s0) s0 in
  snd (goal (Some (at_xy 4 3 0)) (snd (start (Some (at_xy 4 3 0)) s1))).

(** After the words of the specification, for comparison with the code:
    rhs(u) "as the minimum over non-null neighbours v of
    cost(u, v) + g(v); if no finite candidate, rhs(u) := infinity". *)
Definition spec_rhs (mth : Math) (grid : Map) (s : Planner) (u : cell) : double :=
  fold_left
    (fun acc nbr =>
       match nbr with
       | None => acc
       | Some v =>
           let c := (_cost mth grid u v s + g_of mth s v)%float in
           if Math_less mth c acc then c else acc
       end)
    (cell_nbrs grid u) (Math_INFINITY mth).

(** ** Signs of IEEE numbers *)

(** The sign bit of a number is clear, or the number is not a number. *)
Definition sign_clear (x : spec_float) : Prop :=
  match x with
  | S754_zero s | S754_infinity s | S754_finite s _ _ => s = false
  | S754_nan => True
  end.

(** The number is not negative, the negative zero apart. *)
Definition not_below_zero (x : spec_float) : Prop :=
  match x with
  | S754_infinity true | S754_finite true _ _ => False
  | _ => True
  end.

(** ** Paths and sequences of calls *)

Section Paths.

Variable mth : Math.
Variable grid : Map.

(** A step that [_min_succ] can take from [a]: [b] is among the
    neighbours of [a], and neither the cost of the edge nor the g of [b]
    equals [INFINITY]. *)
Definition linked (s : Planner) (a b : cell) : Prop :=
  Some b ∈ cell_nbrs grid a
  /\ Math_equals mth (_cost mth grid a b s) (Math_INFINITY mth) = false
  /\ Math_equals mth (g_of mth s b) (Math_INFINITY mth) = false.

(** A path without NULL whose consecutive cells are linked. *)
Fixpoint chain (s : Planner) (p : list (option cell)) : Prop :=
  match p with
  | [] => True
  | None :: _ => False
  | Some a :: q =>
      match q with
      | [] => True
      | None :: _ => False
      | Some b :: _ => linked s a b /\ chain s q
      end
  end.

(** A neighbour that the scan of [_min_succ] passes over when its least
    cost is still [INFINITY]. *)
Definition dull (s : Planner) (u v : cell) : bool :=
  Math_equals mth (_cost mth grid u v s) (Math_INFINITY mth)
  || Math_equals mth (g_of mth s v) (Math_INFINITY mth)
  || negb (Math_less mth (_cost mth grid u v s + g_of mth s v)%float
                     (Math_INFINITY mth)).

Variable min_value : double.

(** The states between public calls, whatever their arguments: [goal]
    with a cell included. *)
Inductive operated : Planner -> Prop :=
| op_new (cost0 : cell -> double) (start goal : cell) :
    operated (new_Planner mth grid cost0 start goal)
| op_update (s : Planner) (u : cell) (c : double) :
    operated s -> operated (update mth grid u c s)
| op_replan (s s' : Planner) (fuel : nat) (b : bool) :
    operated s ->
    replan mth grid min_value fuel s = Some (Returned b s') ->
    operated s'
| op_start (s : Planner) (u : option cell) :
    operated s -> operated (snd (start u s))
| op_goal (s : Planner) (u : option cell) :
    operated s -> operated (snd (goal u s)).

End Paths.

(** Scenario 3 of the specification after its first [replan] and the
    report that (2,2) is unwalkable. *)
Definition scenario3_blocked : Planner :=
  update spec_math board5 (at_xy 5 2 2) infinity scenario3_planned.

(** Scenario 3 after its first [replan], the start moved to (0,1) and
    the report that (2,2) is unwalkable: the keys of the open list are
    stale. *)
Definition scenario3_moved : Planner :=
  update spec_math board5 (at_xy 5 2 2) infinity
    (snd (start (Some (at_xy 5 0 1)) scenario3_planned)).

(** * Properties *)

(** ** IEEE facts *)

(** Adding zero on both sides gives the number back, the negative zero
    excepted. *)
Lemma zero_add_zero (x : double) :
  Prim2SF x <> S754_zero true -> (0 + x + 0)%float = x.
Proof.
  intros Hx. apply Prim2SF_inj.
  rewrite !FloatAxioms.add_spec.
  change (Prim2SF 0%float) with (S754_zero false).
  destruct (Prim2SF x) as [[|] | [|] | | [|] m e]; try reflexivity.
  congruence.
Qed.

Lemma ltb_not_nan (a b : double) :
  (a <? b)%float = true -> (a =? a)%float = true.
Proof.
  rewrite FloatAxioms.ltb_spec, FloatAxioms.eqb_spec. unfold SFltb, SFeqb.
  destruct (Prim2SF a) as [s|s| |s m e]; try (destruct s; reflexivity).
  - simpl. discriminate.
  - intros _. simpl. destruct s; rewrite Z.compare_refl;
      change (Pos.compare_cont Eq m m) with (Pos.compare m m);
      rewrite Pos.compare_refl; reflexivity.
Qed.

Lemma below_not_infinity (a b : double) :
  (a <? b)%float = true -> spec_equals infinity a = false.
Proof.
  unfold spec_equals.
  rewrite !FloatAxioms.ltb_spec, FloatAxioms.eqb_spec, FloatAxioms.abs_spec, FloatAxioms.sub_spec.
  change (Prim2SF infinity) with (S754_infinity false).
  let v := eval vm_compute in (Prim2SF EPSILON) in change (Prim2SF EPSILON) with v.
  unfold SFltb, SFeqb.
  destruct (Prim2SF a) as [s|s| |s m e]; simpl.
  - intros _. reflexivity.
  - destruct s; [intros _; reflexivity|].
    destruct (Prim2SF b) as [s'|s'| |s' m' e']; try destruct s'; simpl; discriminate.
  - discriminate.
  - intros _. reflexivity.
Qed.

(** Rounding keeps the sign. *)
Lemma round_aux_sign (sx : bool) (m e : Z) (l : location) :
  match binary_round_aux prec emax sx m e l with
  | S754_zero s | S754_infinity s | S754_finite s _ _ => s = sx
  | S754_nan => True
  end.
Proof.
  unfold binary_round_aux.
  destruct (shr_fexp prec emax m e l) as [mrs' e'].
  destruct (shr_fexp prec emax _ e' loc_Exact) as [mrs'' e''].
  destruct (shr_m mrs'') as [|p|p]; try exact I; try reflexivity.
  destruct (e'' <=? emax - prec)%Z; reflexivity.
Qed.

Lemma of_long_sign_clear (z : Z) : sign_clear (Prim2SF (of_long z)).
Proof.
  unfold of_long. rewrite of_uint63_spec.
  pose proof (to_Z_bounded (of_Z z)) as [Hz _].
  destruct (to_Z (of_Z z)) as [|p|p]; simpl.
  - reflexivity.
  - unfold binary_round. destruct (shl_align _ _ _) as [mz ez].
    pose proof (round_aux_sign false (Z.pos mz) ez loc_Exact) as H.
    destruct (binary_round_aux prec emax false (Z.pos mz) ez loc_Exact); simpl; auto.
  - exfalso. apply Hz. reflexivity.
Qed.

Lemma leb_zero (x : double) :
  (0 <=? x)%float = true -> not_below_zero (Prim2SF x).
Proof.
  rewrite FloatAxioms.leb_spec. change (Prim2SF 0%float) with (S754_zero false).
  unfold SFleb. destruct (Prim2SF x) as [s|[|]| |[|] m e]; simpl; try discriminate; auto.
Qed.

Lemma mul_not_below_zero (x y : spec_float) :
  not_below_zero x -> sign_clear y -> not_below_zero (SF64mul x y).
Proof.
  unfold SF64mul.
  destruct x as [sx|[|]| |[|] mx ex]; destruct y as [sy|sy| |sy my ey]; simpl;
    try tauto; intros _ ->; simpl; try exact I.
  pose proof (round_aux_sign false (Z.pos (mx * my)) (ex + ey) loc_Exact) as H.
  destruct (binary_round_aux prec emax false (Z.pos (mx * my)) (ex + ey) loc_Exact) as [s|s| |s m e];
    simpl; auto; subst s; exact I.
Qed.

Lemma add_not_negative_zero (x y : spec_float) :
  not_below_zero x -> sign_clear y -> SF64add x y <> S754_zero true.
Proof.
  unfold SF64add.
  destruct x as [sx|[|]| |[|] mx ex]; destruct y as [sy|sy| |sy my ey];
    intros Hx Hy; simpl in Hx, Hy; try contradiction; try subst sy;
    try (simpl; discriminate); try (destruct sx; simpl; discriminate).
  unfold SFadd. cbn [cond_Zopp].
  generalize (fst (shl_align mx ex (Z.min ex ey))) (fst (shl_align my ey (Z.min ex ey))).
  intros p q. change (Z.pos p + Z.pos q)%Z with (Z.pos (p + q)).
  cbn [binary_normalize].
  unfold binary_round. destruct (shl_align _ _ _) as [mz ez].
  pose proof (round_aux_sign false (Z.pos mz) ez loc_Exact) as H.
  destruct (binary_round_aux prec emax false (Z.pos mz) ez loc_Exact) as [s|s| |s m e];
    try discriminate. subst s. discriminate.
Qed.

(** [_h] is never the negative zero when [SQRT2] is at least 1. *)
Lemma h_not_negative_zero (mth : Math) (grid : Map) (a b : cell) :
  (0 <=? Math_SQRT2 mth - 1)%float = true ->
  Prim2SF (_h mth grid a b) <> S754_zero true.
Proof.
  intros H. unfold _h.
  set (dx := of_long (Z.abs (cell_x grid a - cell_x grid b))).
  set (dy := of_long (Z.abs (cell_y grid a - cell_y grid b))).
  assert (Hx : sign_clear (Prim2SF dx)) by apply of_long_sign_clear.
  assert (Hy : sign_clear (Prim2SF dy)) by apply of_long_sign_clear.
  apply leb_zero in H.
  destruct (dy <? dx)%float; cbv beta iota zeta;
    rewrite FloatAxioms.add_spec, FloatAxioms.mul_spec;
    apply add_not_negative_zero; try assumption;
    apply mul_not_below_zero; assumption.
Qed.

Section Facts.

Variable mth : Math.
Variable grid : Map.
Variable min_value : double.

Abbreviation INF := (Math_INFINITY mth).

(** ** The accessors *)

Lemma stored_write (u v : cell) (p : double * double) (s : Planner) :
  stored mth (write u p s) v = if decide (u = v) then p else stored mth s v.
Proof.
  unfold stored, write. simpl. rewrite lookup_insert.
  destruct (decide (u = v)); reflexivity.
Qed.

Lemma write_write (u : cell) (p q : double * double) (s : Planner) :
  write u q (write u p s) = write u q s.
Proof. unfold write. simpl. rewrite insert_insert_eq. reflexivity. Qed.

Lemma cell_eq (u : cell) (s : Planner) :
  _cell mth u s = write u (stored mth s u) s.
Proof.
  unfold _cell, stored, write.
  destruct (_cell_hash s !! u) as [p|] eqn:E; simpl.
  - rewrite insert_id by exact E. destruct s; reflexivity.
  - reflexivity.
Qed.

Lemma g_any (u : cell) (x : double) (s : Planner) :
  _g mth u x s
  = (put x (g_of mth s u),
     write u (put x (g_of mth s u), snd (stored mth s u)) s).
Proof.
  unfold _g, g_rhs_of, put, g_of. rewrite cell_eq.
  unfold write. simpl. rewrite lookup_insert_eq. simpl.
  destruct (x =? DBL_MIN)%float; simpl.
  - rewrite <- surjective_pairing. reflexivity.
  - rewrite insert_insert_eq. reflexivity.
Qed.

Lemma rhs_any (u : cell) (x : double) (s : Planner) :
  _rhs mth u x s
  = if decide (u = _goal s) then (0%float, s)
    else (put x (snd (stored mth s u)),
          write u (fst (stored mth s u), put x (snd (stored mth s u))) s).
Proof.
  unfold _rhs, g_rhs_of, put.
  destruct (decide (u = _goal s)); [reflexivity|]. rewrite cell_eq.
  unfold write. simpl. rewrite lookup_insert_eq. simpl.
  destruct (x =? DBL_MIN)%float; simpl.
  - rewrite <- surjective_pairing. reflexivity.
  - rewrite insert_insert_eq. reflexivity.
Qed.

Lemma g_get (u : cell) (s : Planner) :
  _g mth u DBL_MIN s = (g_of mth s u, _cell mth u s).
Proof.
  rewrite g_any, cell_eq. unfold put. simpl. unfold g_of.
  rewrite <- surjective_pairing. reflexivity.
Qed.

Lemma rhs_get (u : cell) (s : Planner) :
  _rhs mth u DBL_MIN s
  = (rhs_of mth s u, if decide (u = _goal s) then s else _cell mth u s).
Proof.
  rewrite rhs_any, cell_eq. unfold rhs_of, put. simpl.
  destruct (decide (u = _goal s)); [reflexivity|].
  rewrite <- surjective_pairing. reflexivity.
Qed.

Lemma stored_cell (u v : cell) (s : Planner) :
  stored mth (_cell mth u s) v = stored mth s v.
Proof.
  rewrite cell_eq, stored_write. destruct (decide (u = v)) as [->|]; reflexivity.
Qed.

Lemma cell_idem (u : cell) (s : Planner) :
  _cell mth u (_cell mth u s) = _cell mth u s.
Proof.
  rewrite (cell_eq u (_cell mth u s)), stored_cell, cell_eq, write_write.
  reflexivity.
Qed.

Lemma g_of_cell (u v : cell) (s : Planner) :
  g_of mth (_cell mth u s) v = g_of mth s v.
Proof. unfold g_of. rewrite stored_cell. reflexivity. Qed.

Lemma rhs_of_cell (u v : cell) (s : Planner) :
  rhs_of mth (_cell mth u s) v = rhs_of mth s v.
Proof. unfold rhs_of. rewrite stored_cell, cell_eq. reflexivity. Qed.

Lemma key_of_cell (u v : cell) (s : Planner) :
  key_of mth grid (_cell mth u s) v = key_of mth grid s v.
Proof.
  unfold key_of. rewrite g_of_cell, rhs_of_cell, cell_eq. reflexivity.
Qed.

Lemma k_eq (u : cell) (s : Planner) :
  _k mth grid u s = (key_of mth grid s u, _cell mth u s).
Proof.
  unfold _k. rewrite g_get, rhs_get, rhs_of_cell.
  replace (if decide (u = _goal (_cell mth u s)) then _cell mth u s
           else _cell mth u (_cell mth u s)) with (_cell mth u s)
    by (destruct (decide _); [reflexivity | now rewrite cell_idem]).
  unfold key_of. rewrite cell_eq. reflexivity.
Qed.

(** [_cell] touches the state store only. *)
Lemma cell_cost (u : cell) (s : Planner) : cost (_cell mth u s) = cost s.
Proof. rewrite cell_eq. reflexivity. Qed.

Lemma cell_km (u : cell) (s : Planner) : _km (_cell mth u s) = _km s.
Proof. rewrite cell_eq. reflexivity. Qed.

Lemma cell_start (u : cell) (s : Planner) : _start (_cell mth u s) = _start s.
Proof. rewrite cell_eq. reflexivity. Qed.

Lemma cell_goal (u : cell) (s : Planner) : _goal (_cell mth u s) = _goal s.
Proof. rewrite cell_eq. reflexivity. Qed.

Lemma cell_last (u : cell) (s : Planner) : _last (_cell mth u s) = _last s.
Proof. rewrite cell_eq. reflexivity. Qed.

Lemma cell_open_list (u : cell) (s : Planner) :
  _open_list (_cell mth u s) = _open_list s.
Proof. rewrite cell_eq. reflexivity. Qed.

Lemma cell_open_hash (u : cell) (s : Planner) :
  _open_hash (_cell mth u s) = _open_hash s.
Proof. rewrite cell_eq. reflexivity. Qed.

Lemma cell_path (u : cell) (s : Planner) : _path (_cell mth u s) = _path s.
Proof. rewrite cell_eq. reflexivity. Qed.

Create Rewrite HintDb touch.

Hint Rewrite cell_cost cell_km cell_start cell_goal cell_last cell_open_list
  cell_open_hash cell_path stored_cell g_of_cell rhs_of_cell key_of_cell
  cell_idem : touch.

Lemma cond_of_cell (u : cell) (s : Planner) :
  cond_of mth grid (_cell mth u s) = cond_of mth grid s.
Proof. unfold cond_of. autorewrite with touch. reflexivity. Qed.

(** The condition of the loop reads [cond_of] and touches [_start]. *)
Lemma loop_cond_eq (s : Planner) :
  loop_cond mth grid s = (cond_of mth grid s, _cell mth (_start s) s).
Proof.
  unfold loop_cond, cond_of.
  destruct (_open_list s) as [|e l].
  - rewrite rhs_get. cbv beta iota.
    destruct (decide (_start s = _goal s)); rewrite g_get;
      autorewrite with touch; reflexivity.
  - rewrite k_eq. cbv beta iota.
    destruct (KeyCompare mth (fst e) (key_of mth grid s (_start s))); [reflexivity|].
    rewrite rhs_get. autorewrite with touch. cbv beta iota.
    destruct (decide (_start s = _goal s)); rewrite g_get;
      autorewrite with touch; reflexivity.
Qed.

(** The loop leaves at once when its condition is false. *)
Lemma compute_loop_exit (n : nat) (s : Planner) :
  cond_of mth grid s = false ->
  compute_loop mth grid min_value n s = Returned true (_cell mth (_start s) s).
Proof.
  intros H. destruct n; simpl; rewrite loop_cond_eq, H; reflexivity.
Qed.

(** ** Claims *)

(** C2, as amended.  [_compute] returns false, and leaves the state as it
    is, when the open list is empty on entry.  Its loop ends, and
    [_compute] returns true after touching the start cell only, when the
    open list is empty or its least key is not less than the key of the
    start, and in both cases rhs and g of the start are equal under the
    tolerant comparison. *)
Theorem compute_exits (s : Planner) :
  (_open_list s = [] -> _compute mth grid min_value s = Returned false s)
  /\ (forall n,
        match _open_list s with
        | [] => true
        | e :: _ => negb (KeyCompare mth (fst e) (fst (_k mth grid (_start s) s)))
        end = true ->
        Math_equals mth (fst (_rhs mth (_start s) DBL_MIN s))
                        (fst (_g mth (_start s) DBL_MIN s)) = true ->
        compute_loop mth grid min_value n s
        = Returned true (_cell mth (_start s) s))
  /\ (forall e l,
        _open_list s = e :: l ->
        KeyCompare mth (fst e) (fst (_k mth grid (_start s) s)) = false ->
        Math_equals mth (fst (_rhs mth (_start s) DBL_MIN s))
                        (fst (_g mth (_start s) DBL_MIN s)) = true ->
        _compute mth grid min_value s = Returned true (_cell mth (_start s) s)).
Proof.
  assert (Hloop : forall n,
             match _open_list s with
             | [] => true
             | e :: _ => negb (KeyCompare mth (fst e) (fst (_k mth grid (_start s) s)))
             end = true ->
             Math_equals mth (fst (_rhs mth (_start s) DBL_MIN s))
                             (fst (_g mth (_start s) DBL_MIN s)) = true ->
             compute_loop mth grid min_value n s
             = Returned true (_cell mth (_start s) s)).
  { intros n Hk He. apply compute_loop_exit. unfold cond_of.
    rewrite k_eq in Hk. rewrite rhs_get, g_get in He.
    cbn [fst snd] in Hk, He. rewrite He.
    destruct (_open_list s) as [|e l]; [reflexivity|].
    apply negb_true_iff in Hk. rewrite Hk. reflexivity. }
  split; [|split].
  - intros H. unfold _compute. rewrite H. reflexivity.
  - exact Hloop.
  - intros e l Hl Hk He. unfold _compute. rewrite Hl. apply Hloop.
    + rewrite Hl, Hk. reflexivity.
    + exact He.
Qed.

(** C7.  [update] called with the goal returns at once: the state, with
    km, last, the store, the open list, the path and every cost field, is
    the one it was called in. *)
Theorem update_goal_ignored (s : Planner) (c : double) :
  update mth grid (_goal s) c s = s.
Proof.
  unfold update. destruct (decide (_goal s = _goal s)); [reflexivity | congruence].
Qed.

(** C10, as amended.  Called with [DBL_MIN], [_g] returns the g that [u]
    reads as and [_rhs] the rhs of a cell that is not the goal; both bind
    an absent [u] to (INFINITY, INFINITY), and neither overwrites a pair
    of the store, so a request to set [DBL_MIN] is a read.  For the goal
    [_rhs] returns 0 and leaves the store as it is, an absent goal
    included. *)
Theorem sentinel_reads (s : Planner) (u : cell) :
  let sg := snd (_g mth u DBL_MIN s) in
  let sr := snd (_rhs mth u DBL_MIN s) in
  fst (_g mth u DBL_MIN s) = fst (stored mth s u)
  /\ sg = with_cell_hash (<[u := stored mth s u]> (_cell_hash s)) s
  /\ (forall v p, _cell_hash s !! v = Some p -> _cell_hash sg !! v = Some p)
  /\ (_cell_hash s !! u = None -> _cell_hash sg !! u = Some (INF, INF))
  /\ (u = _goal s -> _rhs mth u DBL_MIN s = (0%float, s))
  /\ (u <> _goal s ->
      fst (_rhs mth u DBL_MIN s) = snd (stored mth s u) /\ sr = sg)
  /\ (forall v p, _cell_hash s !! v = Some p -> _cell_hash sr !! v = Some p)
  /\ (u <> _goal s -> _cell_hash s !! u = None ->
      _cell_hash sr !! u = Some (INF, INF)).
Proof.
  intros sg sr.
  assert (Hsg : sg = with_cell_hash (<[u := stored mth s u]> (_cell_hash s)) s).
  { unfold sg. rewrite g_get, cell_eq. reflexivity. }
  assert (Hkeep : forall v p, _cell_hash s !! v = Some p ->
                              _cell_hash sg !! v = Some p).
  { intros v p Hv. rewrite Hsg. simpl. rewrite lookup_insert.
    destruct (decide (u = v)) as [->|]; [|exact Hv].
    unfold stored. rewrite Hv. reflexivity. }
  assert (Hnew : _cell_hash s !! u = None -> _cell_hash sg !! u = Some (INF, INF)).
  { intros Hu. rewrite Hsg. simpl. rewrite lookup_insert_eq.
    unfold stored. rewrite Hu. reflexivity. }
  assert (Hsr : sr = if decide (u = _goal s) then s else sg).
  { unfold sr, sg. rewrite rhs_get, g_get. reflexivity. }
  repeat split.
  - rewrite g_get. reflexivity.
  - exact Hsg.
  - exact Hkeep.
  - exact Hnew.
  - intros Hu. rewrite rhs_get. unfold rhs_of.
    destruct (decide (u = _goal s)); [reflexivity | congruence].
  - rewrite rhs_get. unfold rhs_of.
    destruct (decide (u = _goal s)); [congruence | reflexivity].
  - rewrite Hsr. destruct (decide (u = _goal s)); [congruence | reflexivity].
  - intros v p Hv. rewrite Hsr.
    destruct (decide (u = _goal s)); [exact Hv | apply Hkeep, Hv].
  - intros Hu Hn. rewrite Hsr.
    destruct (decide (u = _goal s)); [congruence | apply Hnew, Hn].
Qed.

(** C8.  The state after construction: km is 0, last is the start, the
    path is empty, g and rhs of every cell but the goal read as
    (INFINITY, INFINITY), the rhs of the goal reads as 0, and the open list
    holds the goal alone with the key (h(start, goal), 0).  Of the class
    [Math] it is assumed that [less(INFINITY, 0)] is false and that [SQRT2]
    is at least 1. *)
Theorem constructed_state (cost0 : cell -> double) (start goal : cell) :
  Math_less mth INF 0%float = false ->
  (0 <=? Math_SQRT2 mth - 1)%float = true ->
  let s := new_Planner mth grid cost0 start goal in
  _km s = 0%float /\ _last s = start /\ _start s = start /\ _goal s = goal
  /\ path s = []
  /\ (forall v, v <> goal ->
        fst (_g mth v DBL_MIN s) = INF /\ fst (_rhs mth v DBL_MIN s) = INF)
  /\ fst (_rhs mth goal DBL_MIN s) = 0%float
  /\ _open_list s = [((_h mth grid start goal, 0%float), goal)]
  /\ _open_hash s = {[goal]}.
Proof.
  intros Hless Hsqrt s.
  pose proof (h_not_negative_zero mth grid start goal Hsqrt) as Hh.
  assert (Hs : s = mkPlanner cost0 0%float start goal start
                     {[goal := (INF, INF)]}
                     [((_h mth grid start goal, 0%float), goal)] {[goal]} []).
  { unfold s, new_Planner. rewrite rhs_any. simpl.
    destruct (decide (goal = goal)); [|congruence].
    rewrite k_eq. unfold _list_insert, key_of, g_of, rhs_of, stored, _cell.
    simpl. rewrite lookup_empty. simpl.
    destruct (decide (goal = goal)); [|congruence].
    rewrite Hless, (zero_add_zero _ Hh).
    unfold with_open, with_cell_hash. simpl.
    rewrite insert_empty, union_empty_r_L. reflexivity. }
  rewrite Hs. repeat split; try reflexivity.
  - rewrite g_get. unfold g_of, stored. simpl.
    rewrite lookup_singleton_ne by congruence. reflexivity.
  - rewrite rhs_get. unfold rhs_of, stored. simpl.
    destruct (decide (v = goal)); [congruence|].
    rewrite lookup_singleton_ne by congruence. reflexivity.
  - rewrite rhs_get. unfold rhs_of. simpl.
    destruct (decide (goal = goal)); [reflexivity | congruence].
Qed.

(** ** Permutations of the open list *)
Lemma ol_insert_perm (cmp : key -> key -> bool) (e : key * cell) (l : OL) :
  ol_insert cmp e l ≡ₚ e :: l.
Proof.
  induction l as [|e' l IH]; simpl; [reflexivity|].
  destruct (cmp (fst e) (fst e')); [reflexivity|].
  rewrite IH. apply Permutation_swap.
Qed.

Lemma ol_insert_lower_perm (cmp : key -> key -> bool) (e : key * cell) (l : OL) :
  ol_insert_lower cmp e l ≡ₚ e :: l.
Proof.
  induction l as [|e' l IH]; simpl; [reflexivity|].
  destruct (cmp (fst e') (fst e)); [|reflexivity].
  rewrite IH. apply Permutation_swap.
Qed.

Lemma ol_insert_hint_perm (cmp : key -> key -> bool) (pre post : OL) (e : key * cell) :
  ol_insert_hint cmp pre post e ≡ₚ e :: pre ++ post.
Proof.
  unfold ol_insert_hint.
  destruct post as [|h post'].
  - rewrite app_nil_r. destruct (last pre) as [p|] eqn:E.
    + destruct (negb _); [|apply ol_insert_perm].
      rewrite Permutation_app_comm. reflexivity.
    + apply last_None in E. subst pre. reflexivity.
  - destruct (negb (cmp (fst h) (fst e))).
    + destruct (last pre) as [p|] eqn:E.
      * destruct (negb _); [|apply ol_insert_perm].
        symmetry. apply Permutation_middle.
      * apply last_None in E. subst pre. reflexivity.
    + destruct post' as [|a post''].
      * rewrite (Permutation_app_comm pre [h; e]). simpl.
        rewrite Permutation_swap. apply perm_skip.
        rewrite Permutation_app_comm. reflexivity.
      * destruct (negb _); [|apply ol_insert_lower_perm].
        rewrite (Permutation_middle pre (h :: a :: post'') e).
        apply Permutation_app_head, Permutation_swap.
Qed.

Lemma ol_split_some (u : cell) (l pre post : OL) :
  ol_split u l = Some (pre, post) ->
  exists k, l = pre ++ (k, u) :: post.
Proof.
  revert pre. induction l as [|[k v] l IH]; intros pre; simpl; [discriminate|].
  destruct (decide (v = u)) as [->|].
  - intros [= <- <-]. exists k. reflexivity.
  - destruct (ol_split u l) as [[pre' post']|]; [|discriminate].
    intros [= <- <-]. destruct (IH pre' eq_refl) as [k' ->].
    exists k'. reflexivity.
Qed.

Lemma ol_split_none (u : cell) (l : OL) :
  ol_split u l = None -> u ∉ (snd <$> l).
Proof.
  induction l as [|[k v] l IH]; simpl; [intros _; apply not_elem_of_nil|].
  destruct (decide (v = u)); [discriminate|].
  destruct (ol_split u l) as [[pre' post']|]; [discriminate|].
  intros _. rewrite not_elem_of_cons. split; [congruence | apply IH; reflexivity].
Qed.

Lemma ol_erase_perm (u : cell) (l : OL) :
  u ∈ (snd <$> l) -> (snd <$> l) ≡ₚ u :: (snd <$> ol_erase u l).
Proof.
  induction l as [|[k v] l IH]; simpl.
  - intros H. apply elem_of_nil in H. destruct H.
  - destruct (decide (v = u)) as [->|Hne]; [reflexivity|].
    rewrite elem_of_cons. intros [->|H]; [congruence|].
    simpl. rewrite (IH H) at 1. apply Permutation_swap.
Qed.

(** ** What the readings depend on *)
Lemma rhs_of_ext (s t : Planner) (u : cell) :
  _goal s = _goal t -> stored mth s u = stored mth t u ->
  rhs_of mth s u = rhs_of mth t u.
Proof. intros Hg Hs. unfold rhs_of. rewrite Hg, Hs. reflexivity. Qed.

Lemma g_of_ext (s t : Planner) (u : cell) :
  stored mth s u = stored mth t u -> g_of mth s u = g_of mth t u.
Proof. intros Hs. unfold g_of. rewrite Hs. reflexivity. Qed.

Lemma consistent_ext (s t : Planner) (u : cell) :
  _goal s = _goal t -> stored mth s u = stored mth t u ->
  consistent mth s u = consistent mth t u.
Proof.
  intros Hg Hs. unfold consistent.
  rewrite (g_of_ext s t u Hs), (rhs_of_ext s t u Hg Hs). reflexivity.
Qed.

Lemma settled_ext (s t : Planner) (u : cell) :
  _goal s = _goal t -> stored mth s u = stored mth t u ->
  settled mth s u -> settled mth t u.
Proof.
  intros Hg Hs. unfold settled.
  rewrite (g_of_ext s t u Hs), (rhs_of_ext s t u Hg Hs). tauto.
Qed.

Lemma fixed_goal (s t : Planner) : fixed s = fixed t -> _goal s = _goal t.
Proof. unfold fixed. intros H. congruence. Qed.

Lemma fixed_path (s t : Planner) : fixed s = fixed t -> _path s = _path t.
Proof. unfold fixed. intros H. congruence. Qed.

Lemma fixed_start (s t : Planner) : fixed s = fixed t -> _start s = _start t.
Proof. unfold fixed. intros H. congruence. Qed.

Lemma fixed_cell (u : cell) (s : Planner) : fixed (_cell mth u s) = fixed s.
Proof. rewrite cell_eq. reflexivity. Qed.

(** ** The functions in terms of the readings *)
Lemma g_set_eq (u : cell) (x : double) (s : Planner) :
  _g mth u x s = (put x (g_of mth s u), set_g mth u x s).
Proof. apply g_any. Qed.

Lemma rhs_set_eq (u : cell) (x : double) (s : Planner) :
  u <> _goal s ->
  _rhs mth u x s = (put x (snd (stored mth s u)), set_rhs mth u x s).
Proof.
  intros H. rewrite rhs_any. destruct (decide (u = _goal s)); [congruence|reflexivity].
Qed.

Lemma rhs_get_cell (u : cell) (s : Planner) :
  _rhs mth u DBL_MIN (_cell mth u s) = (rhs_of mth s u, _cell mth u s).
Proof.
  rewrite rhs_get. autorewrite with touch.
  destruct (decide (u = _goal s)); reflexivity.
Qed.

Lemma update_eq (u : cell) (s : Planner) :
  _update mth grid u s
  = if negb (consistent mth s u) then
      if bool_decide (u ∈ _open_hash s)
      then _list_update mth u (key_of mth grid s u) (_cell mth u s)
      else _list_insert mth u (key_of mth grid s u) (_cell mth u s)
    else
      if bool_decide (u ∈ _open_hash s) then _list_remove u (_cell mth u s)
      else _cell mth u s.
Proof.
  unfold _update. rewrite g_get, rhs_get_cell. cbv beta iota zeta.
  rewrite k_eq. autorewrite with touch. unfold consistent.
  destruct (Math_equals mth (g_of mth s u) (rhs_of mth s u));
    destruct (bool_decide (u ∈ _open_hash s)); reflexivity.
Qed.

(** ** The list operations on a state *)
Lemma cells_insert (u : cell) (k : key) (s : Planner) :
  cells (_list_insert mth u k s) ≡ₚ u :: cells s.
Proof.
  unfold cells, _list_insert. simpl. rewrite ol_insert_perm. reflexivity.
Qed.

Lemma cells_update (u : cell) (k : key) (s : Planner) :
  u ∈ cells s -> cells (_list_update mth u k s) ≡ₚ cells s.
Proof.
  unfold cells, _list_update. intros Hu.
  destruct (ol_split u (_open_list s)) as [[pre post]|] eqn:E.
  - destruct (ol_split_some _ _ _ _ E) as [k' Hl]. simpl.
    rewrite ol_insert_hint_perm, Hl. rewrite !fmap_cons, !fmap_app, !fmap_cons.
    simpl. apply Permutation_middle.
  - apply ol_split_none in E. contradiction.
Qed.

Lemma cells_remove (u : cell) (s : Planner) :
  u ∈ cells s -> cells s ≡ₚ u :: cells (_list_remove u s).
Proof. unfold cells, _list_remove. simpl. apply ol_erase_perm. Qed.

Lemma indexed_insert (u : cell) (k : key) (s : Planner) :
  indexed s -> u ∉ _open_hash s -> indexed (_list_insert mth u k s).
Proof.
  intros [Hnd Hix] Hu. split.
  - rewrite cells_insert. apply NoDup_cons. split; [|exact Hnd].
    rewrite <- Hix. exact Hu.
  - intros w. rewrite cells_insert. simpl. rewrite elem_of_union, elem_of_singleton, elem_of_cons, Hix.
    reflexivity.
Qed.

Lemma indexed_update (u : cell) (k : key) (s : Planner) :
  indexed s -> u ∈ _open_hash s -> indexed (_list_update mth u k s).
Proof.
  intros [Hnd Hix] Hu. assert (Hc : u ∈ cells s) by (apply Hix; exact Hu). split.
  - rewrite cells_update by exact Hc. exact Hnd.
  - intros w. rewrite cells_update by exact Hc. rewrite <- Hix.
    unfold _list_update. destruct (ol_split u (_open_list s)) as [[pre post]|]; simpl;
      rewrite elem_of_union, elem_of_singleton; split; intros H; try tauto;
      destruct H as [->|H]; assumption.
Qed.

Lemma indexed_remove (u : cell) (s : Planner) :
  indexed s -> u ∈ _open_hash s -> indexed (_list_remove u s).
Proof.
  intros [Hnd Hix] Hu. assert (Hc : u ∈ cells s) by (apply Hix; exact Hu).
  pose proof (cells_remove u s Hc) as Hp. rewrite Hp in Hnd.
  apply NoDup_cons in Hnd as [Hnu Hnd']. split; [exact Hnd'|].
  intros w. simpl. rewrite elem_of_difference, elem_of_singleton, Hix, Hp, elem_of_cons.
  split.
  - intros [[->|H] Hne]; [congruence | exact H].
  - intros H. split; [right; exact H|]. intros ->. contradiction.
Qed.

Lemma hash_update (u : cell) (k : key) (s : Planner) :
  _open_hash (_list_update mth u k s) = {[u]} ∪ _open_hash s.
Proof.
  unfold _list_update. destruct (ol_split u (_open_list s)) as [[pre post]|]; reflexivity.
Qed.

Lemma fixed_list_update (u : cell) (k : key) (s : Planner) :
  fixed (_list_update mth u k s) = fixed s.
Proof.
  unfold _list_update. destruct (ol_split u (_open_list s)) as [[pre post]|]; reflexivity.
Qed.

Lemma stored_list_update (u : cell) (k : key) (s : Planner) (v : cell) :
  stored mth (_list_update mth u k s) v = stored mth s v.
Proof.
  unfold _list_update. destruct (ol_split u (_open_list s)) as [[pre post]|]; reflexivity.
Qed.

(** What [_update] does: the state is the same up to the store touched at
    [v] and the membership of [v] in the open list, which it reconciles. *)
Lemma update_spec (v : cell) (s : Planner) :
  indexed s ->
  let s' := _update mth grid v s in
  indexed s' /\ fixed s' = fixed s /\ (forall w, stored mth s' w = stored mth s w)
  /\ reconciled mth s' v
  /\ (forall w, w <> v -> (w ∈ _open_hash s' <-> w ∈ _open_hash s)).
Proof.
  intros Hix s'. unfold s'. rewrite update_eq.
  assert (Hix' : indexed (_cell mth v s)).
  { unfold indexed, cells. autorewrite with touch. exact Hix. }
  assert (Hcons : forall t, _goal t = _goal s -> (forall w, stored mth t w = stored mth s w) ->
                            consistent mth t v = consistent mth s v).
  { intros t Hg Hs. apply consistent_ext; [exact Hg | apply Hs]. }
  destruct (consistent mth s v) eqn:Ec; simpl;
    destruct (bool_decide (v ∈ _open_hash s)) eqn:Eh;
    [apply bool_decide_eq_true in Eh | apply bool_decide_eq_false in Eh
    |apply bool_decide_eq_true in Eh | apply bool_decide_eq_false in Eh].
  - (* consistent, on the list: removed *)
    split; [apply indexed_remove; [exact Hix' | autorewrite with touch; exact Eh]|].
    split; [unfold _list_remove; simpl; apply fixed_cell|].
    split; [intros w; unfold _list_remove; change (stored mth (_cell mth v s) w = stored mth s w); apply stored_cell|].
    split.
    + unfold reconciled. rewrite Hcons.
      * simpl. autorewrite with touch. rewrite elem_of_difference, elem_of_singleton.
        split; [tauto | discriminate].
      * simpl. apply cell_goal.
      * intros w. apply stored_cell.
    + intros w Hw. simpl. autorewrite with touch.
      rewrite elem_of_difference, elem_of_singleton. tauto.
  - (* consistent, not on the list *)
    split; [exact Hix'|]. split; [apply fixed_cell|].
    split; [intros w; apply stored_cell|]. split.
    + unfold reconciled. rewrite Hcons; autorewrite with touch; try reflexivity.
      * split; [tauto | discriminate].
      * intros w. apply stored_cell.
    + intros w Hw. autorewrite with touch. reflexivity.
  - (* inconsistent, on the list: key updated *)
    split; [apply indexed_update; [exact Hix' | autorewrite with touch; exact Eh]|].
    split; [rewrite fixed_list_update; apply fixed_cell|].
    split; [intros w; rewrite stored_list_update; apply stored_cell|].
    split.
    + unfold reconciled. rewrite Hcons.
      * rewrite hash_update. autorewrite with touch. rewrite elem_of_union, elem_of_singleton.
        tauto.
      * rewrite (fixed_goal _ _ (fixed_list_update _ _ _)). apply cell_goal.
      * intros w. rewrite stored_list_update. apply stored_cell.
    + intros w Hw. rewrite hash_update. autorewrite with touch.
      rewrite elem_of_union, elem_of_singleton. tauto.
  - (* inconsistent, not on the list: inserted *)
    split; [apply indexed_insert; [exact Hix' | autorewrite with touch; exact Eh]|].
    split; [unfold _list_insert; simpl; apply fixed_cell|].
    split; [intros w; unfold _list_insert; change (stored mth (_cell mth v s) w = stored mth s w); apply stored_cell|].
    split.
    + unfold reconciled. rewrite Hcons.
      * simpl. autorewrite with touch. rewrite elem_of_union, elem_of_singleton. tauto.
      * simpl. apply cell_goal.
      * intros w. apply stored_cell.
    + intros w Hw. simpl. autorewrite with touch.
      rewrite elem_of_union, elem_of_singleton. tauto.
Qed.

Lemma cost_ext (a b : cell) (s t : Planner) :
  cost s a = cost t a -> cost s b = cost t b ->
  _cost mth grid a b s = _cost mth grid a b t.
Proof. intros Ha Hb. unfold _cost. rewrite Ha, Hb. reflexivity. Qed.

Lemma cost_cell (a b u : cell) (s : Planner) :
  _cost mth grid a b (_cell mth u s) = _cost mth grid a b s.
Proof. apply cost_ext; autorewrite with touch; reflexivity. Qed.

Lemma relax_step_eq (u v : cell) (s : Planner) :
  relax_step mth grid u s (Some v)
  = _update mth grid v
      (if decide (v = _goal s) then s
       else set_rhs mth v
              (std_min (rhs_of mth s v) (_cost mth grid v u s + g_of mth s u)%float)
              (_cell mth u (_cell mth v s))).
Proof.
  unfold relax_step. destruct (decide (v = _goal s)) as [|Hne]; [reflexivity|].
  rewrite rhs_get. destruct (decide (v = _goal s)); [congruence|].
  cbv beta iota zeta. rewrite g_get. cbv beta iota zeta.
  rewrite rhs_set_eq by (autorewrite with touch; exact Hne).
  autorewrite with touch. rewrite cost_cell. reflexivity.
Qed.

Lemma loop_body_eq (s : Planner) :
  loop_body mth grid min_value s
  = match _open_list s with
    | [] => EmptyFront s
    | (k_old, u) :: _ =>
        let s1 := _cell mth u s in
        if KeyCompare mth k_old (key_of mth grid s u)
        then Continue (_list_update mth u (key_of mth grid s u) s1)
        else if Math_greater mth (g_of mth s u) (rhs_of mth s u) then
          Continue (fold_left (relax_step mth grid u) (cell_nbrs grid u)
                      (_list_remove u (set_g mth u (rhs_of mth s u) s1)))
        else
          let s5 := set_g mth u INF s1 in
          if decide (u = _goal s) then
            Continue (fold_left (update_nbr mth grid) (cell_nbrs grid u)
                        (_update mth grid u s5))
          else if Math_equals mth (g_of mth s5 u) INF then Break (_cell mth u s5)
          else
            Continue (fold_left (update_nbr mth grid) (cell_nbrs grid u)
                        (_update mth grid u (set_rhs mth u min_value (_cell mth u s5))))
    end.
Proof.
  unfold loop_body. destruct (_open_list s) as [|[k_old u] l]; [reflexivity|].
  rewrite k_eq. cbv beta iota zeta.
  destruct (KeyCompare mth k_old (key_of mth grid s u)); [reflexivity|].
  rewrite g_get. cbv beta iota zeta. rewrite cell_idem, rhs_get_cell. cbv beta iota zeta.
  autorewrite with touch.
  destruct (Math_greater mth (g_of mth s u) (rhs_of mth s u)).
  - rewrite rhs_get_cell. cbv beta iota zeta. rewrite g_set_eq. reflexivity.
  - rewrite g_get. cbv beta iota zeta. rewrite cell_idem, g_set_eq. cbv beta iota zeta.
    change (_goal (set_g mth u INF (_cell mth u s))) with (_goal (_cell mth u s)).
    rewrite cell_goal.
    destruct (decide (u = _goal s)) as [|Hne]; [reflexivity|].
    rewrite g_get. cbv beta iota zeta.
    destruct (Math_equals mth (g_of mth (set_g mth u INF (_cell mth u s)) u) INF);
      [reflexivity|].
    rewrite rhs_set_eq; [reflexivity|].
    rewrite cell_goal. change (_goal (set_g mth u INF (_cell mth u s))) with (_goal (_cell mth u s)).
    rewrite cell_goal. exact Hne.
Qed.


(** Case C for a cell that is not the goal: when [equals(INFINITY,
    INFINITY)] holds and [INFINITY] is not the sentinel, the round ends at
    the [break] of line 242 and the rhs of the cell is the one it was. *)
Lemma retract_breaks (s : Planner) (k_old : key) (u : cell) (l : OL) :
  Math_equals mth INF INF = true ->
  (INF =? DBL_MIN)%float = false ->
  _open_list s = (k_old, u) :: l ->
  KeyCompare mth k_old (key_of mth grid s u) = false ->
  Math_greater mth (g_of mth s u) (rhs_of mth s u) = false ->
  u <> _goal s ->
  exists s', loop_body mth grid min_value s = Break s'
             /\ g_of mth s' u = INF /\ rhs_of mth s' u = rhs_of mth s u.
Proof.
  intros Hrefl Hsen Hl Hk Hgt Hne. rewrite loop_body_eq, Hl. cbv zeta.
  rewrite Hk, Hgt. destruct (decide (u = _goal s)); [congruence|].
  assert (Hg : g_of mth (set_g mth u INF (_cell mth u s)) u = INF).
  { unfold set_g, g_of. rewrite stored_write.
    destruct (decide (u = u)); [|congruence]. unfold put. rewrite Hsen. reflexivity. }
  rewrite Hg, Hrefl. eexists. split; [reflexivity|].
  autorewrite with touch. split; [exact Hg|].
  unfold set_g, rhs_of. rewrite stored_write.
  change (_goal (write u (put INF (g_of mth (_cell mth u s) u),
                          snd (stored mth (_cell mth u s) u)) (_cell mth u s)))
    with (_goal (_cell mth u s)).
  rewrite cell_goal. destruct (decide (u = _goal s)); [congruence|].
  destruct (decide (u = u)); [|congruence]. cbn [snd]. rewrite stored_cell. reflexivity.
Qed.

(** With the open list empty and rhs and g of the start different, a round
    of the loop that the step counter allows reads [begin()] of the empty
    list. *)
Lemma drained_list_is_read (n : nat) (s : Planner) :
  _open_list s = [] ->
  Math_equals mth (rhs_of mth s (_start s)) (g_of mth s (_start s)) = false ->
  compute_loop mth grid min_value (S n) s = Undefined (_cell mth (_start s) s).
Proof.
  intros Hl He. cbn [compute_loop]. rewrite loop_cond_eq. unfold cond_of.
  rewrite Hl, He. cbn [orb negb]. rewrite loop_body_eq, cell_open_list, Hl. reflexivity.
Qed.

(** ** What [_compute] never assigns *)
Lemma fixed_update (u : cell) (s : Planner) :
  fixed (_update mth grid u s) = fixed s.
Proof.
  rewrite update_eq.
  destruct (negb (consistent mth s u)); destruct (bool_decide (u ∈ _open_hash s));
    rewrite ?fixed_list_update; try apply fixed_cell;
    unfold _list_insert, _list_remove; apply fixed_cell.
Qed.

Lemma fold_left_keeps {A B : Type} (f : A -> B -> A) (P : A -> Prop) :
  (forall a b, P a -> P (f a b)) ->
  forall l a, P a -> P (fold_left f l a).
Proof.
  intros Hf l. induction l as [|b l IH]; intros a Ha; simpl; [exact Ha|].
  apply IH, Hf, Ha.
Qed.

Lemma fixed_relax_step (u : cell) (s : Planner) (nbr : option cell) :
  fixed (relax_step mth grid u s nbr) = fixed s.
Proof.
  destruct nbr as [v|]; [|reflexivity].
  rewrite relax_step_eq, fixed_update.
  destruct (decide (v = _goal s)); [reflexivity|].
  unfold set_rhs. change (fixed (_cell mth u (_cell mth v s)) = fixed s).
  rewrite !fixed_cell. reflexivity.
Qed.

Lemma fixed_update_nbr (s : Planner) (nbr : option cell) :
  fixed (update_nbr mth grid s nbr) = fixed s.
Proof. destruct nbr as [v|]; [apply fixed_update | reflexivity]. Qed.

Lemma fixed_loop_body (s : Planner) :
  fixed (round_state (loop_body mth grid min_value s)) = fixed s.
Proof.
  rewrite loop_body_eq. destruct (_open_list s) as [|[k_old u] l]; [reflexivity|].
  cbv zeta.
  destruct (KeyCompare mth k_old (key_of mth grid s u)); simpl.
  { rewrite fixed_list_update. apply fixed_cell. }
  destruct (Math_greater mth (g_of mth s u) (rhs_of mth s u)); simpl.
  { apply (fold_left_keeps _ (fun t => fixed t = fixed s)).
    - intros a b Ha. rewrite fixed_relax_step. exact Ha.
    - unfold _list_remove, set_g. change (fixed (_cell mth u s) = fixed s). apply fixed_cell. }
  destruct (decide (u = _goal s)); simpl.
  { apply (fold_left_keeps _ (fun t => fixed t = fixed s)).
    - intros a b Ha. rewrite fixed_update_nbr. exact Ha.
    - rewrite fixed_update. unfold set_g. change (fixed (_cell mth u s) = fixed s). apply fixed_cell. }
  destruct (Math_equals mth (g_of mth (set_g mth u INF (_cell mth u s)) u) INF); simpl.
  { rewrite fixed_cell. unfold set_g. change (fixed (_cell mth u s) = fixed s). apply fixed_cell. }
  apply (fold_left_keeps _ (fun t => fixed t = fixed s)).
  - intros a b Ha. rewrite fixed_update_nbr. exact Ha.
  - rewrite fixed_update. unfold set_rhs.
    change (fixed (_cell mth u (set_g mth u INF (_cell mth u s))) = fixed s).
    rewrite fixed_cell. unfold set_g. change (fixed (_cell mth u s) = fixed s). apply fixed_cell.
Qed.

Lemma fixed_compute_loop (n : nat) (s : Planner) :
  fixed (outcome_state (compute_loop mth grid min_value n s)) = fixed s.
Proof.
  revert s. induction n as [|n IH]; intros s; simpl; rewrite loop_cond_eq;
    destruct (cond_of mth grid s); simpl; try apply fixed_cell.
  pose proof (fixed_loop_body (_cell mth (_start s) s)) as Hb.
  destruct (loop_body mth grid min_value (_cell mth (_start s) s)) as [s2|s2|s2];
    simpl in *; rewrite ?IH, Hb; apply fixed_cell.
Qed.

Lemma fixed_compute (s : Planner) :
  fixed (outcome_state (_compute mth grid min_value s)) = fixed s.
Proof.
  unfold _compute. destruct (_open_list s); [reflexivity | apply fixed_compute_loop].
Qed.

(** ** The reading functions *)
Lemma touched_refl (s : Planner) : touched mth s s.
Proof. unfold touched. tauto. Qed.

Lemma touched_trans (s t r : Planner) :
  touched mth s t -> touched mth t r -> touched mth s r.
Proof.
  unfold touched. intros (?&?&?&?&?&?&?&Hs) (?&?&?&?&?&?&?&Ht).
  repeat split; congruence.
Qed.

Lemma touched_cell (u : cell) (s : Planner) : touched mth s (_cell mth u s).
Proof.
  unfold touched. autorewrite with touch. repeat split.
  intros v. autorewrite with touch. reflexivity.
Qed.

Lemma touched_path (p : list (option cell)) (s : Planner) :
  touched mth s (with_path p s).
Proof. unfold touched. simpl. repeat split. Qed.

Lemma min_succ_step_touched (u : cell) (acc : (option cell * double) * Planner)
      (nbr : option cell) :
  touched mth (snd acc) (snd (min_succ_step mth grid u acc nbr)).
Proof.
  destruct acc as [[mc mcost] s]. destruct nbr as [v|]; unfold min_succ_step;
    cbv beta iota zeta; [|apply touched_refl].
  rewrite g_get. cbv beta iota zeta.
  destruct (Math_equals mth (_cost mth grid u v s) INF || Math_equals mth (g_of mth s v) INF);
    [apply touched_cell|].
  destruct (Math_less mth _ mcost); apply touched_cell.
Qed.

Lemma min_succ_eq (u : cell) (s : Planner) :
  _min_succ mth grid u s
  = (fst (fst (fold_left (min_succ_step mth grid u) (cell_nbrs grid u) ((None, INF), s))),
     snd (fold_left (min_succ_step mth grid u) (cell_nbrs grid u) ((None, INF), s))).
Proof.
  unfold _min_succ.
  destruct (fold_left _ _ _) as [[mc mcost] s1]. reflexivity.
Qed.

Lemma min_succ_touched (u : cell) (s : Planner) :
  touched mth s (snd (_min_succ mth grid u s)).
Proof.
  rewrite min_succ_eq. cbn [fst snd].
  apply (fold_left_keeps _ (fun acc => touched mth s (snd acc))).
  - intros a b Ha. eapply touched_trans; [exact Ha | apply min_succ_step_touched].
  - apply touched_refl.
Qed.

Lemma walk_O (c : option cell) (s : Planner) :
  walk mth grid 0 c s = if decide (c = Some (_goal s)) then Some (true, s) else None.
Proof. reflexivity. Qed.

Lemma walk_S (fuel : nat) (c : option cell) (s : Planner) :
  walk mth grid (S fuel) c s
  = if decide (c = Some (_goal s)) then Some (true, s)
    else match c with
         | None => Some (false, s)
         | Some x =>
             if Math_equals mth (g_of mth s x) INF then Some (false, _cell mth x s)
             else
               let r := _min_succ mth grid x (_cell mth x s) in
               walk mth grid fuel (fst r) (with_path (_path (snd r) ++ [fst r]) (snd r))
         end.
Proof.
  change (walk mth grid (S fuel) c s) with
    (if decide (c = Some (_goal s)) then Some (true, s)
     else match c with
          | None => Some (false, s)
          | Some c0 =>
              let '(g, s1) := _g mth c0 DBL_MIN s in
              if Math_equals mth g INF then Some (false, s1)
              else
                let '(next, s2) := _min_succ mth grid c0 s1 in
                walk mth grid fuel next (with_path (_path s2 ++ [next]) s2)
          end).
  destruct (decide (c = Some (_goal s))); [reflexivity|].
  destruct c as [x|]; [|reflexivity].
  rewrite g_get. cbv beta iota zeta.
  destruct (Math_equals mth (g_of mth s x) INF); [reflexivity|].
  destruct (_min_succ mth grid x (_cell mth x s)) as [next s2]. reflexivity.
Qed.

Lemma walk_touched (fuel : nat) (c : option cell) (s s' : Planner) (b : bool) :
  walk mth grid fuel c s = Some (b, s') -> touched mth s s'.
Proof.
  revert c s. induction fuel as [|fuel IH]; intros c s; [rewrite walk_O | rewrite walk_S];
    destruct (decide (c = Some (_goal s))); try discriminate;
    try (intros [= <- <-]; apply touched_refl).
  destruct c as [x|]; [|intros [= <- <-]; apply touched_refl].
  destruct (Math_equals mth (g_of mth s x) INF); [intros [= <- <-]; apply touched_cell|].
  pose proof (min_succ_touched x (_cell mth x s)) as Hm.
  cbv zeta. intros Hw. apply IH in Hw.
  eapply touched_trans; [apply touched_cell|].
  eapply touched_trans; [exact Hm|].
  eapply touched_trans; [apply touched_path | exact Hw].
Qed.

(** ** The walk depends on its view only *)
Lemma walk_view_cell (u : cell) (s t : Planner) :
  walk_view mth s t -> walk_view mth (_cell mth u s) (_cell mth u t).
Proof.
  unfold walk_view. intros (Hc & Hg & Hs & Hp). autorewrite with touch.
  repeat split; try assumption. intros v. autorewrite with touch. apply Hs.
Qed.

Lemma min_succ_step_cong (u : cell) (a : option cell * double) (s t : Planner)
      (nbr : option cell) :
  walk_view mth s t ->
  fst (min_succ_step mth grid u (a, s) nbr) = fst (min_succ_step mth grid u (a, t) nbr)
  /\ walk_view mth (snd (min_succ_step mth grid u (a, s) nbr))
                   (snd (min_succ_step mth grid u (a, t) nbr)).
Proof.
  intros Hv. destruct a as [mc mcost]. destruct nbr as [v|]; unfold min_succ_step;
    cbv beta iota zeta; [|split; [reflexivity|exact Hv]].
  rewrite !g_get. cbv beta iota zeta.
  pose proof Hv as (Hc & Hg & Hs & Hp).
  rewrite (cost_ext u v s t (Hc u) (Hc v)), (Hs v).
  pose proof (walk_view_cell v s t Hv) as Hv'.
  destruct (Math_equals mth (_cost mth grid u v t) INF || Math_equals mth (g_of mth t v) INF);
    [split; [reflexivity | exact Hv']|].
  destruct (Math_less mth _ mcost); split; try reflexivity; exact Hv'.
Qed.

Lemma min_succ_fold_cong (u : cell) (l : list (option cell))
      (a : option cell * double) (s t : Planner) :
  walk_view mth s t ->
  fst (fold_left (min_succ_step mth grid u) l (a, s))
  = fst (fold_left (min_succ_step mth grid u) l (a, t))
  /\ walk_view mth (snd (fold_left (min_succ_step mth grid u) l (a, s)))
                   (snd (fold_left (min_succ_step mth grid u) l (a, t))).
Proof.
  revert a s t. induction l as [|nbr l IH]; intros a s t Hv; cbn [fold_left];
    [split; [reflexivity | exact Hv]|].
  pose proof (min_succ_step_cong u a s t nbr Hv) as [Hf Hs].
  destruct (min_succ_step mth grid u (a, s) nbr) as [a1 s1].
  destruct (min_succ_step mth grid u (a, t) nbr) as [a2 t1].
  cbn [fst snd] in Hf, Hs. subst a2. apply IH. exact Hs.
Qed.

Lemma min_succ_cong (u : cell) (s t : Planner) :
  walk_view mth s t ->
  fst (_min_succ mth grid u s) = fst (_min_succ mth grid u t)
  /\ walk_view mth (snd (_min_succ mth grid u s)) (snd (_min_succ mth grid u t)).
Proof.
  intros Hv. rewrite !min_succ_eq. cbn [fst snd].
  destruct (min_succ_fold_cong u (cell_nbrs grid u) (None, INF) s t Hv) as [Hf Hs].
  rewrite Hf. split; [reflexivity | exact Hs].
Qed.

Lemma walk_cong (fuel : nat) (c : option cell) (s t : Planner) :
  walk_view mth s t ->
  match walk mth grid fuel c s, walk mth grid fuel c t with
  | Some (b, s'), Some (b', t') => b = b' /\ walk_view mth s' t'
  | None, None => True
  | _, _ => False
  end.
Proof.
  revert c s t. induction fuel as [|fuel IH]; intros c s t Hv;
    [rewrite !walk_O | rewrite !walk_S];
    pose proof Hv as (Hc & Hg & Hs & Hp); rewrite <- Hg;
    destruct (decide (c = Some (_goal s))); try (split; [reflexivity | exact Hv]);
    try exact I.
  destruct c as [x|]; [|split; [reflexivity | exact Hv]].
  rewrite (Hs x).
  pose proof (walk_view_cell x s t Hv) as Hv1.
  destruct (Math_equals mth (g_of mth t x) INF); [split; [reflexivity | exact Hv1]|].
  destruct (min_succ_cong x _ _ Hv1) as [Hf Hv2]. cbv zeta.
  rewrite <- Hf. apply IH.
  destruct Hv2 as (Hc2 & Hg2 & Hs2 & Hp2). unfold walk_view. simpl.
  rewrite Hp2. repeat split; assumption.
Qed.

(** ** [replan] *)
Lemma compute_loop_false (n : nat) (s s' : Planner) :
  compute_loop mth grid min_value n s = Returned false s' ->
  cond_of mth grid s' = true.
Proof.
  revert s. induction n as [|n IH]; intros s; simpl; rewrite loop_cond_eq;
    destruct (cond_of mth grid s) eqn:Ec; try discriminate.
  - intros [= <-]. rewrite cond_of_cell. exact Ec.
  - destruct (loop_body mth grid min_value (_cell mth (_start s) s)) as [s2|s2|s2];
      try discriminate. apply IH.
Qed.

Lemma compute_false (s s' : Planner) :
  _compute mth grid min_value s = Returned false s' ->
  _open_list s' = [] \/ cond_of mth grid s' = true.
Proof.
  unfold _compute. destruct (_open_list s) eqn:El.
  - intros [= <-]. left. exact El.
  - intros H. right. eapply compute_loop_false. exact H.
Qed.

Lemma replan_first (fuel : nat) (s s1 : Planner) (b : bool) :
  replan mth grid min_value fuel s = Some (Returned b s1) ->
  (exists sc, walk mth grid fuel (Some (_start sc)) (with_path [Some (_start sc)] sc)
              = Some (b, s1))
  \/ (b = false /\ _path s1 = []
      /\ (_open_list s1 = [] \/ cond_of mth grid s1 = true)).
Proof.
  unfold replan.
  pose proof (fixed_compute (with_path [] s)) as Hf.
  destruct (_compute mth grid min_value (with_path [] s)) as [[|] sc|sc] eqn:Ec;
    simpl in Hf.
  - apply fixed_path in Hf. simpl in Hf. rewrite Hf. simpl.
    destruct (walk mth grid fuel _ _) as [[b' s']|] eqn:Ew; [|discriminate].
    intros [= <- <-]. left. exists sc. exact Ew.
  - intros [= <- <-]. right. split; [reflexivity|].
    split; [apply fixed_path in Hf; exact Hf | eapply compute_false; exact Ec].
  - discriminate.
Qed.

Lemma replan_when_settled (fuel : nat) (s : Planner) :
  _open_list s <> [] -> cond_of mth grid s = false ->
  replan mth grid min_value fuel s
  = match walk mth grid fuel (Some (_start s))
            (with_path [Some (_start s)] (_cell mth (_start s) (with_path [] s))) with
    | Some (b, s') => Some (Returned b s')
    | None => None
    end.
Proof.
  intros Hne Hc. unfold replan, _compute.
  change (_open_list (with_path [] s)) with (_open_list s).
  destruct (_open_list s) as [|e l] eqn:El; [congruence|].
  rewrite compute_loop_exit by exact Hc.
  rewrite cell_path, cell_start. reflexivity.
Qed.

Lemma replan_when_empty (fuel : nat) (s : Planner) :
  _open_list s = [] ->
  replan mth grid min_value fuel s = Some (Returned false (with_path [] s)).
Proof.
  intros He. unfold replan, _compute.
  change (_open_list (with_path [] s)) with (_open_list s). rewrite He. reflexivity.
Qed.

(** A walk from the state that an earlier walk from [sc] left, or from a
    state with the same costs, goal and g, ends as the earlier one. *)
Lemma walk_again (fuel : nat) (sc s1 t : Planner) (b : bool) :
  walk mth grid fuel (Some (_start sc)) (with_path [Some (_start sc)] sc) = Some (b, s1) ->
  (forall v, cost t v = cost s1 v) -> _goal t = _goal s1 -> _start t = _start s1 ->
  (forall v, g_of mth t v = g_of mth s1 v) ->
  exists s2, walk mth grid fuel (Some (_start t)) (with_path [Some (_start t)] t)
             = Some (b, s2)
             /\ _path s2 = _path s1.
Proof.
  intros Hw Hc Hg Hst Hs.
  pose proof (walk_touched _ _ _ _ _ Hw) as (Tc & _ & Tst & Tg & _ & _ & _ & Ts).
  change (cost sc = cost s1) in Tc. change (_start sc = _start s1) in Tst.
  change (_goal sc = _goal s1) in Tg.
  assert (Hv : walk_view mth (with_path [Some (_start sc)] sc) (with_path [Some (_start t)] t)).
  { split; [|split; [|split]].
    - intros v. change (cost sc v = cost t v). rewrite Hc, Tc. reflexivity.
    - change (_goal sc = _goal t). congruence.
    - intros v. change (g_of mth sc v = g_of mth t v). rewrite Hs.
      unfold g_of. rewrite <- Ts. reflexivity.
    - change ([Some (_start sc)] = [Some (_start t)]). congruence. }
  pose proof (walk_cong fuel (Some (_start sc)) _ _ Hv) as Hcong.
  rewrite Hw in Hcong. replace (_start sc) with (_start t) in Hcong by congruence.
  destruct (walk mth grid fuel (Some (_start t)) _) as [[b' s2]|]; [|destruct Hcong].
  destruct Hcong as [<- (_ & _ & _ & Hp)]. exists s2. split; [reflexivity | congruence].
Qed.

(** C5, as amended.  After a call of [replan] that returned, a second call
    with no [update] and no change of start or goal in between returns the
    same boolean and leaves the same path, provided that the first call
    left the open list not empty and the condition of the loop of
    [_compute] false.  When the first call left the open list empty, the
    second returns false and leaves the empty path. *)
Theorem replan_twice (fuel : nat) (s s1 : Planner) (b : bool) :
  replan mth grid min_value fuel s = Some (Returned b s1) ->
  (_open_list s1 <> [] -> fst (loop_cond mth grid s1) = false ->
   exists s2, replan mth grid min_value fuel s1 = Some (Returned b s2)
              /\ path s2 = path s1)
  /\ (_open_list s1 = [] ->
      exists s2, replan mth grid min_value fuel s1 = Some (Returned false s2)
                 /\ path s2 = []).
Proof.
  intros H. split.
  - intros Hne Hc. rewrite loop_cond_eq in Hc. simpl in Hc.
    destruct (replan_first _ _ _ _ H) as [[sc Hw]|(-> & Hp & [He|Ht])];
      [|congruence|congruence].
    rewrite replan_when_settled by assumption.
    destruct (walk_again fuel sc s1 (_cell mth (_start s1) (with_path [] s1)) b Hw)
      as (s2 & Hw2 & Hp2).
    + intros v. rewrite cell_cost. reflexivity.
    + rewrite cell_goal. reflexivity.
    + rewrite cell_start. reflexivity.
    + intros v. rewrite g_of_cell. reflexivity.
    + rewrite cell_start in Hw2. simpl in Hw2. rewrite Hw2.
      exists s2. split; [reflexivity | exact Hp2].
  - intros He. rewrite replan_when_empty by exact He.
    eexists. split; reflexivity.
Qed.

(** ** [update] *)
Lemma stored_update (u v : cell) (s : Planner) :
  stored mth (_update mth grid u s) v = stored mth s v.
Proof.
  rewrite update_eq.
  destruct (negb (consistent mth s u)); destruct (bool_decide (u ∈ _open_hash s));
    rewrite ?stored_list_update; try apply stored_cell;
    unfold _list_insert, _list_remove;
    change (stored mth (_cell mth u s) v = stored mth s v); apply stored_cell.
Qed.

Lemma update_view (u : cell) (c : double) (s : Planner) :
  u <> _goal s ->
  let s' := update mth grid u c s in
  _start s' = _start s /\ _goal s' = _goal s
  /\ (forall v, stored mth s' v = stored mth s v)
  /\ (forall v, cost s' v = if decide (v = u) then c else cost s v).
Proof.
  intros Hne s'. unfold s', update.
  destruct (decide (u = _goal s)); [congruence|].
  match goal with |- context [_update mth grid u ?t] =>
    pose proof (fixed_update u t) as Hf; pose proof (fun v => stored_update u v t) as Hs;
    set (t0 := t) in *
  end.
  unfold fixed in Hf.
  assert (Hc : cost (_update mth grid u t0) = cost t0) by congruence.
  assert (Hst : _start (_update mth grid u t0) = _start t0) by congruence.
  assert (Hg : _goal (_update mth grid u t0) = _goal t0) by congruence.
  split; [rewrite Hst; unfold t0; simpl; rewrite cell_start; reflexivity|].
  split; [rewrite Hg; unfold t0; simpl; rewrite cell_goal; reflexivity|].
  split.
  - intros v. rewrite Hs. unfold t0.
    change (stored mth (_cell mth u (with_last (_start s)
              (with_km (_km s + _h mth grid (_last s) (_start s))%float s))) v
            = stored mth s v).
    rewrite stored_cell. reflexivity.
  - intros v. rewrite Hc. unfold t0. simpl. rewrite cell_cost. reflexivity.
Qed.

(** C9, as amended.  After a call of [replan] that returned true with the
    path P, let the cost of a cell [u] other than the goal be raised to
    [COST_UNWALKABLE] and lowered back by two calls of [update].  If the
    open list is then not empty and the condition of the loop of
    [_compute] is false, [replan] returns true and the path is P.  If the
    open list is then empty, [replan] returns false and the path is
    empty. *)
Theorem raise_and_restore (fuel : nat) (s s1 : Planner) (u : cell) :
  replan mth grid min_value fuel s = Some (Returned true s1) ->
  u <> _goal s1 ->
  let s2 := update mth grid u (cost s1 u)
              (update mth grid u (COST_UNWALKABLE grid) s1) in
  (_open_list s2 <> [] -> fst (loop_cond mth grid s2) = false ->
   exists s3, replan mth grid min_value fuel s2 = Some (Returned true s3)
              /\ path s3 = path s1)
  /\ (_open_list s2 = [] ->
      exists s3, replan mth grid min_value fuel s2 = Some (Returned false s3)
                 /\ path s3 = []).
Proof.
  intros H Hne s2.
  destruct (update_view u (COST_UNWALKABLE grid) s1 Hne) as (Hst1 & Hg1 & Hs1 & Hc1).
  assert (Hne' : u <> _goal (update mth grid u (COST_UNWALKABLE grid) s1)) by congruence.
  destruct (update_view u (cost s1 u) _ Hne') as (Hst2 & Hg2 & Hs2 & Hc2).
  fold s2 in Hst2, Hg2, Hs2, Hc2.
  split.
  - intros Hl Hc. rewrite loop_cond_eq in Hc. simpl in Hc.
    destruct (replan_first _ _ _ _ H) as [[sc Hw]|(Hb & _)]; [|discriminate].
    rewrite replan_when_settled by assumption.
    destruct (walk_again fuel sc s1 (_cell mth (_start s2) (with_path [] s2)) true Hw)
      as (s3 & Hw3 & Hp3).
    + intros v. rewrite cell_cost. change (cost s2 v = cost s1 v).
      rewrite Hc2, Hc1. destruct (decide (v = u)) as [->|]; reflexivity.
    + rewrite cell_goal. change (_goal s2 = _goal s1). congruence.
    + rewrite cell_start. change (_start s2 = _start s1). congruence.
    + intros v. rewrite g_of_cell. change (g_of mth s2 v = g_of mth s1 v).
      unfold g_of. rewrite Hs2, Hs1. reflexivity.
    + rewrite cell_start in Hw3. simpl in Hw3. rewrite Hw3.
      exists s3. split; [reflexivity | exact Hp3].
  - intros He. rewrite replan_when_empty by exact He.
    eexists. split; reflexivity.
Qed.

(** ** The invariant of the quiescent states *)
Lemma quiescent_ext (s t : Planner) :
  _goal s = _goal t -> _open_list s = _open_list t -> _open_hash s = _open_hash t ->
  (forall w, stored mth s w = stored mth t w) ->
  quiescent mth s -> quiescent mth t.
Proof.
  intros Hg Hl Hh Hs ([Hnd Hix] & Hr & Hse). split; [split|split].
  - unfold cells. rewrite <- Hl. exact Hnd.
  - intros u. unfold cells. rewrite <- Hl, <- Hh. apply Hix.
  - intros u. unfold reconciled. rewrite <- Hh, <- (consistent_ext s t u Hg (Hs u)). apply Hr.
  - intros u. apply (settled_ext s t u Hg (Hs u)), Hse.
Qed.

Lemma quiescent_but_ext (v : cell) (s t : Planner) :
  _goal s = _goal t -> _open_list s = _open_list t -> _open_hash s = _open_hash t ->
  (forall w, stored mth s w = stored mth t w) ->
  quiescent_but mth v s -> quiescent_but mth v t.
Proof.
  intros Hg Hl Hh Hs ([Hnd Hix] & Hr & Hse). split; [split|split].
  - unfold cells. rewrite <- Hl. exact Hnd.
  - intros u. unfold cells. rewrite <- Hl, <- Hh. apply Hix.
  - intros u Hu. unfold reconciled. rewrite <- Hh, <- (consistent_ext s t u Hg (Hs u)).
    apply Hr, Hu.
  - intros u. apply (settled_ext s t u Hg (Hs u)), Hse.
Qed.

Lemma quiescent_touched (s t : Planner) :
  touched mth s t -> quiescent mth s -> quiescent mth t.
Proof.
  intros (_ & _ & _ & Hg & _ & Hl & Hh & Hs). apply quiescent_ext; assumption.
Qed.

Lemma quiescent_weaken (v : cell) (s : Planner) :
  quiescent mth s -> quiescent_but mth v s.
Proof. intros (Hix & Hr & Hse). split; [exact Hix | split; [intros u _; apply Hr | exact Hse]]. Qed.

Lemma update_quiescent (v : cell) (s : Planner) :
  quiescent_but mth v s -> quiescent mth (_update mth grid v s).
Proof.
  intros (Hix & Hr & Hse).
  destruct (update_spec v s Hix) as (Hix' & Hf & Hs & Hrv & Hm).
  apply fixed_goal in Hf.
  split; [exact Hix' | split].
  - intros u. destruct (decide (u = v)) as [->|Hne]; [exact Hrv|].
    unfold reconciled. rewrite (Hm u Hne), (consistent_ext _ s u Hf (Hs u)). apply Hr, Hne.
  - intros u. apply (settled_ext s); [congruence | symmetry; apply Hs | apply Hse].
Qed.

Lemma update_keeps_quiescent (v : cell) (s : Planner) :
  quiescent mth s -> quiescent mth (_update mth grid v s).
Proof. intros H. apply update_quiescent, quiescent_weaken, H. Qed.

Lemma update_nbr_quiescent (s : Planner) (nbr : option cell) :
  quiescent mth s -> quiescent mth (update_nbr mth grid s nbr).
Proof. destruct nbr as [v|]; [apply update_keeps_quiescent | tauto]. Qed.

Lemma rhs_of_write (u : cell) (p : double * double) (s : Planner) :
  rhs_of mth (write u p s) u = if decide (u = _goal s) then 0%float else snd p.
Proof.
  unfold rhs_of. rewrite stored_write. change (_goal (write u p s)) with (_goal s).
  destruct (decide (u = u)); [reflexivity | congruence].
Qed.

Lemma g_of_write (u : cell) (p : double * double) (s : Planner) :
  g_of mth (write u p s) u = fst p.
Proof.
  unfold g_of. rewrite stored_write. destruct (decide (u = u)); [reflexivity | congruence].
Qed.

Lemma stored_write_ne (u w : cell) (p : double * double) (s : Planner) :
  w <> u -> stored mth (write u p s) w = stored mth s w.
Proof. intros H. rewrite stored_write. destruct (decide (u = w)); [congruence | reflexivity]. Qed.

(** Writing the pair of [v] keeps the invariant but for the membership of
    [v], when the new pair is settled. *)
Lemma write_quiescent_but (v : cell) (p : double * double) (s : Planner) :
  quiescent_but mth v s -> settled mth (write v p s) v ->
  quiescent_but mth v (write v p s).
Proof.
  intros (Hix & Hr & Hse) Hv. split; [exact Hix | split].
  - intros u Hu. unfold reconciled. change (_open_hash (write v p s)) with (_open_hash s).
    rewrite (consistent_ext (write v p s) s u eq_refl (stored_write_ne v u p s Hu)).
    apply Hr, Hu.
  - intros u. destruct (decide (u = v)) as [->|Hu]; [exact Hv|].
    apply (settled_ext s); [reflexivity | symmetry; apply stored_write_ne, Hu | apply Hse].
Qed.

Section Sane.

Hypothesis Hsane : MathSane mth.

Lemma rhs_of_snd (s : Planner) (v : cell) :
  v <> _goal s -> snd (stored mth s v) = rhs_of mth s v.
Proof. intros H. unfold rhs_of. destruct (decide (v = _goal s)); [congruence | reflexivity]. Qed.

Lemma relax_settled (v : cell) (y : double) (s : Planner) :
  v <> _goal s -> settled mth s v ->
  settled mth (set_rhs mth v (std_min (rhs_of mth s v) y) s) v.
Proof.
  intros Hne [Hfin Hsen]. unfold settled, set_rhs.
  rewrite g_of_write, rhs_of_write. destruct (decide (v = _goal s)); [congruence|].
  cbn [fst snd]. rewrite (rhs_of_snd s v Hne). fold (g_of mth s v).
  unfold put, std_min.
  destruct (y <? rhs_of mth s v)%float eqn:Ey.
  - destruct (y =? DBL_MIN)%float eqn:Ex; [split; assumption|].
    split; [|exact Ex]. destruct Hfin as [Hg|Hr]; [left; exact Hg|].
    right. eapply below_finite; eassumption.
  - rewrite Hsen. split; assumption.
Qed.

Lemma relax_step_quiescent (u : cell) (s : Planner) (nbr : option cell) :
  quiescent mth s -> quiescent mth (relax_step mth grid u s nbr).
Proof.
  intros Hq. destruct nbr as [v|]; [|exact Hq].
  rewrite relax_step_eq. apply update_quiescent.
  destruct (decide (v = _goal s)) as [|Hne]; [apply quiescent_weaken, Hq|].
  set (s' := _cell mth u (_cell mth v s)).
  assert (Hq' : quiescent mth s').
  { eapply quiescent_touched; [|exact Hq].
    eapply touched_trans; apply touched_cell. }
  replace (rhs_of mth s v) with (rhs_of mth s' v)
    by (unfold s'; autorewrite with touch; reflexivity).
  assert (Hne' : v <> _goal s') by (unfold s'; autorewrite with touch; exact Hne).
  apply write_quiescent_but; [apply quiescent_weaken, Hq'|].
  apply relax_settled; [exact Hne' | apply Hq'].
Qed.

Lemma top_on_list (s : Planner) (k : key) (u : cell) (l : OL) :
  indexed s -> _open_list s = (k, u) :: l -> u ∈ _open_hash s.
Proof.
  intros [_ Hix] Hl. apply Hix. unfold cells. rewrite Hl. simpl. apply list_elem_of_here.
Qed.

Lemma list_update_quiescent (u : cell) (k : key) (s : Planner) :
  quiescent mth s -> u ∈ _open_hash s -> quiescent mth (_list_update mth u k s).
Proof.
  intros (Hix & Hr & Hse) Hu.
  pose proof (fixed_goal _ _ (fixed_list_update u k s)) as Hg.
  split; [apply indexed_update; assumption | split].
  - intros w. unfold reconciled. rewrite hash_update.
    rewrite (consistent_ext _ s w Hg (stored_list_update u k s w)).
    rewrite elem_of_union, elem_of_singleton. specialize (Hr w). unfold reconciled in Hr.
    split; [intros [->|H]; [apply (Hr), Hu | apply Hr, H] | intros H; right; apply Hr, H].
  - intros w. apply (settled_ext s); [congruence | symmetry; apply stored_list_update | apply Hse].
Qed.

Lemma commit_quiescent (u : cell) (s : Planner) :
  quiescent mth s -> u ∈ _open_hash s ->
  Math_greater mth (g_of mth s u) (rhs_of mth s u) = true ->
  quiescent mth (_list_remove u (set_g mth u (rhs_of mth s u) s)).
Proof.
  intros (Hix & Hr & Hse) Hu Hgt.
  destruct (Hse u) as [Hfin Hsen].
  assert (Hput : put (rhs_of mth s u) (g_of mth s u) = rhs_of mth s u)
    by (unfold put; rewrite Hsen; reflexivity).
  unfold set_g. rewrite Hput.
  set (p := (rhs_of mth s u, snd (stored mth s u))).
  assert (Hrhs : rhs_of mth (write u p s) u = rhs_of mth s u).
  { rewrite rhs_of_write. unfold rhs_of, p. destruct (decide (u = _goal s)); reflexivity. }
  assert (Hg : g_of mth (write u p s) u = rhs_of mth s u) by apply g_of_write.
  split; [apply indexed_remove; assumption | split].
  - intros w. unfold reconciled.
    change (w ∈ _open_hash s ∖ {[u]} <-> consistent mth (write u p s) w = false).
    rewrite elem_of_difference, elem_of_singleton.
    destruct (decide (w = u)) as [->|Hw].
    + unfold consistent. rewrite Hg, Hrhs, (greater_refl mth Hsane _ _ Hgt).
      split; [tauto | discriminate].
    + rewrite (consistent_ext (write u p s) s w eq_refl (stored_write_ne u w p s Hw)).
      specialize (Hr w). unfold reconciled in Hr. tauto.
  - intros w. change (settled mth (write u p s) w).
    destruct (decide (w = u)) as [->|Hw].
    + unfold settled. rewrite Hg, Hrhs. split; [|exact Hsen].
      destruct Hfin as [Hinf|Hne]; [|right; exact Hne].
      right. apply (greater_differs mth Hsane). rewrite <- Hinf. exact Hgt.
    + apply (settled_ext s); [reflexivity | symmetry; apply stored_write_ne, Hw | apply Hse].
Qed.

Lemma retract_quiescent (u : cell) (s : Planner) :
  quiescent mth s -> u ∈ _open_hash s ->
  quiescent mth (set_g mth u INF s) /\ g_of mth (set_g mth u INF s) u = INF.
Proof.
  intros (Hix & Hr & Hse) Hu.
  destruct (Hse u) as [Hfin Hsen].
  assert (Hput : put INF (g_of mth s u) = INF)
    by (unfold put; rewrite (inf_not_sentinel mth Hsane); reflexivity).
  unfold set_g. rewrite Hput.
  set (p := (INF, snd (stored mth s u))).
  assert (Hrhs : rhs_of mth (write u p s) u = rhs_of mth s u).
  { rewrite rhs_of_write. unfold rhs_of, p. destruct (decide (u = _goal s)); reflexivity. }
  assert (Hg : g_of mth (write u p s) u = INF) by apply g_of_write.
  split; [|exact Hg].
  split; [exact Hix | split].
  - intros w. unfold reconciled. change (_open_hash (write u p s)) with (_open_hash s).
    destruct (decide (w = u)) as [->|Hw].
    + unfold consistent. rewrite Hg, Hrhs. split; [intros _ | intros _; exact Hu].
      destruct Hfin as [Hinf|Hne]; [|exact Hne].
      rewrite <- Hinf. apply (Hr u), Hu.
    + rewrite (consistent_ext (write u p s) s w eq_refl (stored_write_ne u w p s Hw)).
      apply Hr.
  - intros w. destruct (decide (w = u)) as [->|Hw].
    + unfold settled. rewrite Hg, Hrhs. split; [left; reflexivity | exact Hsen].
    + apply (settled_ext s); [reflexivity | symmetry; apply stored_write_ne, Hw | apply Hse].
Qed.

Lemma loop_body_quiescent (s : Planner) :
  quiescent mth s -> quiescent mth (round_state (loop_body mth grid min_value s)).
Proof.
  intros Hq. rewrite loop_body_eq.
  destruct (_open_list s) as [|[k_old u] l] eqn:El; [exact Hq|].
  assert (Hu : u ∈ _open_hash s) by (eapply top_on_list; [apply Hq | exact El]).
  assert (Hq1 : quiescent mth (_cell mth u s))
    by (eapply quiescent_touched; [apply touched_cell | exact Hq]).
  assert (Hu1 : u ∈ _open_hash (_cell mth u s)) by (rewrite cell_open_hash; exact Hu).
  cbv zeta.
  destruct (KeyCompare mth k_old (key_of mth grid s u)); cbn [round_state].
  { apply list_update_quiescent; assumption. }
  destruct (Math_greater mth (g_of mth s u) (rhs_of mth s u)) eqn:Egt; cbn [round_state].
  { apply (fold_left_keeps _ (quiescent mth)).
    - intros a b. apply relax_step_quiescent.
    - rewrite <- (rhs_of_cell u u s). apply commit_quiescent; try assumption.
      autorewrite with touch. exact Egt. }
  destruct (retract_quiescent u _ Hq1 Hu1) as [Hq5 Hg5].
  destruct (decide (u = _goal s)); cbn [round_state].
  { apply (fold_left_keeps _ (quiescent mth)).
    - intros a b. apply update_nbr_quiescent.
    - apply update_keeps_quiescent, Hq5. }
  rewrite Hg5, (inf_refl mth Hsane). cbn [round_state].
  eapply quiescent_touched; [apply touched_cell | exact Hq5].
Qed.

Lemma compute_loop_quiescent (n : nat) (s : Planner) :
  quiescent mth s ->
  quiescent mth (outcome_state (compute_loop mth grid min_value n s)).
Proof.
  revert s. induction n as [|n IH]; intros s Hq; simpl; rewrite loop_cond_eq;
    assert (Hq1 : quiescent mth (_cell mth (_start s) s))
      by (eapply quiescent_touched; [apply touched_cell | exact Hq]);
    destruct (cond_of mth grid s); try exact Hq1.
  pose proof (loop_body_quiescent _ Hq1) as Hb.
  destruct (loop_body mth grid min_value (_cell mth (_start s) s)) as [s2|s2|s2];
    cbn [round_state] in Hb; [apply IH, Hb | exact Hb | exact Hb].
Qed.

Lemma replan_quiescent (fuel : nat) (s s' : Planner) (b : bool) :
  quiescent mth s ->
  replan mth grid min_value fuel s = Some (Returned b s') ->
  quiescent mth s'.
Proof.
  intros Hq. unfold replan.
  assert (Hq0 : quiescent mth (with_path [] s))
    by (eapply quiescent_touched; [apply touched_path | exact Hq]).
  assert (Hc : quiescent mth (outcome_state (_compute mth grid min_value (with_path [] s)))).
  { unfold _compute. destruct (_open_list (with_path [] s)); [exact Hq0|].
    apply compute_loop_quiescent, Hq0. }
  destruct (_compute mth grid min_value (with_path [] s)) as [[|] sc|sc];
    cbn [outcome_state] in Hc; [|intros [= <- <-]; exact Hc | discriminate].
  destruct (walk mth grid fuel _ _) as [[b' s2]|] eqn:Ew; [|discriminate].
  intros [= <- <-]. apply walk_touched in Ew.
  eapply quiescent_touched; [exact Ew|].
  eapply quiescent_touched; [apply touched_path | exact Hc].
Qed.

Lemma update_public_quiescent (u : cell) (c : double) (s : Planner) :
  quiescent mth s -> quiescent mth (update mth grid u c s).
Proof.
  intros Hq. unfold update. destruct (decide (u = _goal s)); [exact Hq|].
  apply update_keeps_quiescent.
  eapply quiescent_ext; [| | | |exact Hq]; simpl; autorewrite with touch; try reflexivity.
  intros w.
  change (stored mth s w = stored mth (_cell mth u (with_last (_start s)
            (with_km (_km s + _h mth grid (_last s) (_start s))%float s))) w).
  rewrite stored_cell. reflexivity.
Qed.

Lemma new_quiescent (cost0 : cell -> double) (start goal : cell) :
  quiescent mth (new_Planner mth grid cost0 start goal).
Proof.
  unfold new_Planner. rewrite rhs_any. cbn [_goal].
  destruct (decide (goal = goal)); [|congruence]. cbv beta iota zeta.
  rewrite k_eq. cbv beta iota zeta.
  set (s0 := mkPlanner cost0 0%float start goal start ∅ [] ∅ []).
  assert (Hst : forall w, stored mth (_cell mth goal s0) w = (INF, INF)).
  { intros w. rewrite stored_cell. unfold stored, s0. simpl. rewrite lookup_empty. reflexivity. }
  assert (Hg : forall w, g_of mth (_list_insert mth goal (key_of mth grid s0 goal) (_cell mth goal s0)) w = INF).
  { intros w. unfold g_of.
    change (fst (stored mth (_cell mth goal s0) w) = INF). rewrite Hst. reflexivity. }
  assert (Hr : forall w, rhs_of mth (_list_insert mth goal (key_of mth grid s0 goal) (_cell mth goal s0)) w
                         = if decide (w = goal) then 0%float else INF).
  { intros w. unfold rhs_of.
    change (_goal (_list_insert mth goal (key_of mth grid s0 goal) (_cell mth goal s0)))
      with (_goal (_cell mth goal s0)).
    rewrite cell_goal.
    change (stored mth (_list_insert mth goal (key_of mth grid s0 goal) (_cell mth goal s0)) w)
      with (stored mth (_cell mth goal s0) w).
    rewrite Hst. reflexivity. }
  assert (Hh : _open_hash (_list_insert mth goal (key_of mth grid s0 goal) (_cell mth goal s0))
               = {[goal]}).
  { unfold _list_insert. simpl. rewrite cell_open_hash. simpl. apply union_empty_r_L. }
  assert (Hc : cells (_list_insert mth goal (key_of mth grid s0 goal) (_cell mth goal s0))
               = [goal]).
  { unfold cells, _list_insert. simpl. rewrite cell_open_list. reflexivity. }
  split; [split|split].
  - rewrite Hc. apply NoDup_singleton.
  - intros w. rewrite Hc, Hh, elem_of_singleton, list_elem_of_singleton. reflexivity.
  - intros w. unfold reconciled, consistent. rewrite Hh, Hg, Hr, elem_of_singleton.
    destruct (decide (w = goal)) as [->|Hw].
    + rewrite (inf_not_zero mth Hsane). tauto.
    + rewrite (inf_refl mth Hsane). split; [congruence | discriminate].
  - intros w. unfold settled. rewrite Hg, Hr. split; [left; reflexivity|].
    destruct (decide (w = goal)); [reflexivity | apply (inf_not_sentinel mth Hsane)].
Qed.

Lemma quiescent_correspondence (s : Planner) :
  quiescent mth s -> correspondence mth s.
Proof.
  intros ([_ Hix] & Hr & _). split.
  - intros u Hu. apply Hr, Hix, Hu.
  - intros u _ Hu. destruct (consistent mth s u) eqn:E; [reflexivity|].
    exfalso. apply Hu, Hix, Hr, E.
Qed.

(** C6, as amended.  In every state that the constructor, [update],
    [replan], [start], [path] and [goal] without an argument can reach, so
    with the goal never set anew, every cell of the open list is locally
    inconsistent under the tolerant equality and every cell of the store
    that is not on the open list is locally consistent.  The class [Math]
    is assumed to satisfy [MathSane]. *)
Theorem open_list_correspondence (s : Planner) :
  reachable mth grid min_value s -> correspondence mth s.
Proof.
  intros H. apply quiescent_correspondence.
  induction H as [cost0 st gl|s u c _ IH|s s' fuel b _ IH Hrp|s u _ IH|s _ IH].
  - apply new_quiescent.
  - apply update_public_quiescent, IH.
  - eapply replan_quiescent; eassumption.
  - destruct u as [v|]; [|exact IH].
    eapply quiescent_ext; [| | | |exact IH]; reflexivity.
  - exact IH.
Qed.

End Sane.

End Facts.

(** The numeric predicates of the specification satisfy what was assumed
    of the class [Math]. *)
Lemma spec_math_sane : MathSane spec_math.
Proof.
  split.
  - reflexivity.
  - reflexivity.
  - reflexivity.
  - intros a b. simpl. unfold spec_greater.
    destruct (spec_equals a b); [discriminate | reflexivity].
  - intros a b. simpl. unfold spec_greater, spec_equals at 2.
    intros H. apply andb_true_iff in H as [_ H].
    rewrite (ltb_not_nan b a H). reflexivity.
  - intros a b. simpl. apply below_not_infinity.
Qed.

(** ** The claims on the scenarios *)

(** C2 as stated fails: after the first [replan] of scenario 1 the open
    list is empty, and [_compute] returns false. *)
Lemma compute_on_drained_queue :
  _open_list scenario1_planned = []
  /\ _compute spec_math row5 min_arg scenario1_planned
     = Returned false scenario1_planned.
Proof. split; vm_compute; reflexivity. Qed.

Lemma compute_exits_witness :
  _compute spec_math board5 min_arg scenario3_planned
  = Returned true (_cell spec_math (_start scenario3_planned) scenario3_planned).
Proof.
  eapply (proj2 (proj2 (compute_exits spec_math board5 min_arg scenario3_planned)));
    vm_compute; reflexivity.
Defined.

Lemma constructed_state_witness :
  Math_less spec_math (Math_INFINITY spec_math) 0%float = false
  /\ (0 <=? Math_SQRT2 spec_math - 1)%float = true
  /\ _open_list scenario1 = [((4%float, 0%float), at_xy 5 4 0)].
Proof.
  assert (H1 : Math_less spec_math (Math_INFINITY spec_math) 0%float = false)
    by (vm_compute; reflexivity).
  assert (H2 : (0 <=? Math_SQRT2 spec_math - 1)%float = true)
    by (vm_compute; reflexivity).
  split; [exact H1 | split; [exact H2 |]].
  exact (proj1 (proj2 (proj2 (proj2 (proj2 (proj2 (proj2 (proj2
    (constructed_state spec_math row5 unit_cost (at_xy 5 0 0) (at_xy 5 4 0)
       H1 H2))))))))).
Defined.

(** C10 as stated fails for [_rhs] at the goal: after the goal of
    scenario 1 is set to (0,0), a cell the store does not hold, [_rhs] with
    [DBL_MIN] leaves it absent. *)
Lemma rhs_of_goal_not_materialised :
  let s := snd (goal (Some (at_xy 5 0 0)) scenario1) in
  _cell_hash s !! _goal s = None
  /\ _cell_hash (snd (_rhs spec_math (_goal s) DBL_MIN s)) !! _goal s = None.
Proof. split; vm_compute; reflexivity. Qed.

Lemma sentinel_reads_witness :
  let s := scenario1 in
  let u := at_xy 5 0 0 in
  u <> _goal s
  /\ _cell_hash s !! u = None
  /\ _cell_hash (snd (_rhs spec_math u DBL_MIN s)) !! u
     = Some (infinity, infinity).
Proof.
  intros s u.
  assert (Hu : u <> _goal s) by (vm_compute; discriminate).
  assert (Hn : _cell_hash s !! u = None) by (vm_compute; reflexivity).
  split; [exact Hu | split; [exact Hn|]].
  exact (proj2 (proj2 (proj2 (proj2 (proj2 (proj2 (proj2
    (sentinel_reads spec_math s u))))))) Hu Hn).
Defined.

(** C1.  In [retarget3] the cell (0,0) is on top of the open list with a
    fresh key, is not the goal, and has g = 0 and rhs = infinity.  The
    round of the loop sets its g to infinity and leaves at the [break] of
    line 242: rhs stays infinity, where the minimum over the neighbours of
    cost plus g is 2, through (1,0). *)
Theorem case_c_leaves_rhs :
  let s := snd (loop_cond spec_math row3 retarget3) in
  let u := at_xy 3 0 0 in
  (exists k l, _open_list s = (k, u) :: l
               /\ KeyCompare spec_math k (fst (_k spec_math row3 u s)) = false)
  /\ u <> _goal s
  /\ g_of spec_math s u = 0%float
  /\ rhs_of spec_math s u = infinity
  /\ Math_greater spec_math (g_of spec_math s u) (rhs_of spec_math s u) = false
  /\ exists s', loop_body spec_math row3 min_arg s = Break s'
                /\ g_of spec_math s' u = infinity
                /\ rhs_of spec_math s' u = infinity
                /\ spec_rhs spec_math row3 s' u = 2%float.
Proof.
  split; [|split; [|split; [|split; [|split]]]].
  - eexists; eexists; split; vm_compute; reflexivity.
  - vm_compute; discriminate.
  - vm_compute; reflexivity.
  - vm_compute; reflexivity.
  - vm_compute; reflexivity.
  - eexists; split; [vm_compute; reflexivity|].
    split; [|split]; vm_compute; reflexivity.
Qed.

(** C3.  In scenario 4 [replan] returns false and the path holds the
    start cell; with the three neighbours of the start of scenario 3
    unwalkable it returns false and the path holds the start cell and a
    NULL entry. *)
Theorem failed_replan_keeps_path :
  let r4 := replan spec_math board3 min_arg 10 scenario4 in
  let r3 := replan spec_math board5 min_arg 10 scenario3_boxed in
  returned r4 = Some false
  /\ path (state_after r4 scenario4) = [Some (at_xy 3 0 0)]
  /\ returned r3 = Some false
  /\ path (state_after r3 scenario3_boxed) = [Some (at_xy 5 0 0); None].
Proof. repeat split; vm_compute; reflexivity. Qed.

(** C4.  In [retarget4] the loop of [_compute] drains the open list while
    rhs and g of the start differ; the next round reads [begin()] of the
    empty list. *)
Theorem front_of_empty_list :
  exists s, replan spec_math row4 min_arg 10 retarget4 = Some (Undefined s)
            /\ _open_list s = []
            /\ consistent spec_math s (_start s) = false.
Proof. eexists; split; [|split]; vm_compute; reflexivity. Qed.

(** C5 as stated fails: the first [replan] of scenario 1 returns true with
    the path along the row, the second returns false with the empty path. *)
Lemma second_replan_differs :
  let r1 := replan spec_math row5 min_arg 10 scenario1 in
  let r2 := replan spec_math row5 min_arg 10 (state_after r1 scenario1) in
  returned r1 = Some true
  /\ path (state_after r1 scenario1)
     = [Some 1; Some 2; Some 3; Some 4; Some 5]%positive
  /\ returned r2 = Some false
  /\ path (state_after r2 scenario1) = [].
Proof. repeat split; vm_compute; reflexivity. Qed.

(** C9 as stated fails: after the first [replan] of scenario 1, raising
    (2,0) to unwalkable and lowering it back makes [replan] return false
    with the empty path. *)
Lemma raise_and_restore_differs :
  let u := at_xy 5 2 0 in
  let s := update spec_math row5 u (cost scenario1_planned u)
             (update spec_math row5 u (COST_UNWALKABLE row5) scenario1_planned) in
  let r := replan spec_math row5 min_arg 10 s in
  returned (replan spec_math row5 min_arg 10 scenario1) = Some true
  /\ u <> _goal scenario1_planned
  /\ path scenario1_planned = [Some 1; Some 2; Some 3; Some 4; Some 5]%positive
  /\ returned r = Some false
  /\ path (state_after r s) = [].
Proof.
  repeat split; try (vm_compute; reflexivity). vm_compute; discriminate.
Qed.

(** C6 as stated fails for the public operation that sets the goal: after
    the goal of scenario 1 is set to (0,0), the old goal (4,0) is on the
    open list with g and rhs both infinity. *)
Lemma goal_change_breaks_correspondence :
  let s := snd (goal (Some (at_xy 5 0 0)) scenario1) in
  cells s = [at_xy 5 4 0]
  /\ consistent spec_math s (at_xy 5 4 0) = true.
Proof. split; vm_compute; reflexivity. Qed.

Lemma replan_twice_witness :
  replan spec_math board5 min_arg 10 scenario3
  = Some (Returned true scenario3_planned)
  /\ _open_list scenario3_planned <> []
  /\ fst (loop_cond spec_math board5 scenario3_planned) = false
  /\ exists s2,
       replan spec_math board5 min_arg 10 scenario3_planned
       = Some (Returned true s2)
       /\ path s2 = path scenario3_planned.
Proof.
  assert (H : replan spec_math board5 min_arg 10 scenario3
              = Some (Returned true scenario3_planned))
    by (vm_compute; reflexivity).
  assert (Hl : _open_list scenario3_planned <> [])
    by (vm_compute; discriminate).
  assert (Hc : fst (loop_cond spec_math board5 scenario3_planned) = false)
    by (vm_compute; reflexivity).
  split; [exact H | split; [exact Hl | split; [exact Hc|]]].
  exact (proj1 (replan_twice spec_math board5 min_arg 10 scenario3
                  scenario3_planned true H) Hl Hc).
Defined.

Lemma raise_and_restore_witness :
  let u := at_xy 5 2 2 in
  let s2 := update spec_math board5 u (cost scenario3_planned u)
              (update spec_math board5 u (COST_UNWALKABLE board5)
                 scenario3_planned) in
  replan spec_math board5 min_arg 10 scenario3
  = Some (Returned true scenario3_planned)
  /\ u <> _goal scenario3_planned
  /\ _open_list s2 <> []
  /\ fst (loop_cond spec_math board5 s2) = false
  /\ exists s3,
       replan spec_math board5 min_arg 10 s2 = Some (Returned true s3)
       /\ path s3 = path scenario3_planned.
Proof.
  intros u s2.
  assert (H : replan spec_math board5 min_arg 10 scenario3
              = Some (Returned true scenario3_planned))
    by (vm_compute; reflexivity).
  assert (Hu : u <> _goal scenario3_planned) by (vm_compute; discriminate).
  assert (Hl : _open_list s2 <> []) by (vm_compute; discriminate).
  assert (Hc : fst (loop_cond spec_math board5 s2) = false)
    by (vm_compute; reflexivity).
  split; [exact H | split; [exact Hu | split; [exact Hl | split; [exact Hc|]]]].
  exact (proj1 (raise_and_restore spec_math board5 min_arg 10 scenario3
                  scenario3_planned u H Hu) Hl Hc).
Defined.

Lemma open_list_correspondence_witness :
  MathSane spec_math
  /\ reachable spec_math board5 min_arg scenario3_planned
  /\ correspondence spec_math scenario3_planned.
Proof.
  assert (Hr : reachable spec_math board5 min_arg scenario3_planned).
  { apply (reach_replan spec_math board5 min_arg scenario3 scenario3_planned 10 true).
    - apply reach_new.
    - vm_compute; reflexivity. }
  split; [exact spec_math_sane | split; [exact Hr|]].
  exact (open_list_correspondence spec_math board5 min_arg spec_math_sane
           scenario3_planned Hr).
Defined.

(** * The member functions one by one *)

(** ** More IEEE facts *)

Lemma round_aux_abs (s s' : bool) (m e : Z) (l : location) :
  SFabs (binary_round_aux prec emax s m e l) = SFabs (binary_round_aux prec emax s' m e l).
Proof.
  unfold binary_round_aux.
  destruct (shr_fexp prec emax m e l) as [mrs' e'].
  destruct (shr_fexp prec emax _ e' loc_Exact) as [mrs'' e''].
  destruct (shr_m mrs'') as [|p|p]; try reflexivity.
  destruct (e'' <=? emax - prec)%Z; reflexivity.
Qed.

Lemma round_abs (s s' : bool) (m : positive) (e : Z) :
  SFabs (binary_round prec emax s m e) = SFabs (binary_round prec emax s' m e).
Proof.
  unfold binary_round. destruct (shl_align _ _ _) as [mz ez].
  apply round_aux_abs.
Qed.

Lemma normalize_opp_abs (m e : Z) :
  SFabs (binary_normalize prec emax (- m) e false)
  = SFabs (binary_normalize prec emax m e false).
Proof.
  destruct m as [|p|p]; simpl; [reflexivity | apply round_abs | apply round_abs].
Qed.

Lemma sub_abs_sym (x y : spec_float) :
  SFabs (SF64sub x y) = SFabs (SF64sub y x).
Proof.
  unfold SF64sub.
  destruct x as [sx|sx| |sx mx ex]; destruct y as [sy|sy| |sy my ey];
    try reflexivity; try (destruct sx, sy; reflexivity).
  unfold SFsub. rewrite (Z.min_comm ey ex).
  rewrite <- normalize_opp_abs. f_equal. f_equal. lia.
Qed.

Lemma compare_eq_sym (x y : spec_float) :
  SFcompare x y = Some Eq -> SFcompare y x = Some Eq.
Proof.
  destruct x as [sx|sx| |sx mx ex]; destruct y as [sy|sy| |sy my ey]; simpl;
    try discriminate; try reflexivity;
    try (destruct sx; discriminate); try (destruct sy; discriminate);
    try (destruct sx, sy; (discriminate || reflexivity)).
  destruct sx, sy; try discriminate;
    rewrite (Z.compare_antisym ex ey); destruct (ex ?= ey)%Z; simpl; try discriminate;
    change (Pos.compare_cont Eq mx my) with (Pos.compare mx my);
    change (Pos.compare_cont Eq my mx) with (Pos.compare my mx);
    rewrite (Pos.compare_antisym mx my); destruct (Pos.compare mx my); simpl; try discriminate; reflexivity.
Qed.

Lemma eqb_sym (a b : float) : (a =? b)%float = (b =? a)%float.
Proof.
  rewrite !FloatAxioms.eqb_spec. unfold SFeqb.
  destruct (SFcompare (Prim2SF a) (Prim2SF b)) as [[| |]|] eqn:E1.
  - rewrite (compare_eq_sym _ _ E1). reflexivity.
  - destruct (SFcompare (Prim2SF b) (Prim2SF a)) as [[| |]|] eqn:E2; try reflexivity.
    apply compare_eq_sym in E2. congruence.
  - destruct (SFcompare (Prim2SF b) (Prim2SF a)) as [[| |]|] eqn:E2; try reflexivity.
    apply compare_eq_sym in E2. congruence.
  - destruct (SFcompare (Prim2SF b) (Prim2SF a)) as [[| |]|] eqn:E2; try reflexivity.
    apply compare_eq_sym in E2. congruence.
Qed.

Lemma spec_equals_sym (a b : float) : spec_equals a b = spec_equals b a.
Proof.
  unfold spec_equals. rewrite (eqb_sym a b). f_equal.
  rewrite !FloatAxioms.ltb_spec, !FloatAxioms.abs_spec, !FloatAxioms.sub_spec.
  rewrite sub_abs_sym. reflexivity.
Qed.

Lemma add_comm_sf (x y : spec_float) : SF64add x y = SF64add y x.
Proof.
  unfold SF64add.
  destruct x as [sx|sx| |sx mx ex]; destruct y as [sy|sy| |sy my ey];
    try reflexivity; try (destruct sx, sy; reflexivity).
  unfold SFadd. rewrite (Z.min_comm ey ex). f_equal. lia.
Qed.

Lemma float_add_comm (a b : float) : (a + b = b + a)%float.
Proof.
  apply Prim2SF_inj. rewrite !FloatAxioms.add_spec. apply add_comm_sf.
Qed.

Lemma compare_lt_flip (x y : spec_float) :
  SFcompare x y = Some Lt -> SFcompare y x = Some Gt.
Proof.
  destruct x as [sx|sx| |sx mx ex]; destruct y as [sy|sy| |sy my ey]; simpl;
    try discriminate; try reflexivity;
    try (destruct sx; (discriminate || reflexivity));
    try (destruct sy; (discriminate || reflexivity));
    try (destruct sx, sy; (discriminate || reflexivity)).
  destruct sx, sy; try discriminate; try reflexivity;
    rewrite (Z.compare_antisym ex ey); destruct (ex ?= ey)%Z; simpl;
    try discriminate; try reflexivity;
    change (Pos.compare_cont Eq mx my) with (Pos.compare mx my);
    change (Pos.compare_cont Eq my mx) with (Pos.compare my mx);
    rewrite (Pos.compare_antisym mx my); destruct (Pos.compare mx my); simpl;
    try discriminate; reflexivity.
Qed.

Lemma ltb_asym (a b : float) : (a <? b)%float = true -> (b <? a)%float = false.
Proof.
  rewrite !FloatAxioms.ltb_spec. unfold SFltb.
  destruct (SFcompare (Prim2SF a) (Prim2SF b)) as [[| |]|] eqn:E; try discriminate.
  rewrite (compare_lt_flip _ _ E). reflexivity.
Qed.

Lemma spec_less_asym (a b : double) :
  spec_less a b = true -> spec_less b a = false.
Proof.
  unfold spec_less. intros H. apply andb_true_iff in H as [_ H].
  rewrite (ltb_asym _ _ H). apply andb_false_r.
Qed.

Lemma spec_less_flip (a b : double) :
  spec_less a b = true -> spec_greater b a = true.
Proof.
  unfold spec_less, spec_greater. rewrite (spec_equals_sym b a). tauto.
Qed.

Lemma ltb_irrefl (a : float) : (a <? a)%float = false.
Proof.
  destruct (a <? a)%float eqn:E; [|reflexivity].
  pose proof (ltb_asym a a E) as H. congruence.
Qed.

Section Values.

Variable mth : Math.
Variable grid : Map.
Variable min_value : double.

Abbreviation INF := (Math_INFINITY mth).

(** ** The accessors *)

Lemma put_value (x old : double) : (x =? DBL_MIN)%float = false -> put x old = x.
Proof. intros H. unfold put. rewrite H. reflexivity. Qed.

Lemma write_hash_ne (u v : cell) (p : double * double) (s : Planner) :
  v <> u -> _cell_hash (write u p s) !! v = _cell_hash s !! v.
Proof. intros H. unfold write. simpl. apply lookup_insert_ne. congruence. Qed.

(** X1.  [_g(u, x)] with a value other than [DBL_MIN] returns [x];
    afterwards [_g(u)] reads [x], the g of every other cell and the rhs of
    every cell read as before, the store is changed at [u] only, and the
    open list, its index and the other members are untouched. *)
Theorem g_written_is_read (u : cell) (x : double) (s : Planner) :
  (x =? DBL_MIN)%float = false ->
  let s' := snd (_g mth u x s) in
  fst (_g mth u x s) = x
  /\ fst (_g mth u DBL_MIN s') = x
  /\ (forall v, v <> u -> fst (_g mth v DBL_MIN s') = fst (_g mth v DBL_MIN s))
  /\ (forall v, fst (_rhs mth v DBL_MIN s') = fst (_rhs mth v DBL_MIN s))
  /\ (forall v, v <> u -> _cell_hash s' !! v = _cell_hash s !! v)
  /\ fixed s' = fixed s /\ _open_list s' = _open_list s
  /\ _open_hash s' = _open_hash s.
Proof.
  intros Hx s'. unfold s'. rewrite g_any. cbn [fst snd].
  rewrite (put_value _ _ Hx).
  split; [reflexivity|]. split; [rewrite g_get; cbn [fst]; apply g_of_write|].
  split.
  { intros v Hv. rewrite !g_get. cbn [fst]. unfold g_of.
    rewrite stored_write_ne by exact Hv. reflexivity. }
  split.
  { intros v. rewrite !rhs_get. cbn [fst].
    destruct (decide (v = u)) as [->|Hv].
    - rewrite rhs_of_write. unfold rhs_of. reflexivity.
    - apply rhs_of_ext; [reflexivity | apply stored_write_ne, Hv]. }
  split; [intros v Hv; apply write_hash_ne, Hv|].
  repeat split.
Qed.

(** X2.  [_rhs(u, x)] for a cell other than the goal and a value other
    than [DBL_MIN] returns [x]; afterwards [_rhs(u)] reads [x], the rhs of
    every other cell and the g of every cell read as before, the store is
    changed at [u] only, and the open list, its index and the other members
    are untouched. *)
Theorem rhs_written_is_read (u : cell) (x : double) (s : Planner) :
  u <> _goal s ->
  (x =? DBL_MIN)%float = false ->
  let s' := snd (_rhs mth u x s) in
  fst (_rhs mth u x s) = x
  /\ fst (_rhs mth u DBL_MIN s') = x
  /\ (forall v, v <> u -> fst (_rhs mth v DBL_MIN s') = fst (_rhs mth v DBL_MIN s))
  /\ (forall v, fst (_g mth v DBL_MIN s') = fst (_g mth v DBL_MIN s))
  /\ (forall v, v <> u -> _cell_hash s' !! v = _cell_hash s !! v)
  /\ fixed s' = fixed s /\ _open_list s' = _open_list s
  /\ _open_hash s' = _open_hash s.
Proof.
  intros Hu Hx s'. unfold s'. rewrite rhs_any.
  destruct (decide (u = _goal s)); [congruence|]. cbn [fst snd].
  rewrite (put_value _ _ Hx).
  split; [reflexivity|]. split.
  { rewrite rhs_get. cbn [fst]. rewrite rhs_of_write.
    destruct (decide (u = _goal s)); [congruence | reflexivity]. }
  split.
  { intros v Hv. rewrite !rhs_get. cbn [fst].
    apply rhs_of_ext; [reflexivity | apply stored_write_ne, Hv]. }
  split.
  { intros v. rewrite !g_get. cbn [fst].
    destruct (decide (v = u)) as [->|Hv].
    - rewrite g_of_write. reflexivity.
    - unfold g_of. rewrite stored_write_ne by exact Hv. reflexivity. }
  split; [intros v Hv; apply write_hash_ne, Hv|].
  repeat split.
Qed.

(** ** The heuristic and the cost of an edge *)

Lemma abs_diff_sym (a b : Z) : Z.abs (a - b) = Z.abs (b - a).
Proof. lia. Qed.

(** X3.  The heuristic is symmetric: [_h(a, b)] and [_h(b, a)] are the
    same double. *)
Theorem h_symmetric (a b : cell) : _h mth grid a b = _h mth grid b a.
Proof.
  unfold _h.
  rewrite (abs_diff_sym (cell_x grid a)), (abs_diff_sym (cell_y grid a)).
  reflexivity.
Qed.

(** X4.  The cost of an edge is symmetric: [_cost(a, b)] and
    [_cost(b, a)] are the same double, whichever way round lines 220, 248
    and 429 pass the two cells. *)
Theorem cost_symmetric (a b : cell) (s : Planner) :
  _cost mth grid a b s = _cost mth grid b a s.
Proof.
  unfold _cost.
  rewrite (abs_diff_sym (cell_x grid a)), (abs_diff_sym (cell_y grid a)).
  rewrite (orb_comm (cost s a =? COST_UNWALKABLE grid)%float).
  rewrite (float_add_comm (cost s a)). reflexivity.
Qed.

Lemma of_long_zero : Prim2SF (of_long 0) = S754_zero false.
Proof. vm_compute. reflexivity. Qed.

Lemma add_zero_r (x : double) :
  Prim2SF x <> S754_zero true -> (x + 0)%float = x.
Proof.
  intros Hx. apply Prim2SF_inj. rewrite FloatAxioms.add_spec.
  change (Prim2SF 0%float) with (S754_zero false).
  destruct (Prim2SF x) as [[|] | [|] | | [|] m e]; try reflexivity.
  congruence.
Qed.

(** The heuristic from a cell to itself is 0 when [SQRT2 - 1] is finite. *)
Lemma h_self (a : cell) :
  (abs (Math_SQRT2 mth - 1) <? infinity)%float = true ->
  _h mth grid a a = 0%float.
Proof.
  intros H. unfold _h. rewrite !Z.sub_diag.
  assert (E : of_long 0 = 0%float) by (vm_compute; reflexivity).
  change (Z.abs 0) with 0%Z. rewrite E. change (0 <? 0)%float with false. cbv beta iota zeta.
  apply Prim2SF_inj. rewrite FloatAxioms.add_spec, FloatAxioms.mul_spec.
  rewrite FloatAxioms.ltb_spec, FloatAxioms.abs_spec in H.
  change (Prim2SF 0%float) with (S754_zero false).
  change (Prim2SF infinity) with (S754_infinity false) in H.
  destruct (Prim2SF (Math_SQRT2 mth - 1)) as [[|] | [|] | | [|] m e];
    try reflexivity; try discriminate H.
Qed.

End Values.

Section Membership.

Variable mth : Math.
Variable grid : Map.
Variable min_value : double.

Abbreviation INF := (Math_INFINITY mth).

(** ** The open list *)

Lemma ol_erase_insert (cmp : key -> key -> bool) (u : cell) (k : key) (l : OL) :
  u ∉ (snd <$> l) -> ol_erase u (ol_insert cmp (k, u) l) = l.
Proof.
  induction l as [|[k' v] l IH]; simpl.
  - intros _. destruct (decide (u = u)); [reflexivity | congruence].
  - rewrite not_elem_of_cons. intros [Hne Hl].
    destruct (cmp k k'); simpl.
    + destruct (decide (u = u)); [reflexivity | congruence].
    + destruct (decide (v = u)); [congruence|]. rewrite IH by exact Hl. reflexivity.
Qed.

Lemma ol_split_erase (u : cell) (l pre post : OL) :
  ol_split u l = Some (pre, post) -> ol_erase u l = pre ++ post.
Proof.
  revert pre. induction l as [|[k v] l IH]; intros pre; simpl; [discriminate|].
  destruct (decide (v = u)).
  - intros [= <- <-]. reflexivity.
  - destruct (ol_split u l) as [[pre' post']|]; [|discriminate].
    intros [= <- <-]. rewrite (IH pre' eq_refl). reflexivity.
Qed.

(** X5.  [_list_insert] followed by [_list_remove], for a cell that was
    neither on the open list nor in its index, gives the state back: the
    open list in its order, the index and every other member. *)
Theorem list_insert_remove (u : cell) (k : key) (s : Planner) :
  u ∉ cells s -> u ∉ _open_hash s ->
  _list_remove u (_list_insert mth u k s) = s.
Proof.
  intros Hc Hh. unfold _list_remove, _list_insert, with_open. simpl.
  rewrite ol_erase_insert by exact Hc.
  assert (E : ({[u]} ∪ _open_hash s) ∖ {[u]} = _open_hash s).
  { apply set_eq. intros w. rewrite elem_of_difference, elem_of_union, elem_of_singleton.
    split; [tauto|]. intros H. split; [tauto|]. intros ->. contradiction. }
  rewrite E. destruct s; reflexivity.
Qed.

(** X6.  [_list_update] of a cell of the open list leaves what
    [_list_remove] followed by [_list_insert] leaves, up to the order of
    the entries: the same entries and the same index.  The list holds the
    cell with the new key, and the store and the other members are
    untouched. *)
Theorem list_update_rekeys (u : cell) (k : key) (s : Planner) :
  u ∈ cells s ->
  let s' := _list_update mth u k s in
  let t := _list_insert mth u k (_list_remove u s) in
  _open_list s' ≡ₚ _open_list t
  /\ _open_hash s' = _open_hash t
  /\ (k, u) ∈ _open_list s'
  /\ fixed s' = fixed s /\ _cell_hash s' = _cell_hash s.
Proof.
  intros Hu s' t.
  assert (Hl : _open_list s' ≡ₚ (k, u) :: ol_erase u (_open_list s)).
  { unfold s', _list_update.
    destruct (ol_split u (_open_list s)) as [[pre post]|] eqn:E.
    - simpl. rewrite ol_insert_hint_perm, (ol_split_erase _ _ _ _ E). reflexivity.
    - apply ol_split_none in E. contradiction. }
  split; [|split; [|split; [|split]]].
  - rewrite Hl. unfold t, _list_insert, _list_remove. simpl.
    rewrite ol_insert_perm. reflexivity.
  - unfold s'. rewrite hash_update. unfold t, _list_insert, _list_remove. simpl.
    apply set_eq. intros w. rewrite !elem_of_union, elem_of_difference, elem_of_singleton.
    destruct (decide (w = u)); tauto.
  - rewrite Hl. apply list_elem_of_here.
  - apply fixed_list_update.
  - unfold s', _list_update.
    destruct (ol_split u (_open_list s)) as [[pre post]|]; reflexivity.
Qed.

(** ** [_update] *)

Lemma key_on_list (u : cell) (s : Planner) :
  consistent mth s u = false ->
  (key_of mth grid s u, u) ∈ _open_list (_update mth grid u s).
Proof.
  intros H. rewrite update_eq, H. simpl.
  destruct (bool_decide (u ∈ _open_hash s)).
  - unfold _list_update.
    destruct (ol_split u (_open_list (_cell mth u s))) as [[pre post]|];
      unfold with_open; cbn [_open_list];
      rewrite ol_insert_hint_perm; apply list_elem_of_here.
  - unfold _list_insert, with_open. cbn [_open_list].
    rewrite ol_insert_perm. apply list_elem_of_here.
Qed.

(** X7.  [_update(u)] reconciles the open list with the local
    consistency of [u].  When the index agrees with the list, it does so
    after the call; [u] is then on the open list exactly when
    [equals(g(u), rhs(u))] is false, and in that case with the key
    [_k(u)]; the membership of every other cell is as before, g and rhs of
    every cell read as before, and cost, km, start, goal, last and path are
    untouched. *)
Theorem update_reconciles (u : cell) (s : Planner) :
  indexed s ->
  let s' := _update mth grid u s in
  let differ :=
    negb (Math_equals mth (fst (_g mth u DBL_MIN s)) (fst (_rhs mth u DBL_MIN s))) in
  indexed s'
  /\ (u ∈ cells s' <-> differ = true)
  /\ (differ = true -> (fst (_k mth grid u s), u) ∈ _open_list s')
  /\ (forall w, w <> u -> (w ∈ cells s' <-> w ∈ cells s))
  /\ (forall w, fst (_g mth w DBL_MIN s') = fst (_g mth w DBL_MIN s)
                /\ fst (_rhs mth w DBL_MIN s') = fst (_rhs mth w DBL_MIN s))
  /\ fixed s' = fixed s.
Proof.
  intros Hix s' differ.
  destruct (update_spec mth grid u s Hix) as (Hix' & Hf & Hs & Hr & Hm).
  fold s' in Hix', Hf, Hs, Hr, Hm.
  assert (Hd : differ = negb (consistent mth s u)).
  { unfold differ. rewrite g_get, rhs_get. reflexivity. }
  assert (Hc : consistent mth s' u = consistent mth s u).
  { apply consistent_ext; [apply fixed_goal, Hf | apply Hs]. }
  split; [exact Hix'|]. split.
  { rewrite <- (proj2 Hix' u), Hd, negb_true_iff, <- Hc. exact Hr. }
  split.
  { rewrite Hd, negb_true_iff, k_eq. cbn [fst]. apply key_on_list. }
  split.
  { intros w Hw. rewrite <- (proj2 Hix' w), <- (proj2 Hix w). apply Hm, Hw. }
  split; [|exact Hf].
  intros w. rewrite !g_get, !rhs_get. cbn [fst]. split.
  - apply g_of_ext, Hs.
  - apply rhs_of_ext; [apply fixed_goal, Hf | apply Hs].
Qed.

(** ** [update] *)

Lemma update_unfold (u : cell) (c : double) (s : Planner) :
  u <> _goal s ->
  update mth grid u c s
  = _update mth grid u
      (with_cost (fun v => if decide (v = u) then c else cost s v)
         (_cell mth u
            (with_last (_start s)
               (with_km (_km s + _h mth grid (_last s) (_start s))%float s)))).
Proof.
  intros H. unfold update. destruct (decide (u = _goal s)); [congruence|].
  rewrite cell_cost. reflexivity.
Qed.

(** X8.  [update(u, c)] for a cell other than the goal adds
    [h(last, start)] to km, sets last to start, sets the cost of [u] to [c]
    and no other cost, leaves start, goal and path alone, changes no g and
    no rhs, those of the neighbours of [u] included, and changes the
    membership in the index of no cell but [u]. *)
Theorem update_effect (u : cell) (c : double) (s : Planner) :
  u <> _goal s ->
  let s' := update mth grid u c s in
  _km s' = (_km s + _h mth grid (_last s) (_start s))%float
  /\ _last s' = _start s
  /\ _start s' = _start s /\ _goal s' = _goal s /\ path s' = path s
  /\ cost s' u = c /\ (forall v, v <> u -> cost s' v = cost s v)
  /\ (forall v, fst (_g mth v DBL_MIN s') = fst (_g mth v DBL_MIN s)
                /\ fst (_rhs mth v DBL_MIN s') = fst (_rhs mth v DBL_MIN s))
  /\ (forall v, v <> u -> (v ∈ _open_hash s' <-> v ∈ _open_hash s)).
Proof.
  intros Hne s'.
  destruct (update_view mth grid u c s Hne) as (Hst & Hg & Hs & Hc).
  fold s' in Hst, Hg, Hs, Hc.
  assert (Hf : fixed s' = fixed (with_cost (fun v => if decide (v = u) then c else cost s v)
         (_cell mth u
            (with_last (_start s)
               (with_km (_km s + _h mth grid (_last s) (_start s))%float s))))).
  { unfold s'. rewrite update_unfold by exact Hne. apply fixed_update. }
  unfold fixed in Hf. simpl in Hf. rewrite cell_eq in Hf. simpl in Hf.
  split; [congruence|]. split; [congruence|].
  split; [exact Hst|]. split; [exact Hg|]. split; [unfold path; congruence|].
  split; [rewrite Hc; destruct (decide (u = u)); [reflexivity | congruence]|].
  split; [intros v Hv; rewrite Hc; destruct (decide (v = u)); [congruence | reflexivity]|].
  split.
  { intros v. rewrite !g_get, !rhs_get. cbn [fst]. split.
    - apply g_of_ext, Hs.
    - apply rhs_of_ext; [exact Hg | apply Hs]. }
  intros v Hv. unfold s'. rewrite update_unfold by exact Hne. rewrite update_eq.
  match goal with |- context [consistent mth ?t u] => set (t0 := t) end.
  assert (Hh : _open_hash t0 = _open_hash s).
  { unfold t0. simpl. rewrite cell_open_hash. reflexivity. }
  destruct (negb (consistent mth t0 u)); destruct (bool_decide (u ∈ _open_hash t0));
    rewrite ?hash_update; unfold _list_insert, _list_remove; simpl;
    rewrite ?cell_open_hash, Hh;
    rewrite ?elem_of_union, ?elem_of_difference, ?elem_of_singleton; tauto.
Qed.

(** X9.  When the index agrees with the open list and [u] is on the
    open list exactly when it is locally inconsistent, [update(u, c)]
    leaves the cells of the open list and the index as they are: the new
    cost reaches neither an rhs nor the open list. *)
Theorem update_keeps_open_cells (u : cell) (c : double) (s : Planner) :
  indexed s -> reconciled mth s u ->
  cells (update mth grid u c s) ≡ₚ cells s
  /\ _open_hash (update mth grid u c s) = _open_hash s.
Proof.
  intros Hix Hr. unfold update.
  destruct (decide (u = _goal s)) as [|Hne]; [split; reflexivity|].
  rewrite update_eq.
  match goal with |- context [consistent mth ?t u] => set (t0 := t) end.
  assert (Hh : _open_hash t0 = _open_hash s).
  { unfold t0. simpl. rewrite cell_open_hash. reflexivity. }
  assert (Hl : _open_list t0 = _open_list s).
  { unfold t0. simpl. rewrite cell_open_list. reflexivity. }
  assert (Hc : consistent mth t0 u = consistent mth s u).
  { apply consistent_ext.
    - unfold t0. simpl. rewrite cell_goal. reflexivity.
    - unfold t0.
      change (stored mth (_cell mth u (with_last (_start s)
                (with_km (_km s + _h mth grid (_last s) (_start s))%float s))) u
              = stored mth s u).
      rewrite stored_cell. reflexivity. }
  unfold reconciled in Hr.
  rewrite Hc, Hh.
  assert (Hcells : forall t, _open_list t = _open_list t0 -> cells t = cells s).
  { intros t Ht. unfold cells. rewrite Ht, Hl. reflexivity. }
  destruct (consistent mth s u) eqn:Ec; simpl.
  - rewrite bool_decide_eq_false_2.
    + split; [rewrite (Hcells (_cell mth u t0)) by apply cell_open_list; reflexivity|].
      rewrite cell_open_hash. exact Hh.
    + intros H. apply Hr in H. discriminate.
  - assert (Hu : u ∈ _open_hash s) by (apply Hr; reflexivity).
    rewrite bool_decide_eq_true_2 by exact Hu. split.
    + rewrite cells_update.
      * rewrite (Hcells (_cell mth u t0)) by apply cell_open_list. reflexivity.
      * rewrite (Hcells (_cell mth u t0)) by apply cell_open_list.
        apply (proj2 Hix), Hu.
    + rewrite hash_update, cell_open_hash, Hh. apply set_eq. intros w.
      rewrite elem_of_union, elem_of_singleton.
      split; [intros [->|H]; assumption | tauto].
Qed.

Lemma fixed_km (s t : Planner) : fixed s = fixed t -> _km s = _km t.
Proof. unfold fixed. intros H. congruence. Qed.

(** X10.  [update] leaves km as it is when the start has not moved
    since the last call, that is when last is start; [SQRT2 - 1] is taken
    to be finite and km not to be the negative zero. *)
Theorem update_keeps_km (u : cell) (c : double) (s : Planner) :
  (abs (Math_SQRT2 mth - 1) <? infinity)%float = true ->
  Prim2SF (_km s) <> S754_zero true ->
  _last s = _start s ->
  _km (update mth grid u c s) = _km s.
Proof.
  intros Hsq Hkm Hl. unfold update.
  destruct (decide (u = _goal s)); [reflexivity|].
  rewrite (fixed_km _ _ (fixed_update mth grid u _)). simpl.
  rewrite cell_km. simpl. rewrite Hl, (h_self mth grid _ Hsq).
  apply add_zero_r, Hkm.
Qed.

End Membership.

Section Successor.

Variable mth : Math.
Variable grid : Map.
Variable min_value : double.

Abbreviation INF := (Math_INFINITY mth).

(** ** [_min_succ] *)

Lemma touched_cost (a b : cell) (s t : Planner) :
  touched mth s t -> _cost mth grid a b t = _cost mth grid a b s.
Proof. intros (Hc & _). apply cost_ext; rewrite Hc; reflexivity. Qed.

Lemma touched_g (v : cell) (s t : Planner) :
  touched mth s t -> g_of mth t v = g_of mth s v.
Proof. intros (_ & _ & _ & _ & _ & _ & _ & Hs). unfold g_of. rewrite Hs. reflexivity. Qed.

Lemma touched_goal (s t : Planner) : touched mth s t -> _goal t = _goal s.
Proof. intros (_ & _ & _ & Hg & _). congruence. Qed.

Lemma touched_start (s t : Planner) : touched mth s t -> _start t = _start s.
Proof. intros (_ & _ & Hg & _). congruence. Qed.

Lemma min_succ_step_eq (u v : cell) (mc : option cell) (mcost : double) (s : Planner) :
  min_succ_step mth grid u ((mc, mcost), s) (Some v)
  = (if Math_equals mth (_cost mth grid u v s) INF || Math_equals mth (g_of mth s v) INF
     then (mc, mcost)
     else if Math_less mth (_cost mth grid u v s + g_of mth s v)%float mcost
          then (Some v, (_cost mth grid u v s + g_of mth s v)%float)
          else (mc, mcost),
     _cell mth v s).
Proof.
  unfold min_succ_step. rewrite g_get.
  destruct (Math_equals mth (_cost mth grid u v s) INF || Math_equals mth (g_of mth s v) INF);
    [reflexivity|].
  destruct (Math_less mth _ mcost); reflexivity.
Qed.

Lemma min_succ_step_path (u : cell) (acc : (option cell * double) * Planner)
      (nbr : option cell) :
  _path (snd (min_succ_step mth grid u acc nbr)) = _path (snd acc).
Proof.
  destruct acc as [[mc mcost] s]. destruct nbr as [v|]; [|reflexivity].
  rewrite min_succ_step_eq. cbn [snd]. apply cell_path.
Qed.

Lemma min_succ_path (u : cell) (s : Planner) :
  _path (snd (_min_succ mth grid u s)) = _path s.
Proof.
  rewrite min_succ_eq. cbn [fst snd].
  apply (fold_left_keeps _ (fun acc => _path (snd acc) = _path s)).
  - intros a b Ha. rewrite min_succ_step_path. exact Ha.
  - reflexivity.
Qed.

(** Once a least cell is chosen, one stays chosen. *)
Lemma min_succ_fold_some (u : cell) (l : list (option cell)) (w : cell)
      (mcost : double) (t : Planner) :
  fst (fst (fold_left (min_succ_step mth grid u) l ((Some w, mcost), t))) <> None.
Proof.
  revert w mcost t. induction l as [|[v|] l IH]; intros w mcost t; cbn [fold_left].
  - discriminate.
  - rewrite min_succ_step_eq.
    destruct (_ || _); [apply IH|]. destruct (Math_less mth _ mcost); apply IH.
  - apply IH.
Qed.

(** The chosen cell is the one chosen before or a linked entry of the
    list. *)
Lemma min_succ_fold_linked (u : cell) (s : Planner) (l : list (option cell)) :
  forall (mc : option cell) (mcost : double) (t : Planner) (v : cell),
    touched mth s t ->
    fst (fst (fold_left (min_succ_step mth grid u) l ((mc, mcost), t))) = Some v ->
    mc = Some v
    \/ (Some v ∈ l
        /\ Math_equals mth (_cost mth grid u v s) INF = false
        /\ Math_equals mth (g_of mth s v) INF = false).
Proof.
  induction l as [|[w|] l IH]; intros mc mcost t v Ht; cbn [fold_left].
  - intros H. left. exact H.
  - rewrite min_succ_step_eq, (touched_cost u w s t Ht), (touched_g w s t Ht).
    assert (Ht' : touched mth s (_cell mth w t))
      by (eapply touched_trans; [exact Ht | apply touched_cell]).
    destruct (Math_equals mth (_cost mth grid u w s) INF) eqn:Ec; cbn [orb].
    { intros H. destruct (IH _ _ _ _ Ht' H) as [Hm|(Hin & Hf)]; [left; exact Hm|].
      right. split; [apply elem_of_cons; right; exact Hin | exact Hf]. }
    destruct (Math_equals mth (g_of mth s w) INF) eqn:Eg.
    { intros H. destruct (IH _ _ _ _ Ht' H) as [Hm|(Hin & Hf)]; [left; exact Hm|].
      right. split; [apply elem_of_cons; right; exact Hin | exact Hf]. }
    destruct (Math_less mth _ mcost).
    + intros H. destruct (IH _ _ _ _ Ht' H) as [[= <-]|(Hin & Hf)].
      * right. split; [apply list_elem_of_here | split; assumption].
      * right. split; [apply elem_of_cons; right; exact Hin | exact Hf].
    + intros H. destruct (IH _ _ _ _ Ht' H) as [Hm|(Hin & Hf)]; [left; exact Hm|].
      right. split; [apply elem_of_cons; right; exact Hin | exact Hf].
  - intros H. destruct (IH _ _ _ _ Ht H) as [Hm|(Hin & Hf)]; [left; exact Hm|].
    right. split; [apply elem_of_cons; right; exact Hin | exact Hf].
Qed.

Lemma all_nbrs_cons (P : cell -> Prop) (w : cell) (l : list (option cell)) :
  (forall v, Some v ∈ Some w :: l -> P v) <-> P w /\ forall v, Some v ∈ l -> P v.
Proof.
  split.
  - intros H. split; [apply H, list_elem_of_here|].
    intros v Hv. apply H, elem_of_cons. right. exact Hv.
  - intros [Hw H] v Hv. apply elem_of_cons in Hv as [[= ->]|Hv]; [exact Hw | apply H, Hv].
Qed.

(** No cell is chosen exactly when every entry of the list is dull. *)
Lemma min_succ_fold_none (u : cell) (s : Planner) (l : list (option cell)) :
  forall (t : Planner),
    touched mth s t ->
    fst (fst (fold_left (min_succ_step mth grid u) l ((None, INF), t))) = None
    <-> forall v, Some v ∈ l -> dull mth grid s u v = true.
Proof.
  induction l as [|[w|] l IH]; intros t Ht; cbn [fold_left].
  - split; [|reflexivity]. intros _ v Hv. apply elem_of_nil in Hv. destruct Hv.
  - rewrite min_succ_step_eq, (touched_cost u w s t Ht), (touched_g w s t Ht).
    assert (Ht' : touched mth s (_cell mth w t))
      by (eapply touched_trans; [exact Ht | apply touched_cell]).
    rewrite all_nbrs_cons. unfold dull at 1.
    destruct (Math_equals mth (_cost mth grid u w s) INF
              || Math_equals mth (g_of mth s w) INF); cbn [orb].
    { rewrite (IH _ Ht'). tauto. }
    destruct (Math_less mth _ INF); cbn [negb].
    + split; [|intros [H _]; discriminate].
      intros H. exfalso. eapply min_succ_fold_some. exact H.
    + rewrite (IH _ Ht'). tauto.
  - rewrite (IH t Ht). split; intros H v Hv.
    + apply elem_of_cons in Hv as [Hv|Hv]; [discriminate | apply H, Hv].
    + apply H, elem_of_cons. right. exact Hv.
Qed.

Lemma min_succ_linked (u v : cell) (s : Planner) :
  fst (_min_succ mth grid u s) = Some v -> linked mth grid s u v.
Proof.
  rewrite min_succ_eq. cbn [fst]. intros H.
  destruct (min_succ_fold_linked u s _ _ _ _ v (touched_refl mth s) H) as [Hm|Hl];
    [discriminate | exact Hl].
Qed.

(** X11.  [_min_succ(u)] returns NULL or a neighbour of [u] for which
    neither the cost of the edge nor the g equals [INFINITY].  It returns
    NULL exactly when each neighbour has a cost or a g that equals
    [INFINITY], or a sum of the two that is not less than [INFINITY].  It
    binds cells in the store and changes nothing else, the path
    included. *)
Theorem min_succ_choice (u : cell) (s : Planner) :
  let r := _min_succ mth grid u s in
  (forall v, fst r = Some v -> linked mth grid s u v)
  /\ (fst r = None <->
      forall v, Some v ∈ cell_nbrs grid u -> dull mth grid s u v = true)
  /\ touched mth s (snd r) /\ _path (snd r) = _path s.
Proof.
  intros r. unfold r. split; [|split; [|split]].
  - intros v. apply min_succ_linked.
  - rewrite min_succ_eq. cbn [fst]. apply min_succ_fold_none, touched_refl.
  - apply min_succ_touched.
  - apply min_succ_path.
Qed.

End Successor.

Section Walk.

Variable mth : Math.
Variable grid : Map.
Variable min_value : double.

Abbreviation INF := (Math_INFINITY mth).

(** ** The walk of [replan] *)

Lemma touched_sym (s t : Planner) : touched mth s t -> touched mth t s.
Proof.
  unfold touched. intros (?&?&?&?&?&?&?&Hs). repeat split; congruence.
Qed.

Lemma linked_touched (s t : Planner) (a b : cell) :
  touched mth s t -> linked mth grid s a b -> linked mth grid t a b.
Proof.
  intros Ht (Hin & Hc & Hg). unfold linked.
  rewrite (touched_cost mth grid a b s t Ht), (touched_g mth b s t Ht). tauto.
Qed.

Lemma chain_touched (s t : Planner) (p : list (option cell)) :
  touched mth s t -> chain mth grid s p -> chain mth grid t p.
Proof.
  intros Ht. induction p as [|[a|] q IH]; cbn [chain]; try tauto.
  destruct q as [|[b|] q']; try tauto.
  intros [Hl Hc]. split; [eapply linked_touched; eassumption | apply IH, Hc].
Qed.

Lemma chain_snoc (s : Planner) (p : list (option cell)) (x v : cell) :
  chain mth grid s p -> last p = Some (Some x) -> linked mth grid s x v ->
  chain mth grid s (p ++ [Some v]).
Proof.
  intros Hc Hl Hx. induction p as [|[a|] q IH]; [discriminate | | destruct Hc].
  destruct q as [|[b|] q'].
  - injection Hl as <-. split; [exact Hx | exact I].
  - destruct Hc as [Hab Hc]. split; [exact Hab|]. apply IH; [exact Hc | exact Hl].
  - destruct Hc.
Qed.

Lemma walk_none (fuel : nat) (s s' : Planner) :
  walk mth grid fuel None s <> Some (true, s').
Proof.
  destruct fuel; [rewrite walk_O | rewrite walk_S];
    destruct (decide (None = Some (_goal s))); discriminate.
Qed.

(** A walk that reaches the goal extends the path by a chain to the goal. *)
Lemma walk_true_chain (fuel : nat) :
  forall (c : option cell) (s s' : Planner),
    walk mth grid fuel c s = Some (true, s') ->
    last (_path s) = Some c -> chain mth grid s (_path s) ->
    last (_path s') = Some (Some (_goal s)) /\ chain mth grid s' (_path s')
    /\ exists q, _path s' = _path s ++ q.
Proof.
  induction fuel as [|fuel IH]; intros c s s'; [rewrite walk_O | rewrite walk_S];
    (destruct (decide (c = Some (_goal s))) as [->|Hne];
     [intros [= <-] Hl Hc; split; [exact Hl | split; [exact Hc|]];
      exists []; rewrite app_nil_r; reflexivity|]); [discriminate|].
  destruct c as [x|]; [|discriminate].
  destruct (Math_equals mth (g_of mth s x) INF); [discriminate|]. cbv zeta.
  pose proof (min_succ_linked mth grid x) as Hsome.
  specialize (fun v => Hsome v (_cell mth x s)).
  pose proof (min_succ_touched mth grid x (_cell mth x s)) as Ht.
  pose proof (min_succ_path mth grid x (_cell mth x s)) as Hp.
  set (r := _min_succ mth grid x (_cell mth x s)) in *.
  assert (Ht1 : touched mth s (snd r))
    by (eapply touched_trans; [apply touched_cell | exact Ht]).
  assert (Hp1 : _path (snd r) = _path s) by (rewrite Hp; apply cell_path).
  intros Hw Hl Hc.
  destruct (fst r) as [v|] eqn:Ev; [|exfalso; eapply walk_none; exact Hw].
  apply IH in Hw.
  - destruct Hw as (Hl' & Hc' & q & Hq). simpl in Hl', Hq.
    rewrite (touched_goal mth s _ Ht1) in Hl'.
    split; [exact Hl' | split; [exact Hc'|]].
    exists ([Some v] ++ q). rewrite Hq, Hp1, <- app_assoc. reflexivity.
  - simpl. apply last_snoc.
  - simpl. rewrite Hp1.
    apply (chain_touched s); [eapply touched_trans; [exact Ht1 | apply touched_path]|].
    eapply chain_snoc; [exact Hc | exact Hl|].
    apply (linked_touched (_cell mth x s) s);
      [apply touched_sym, touched_cell | apply Hsome; reflexivity].
Qed.

(** A walk that fails ends at NULL or at a cell whose g equals
    [INFINITY]. *)
Lemma walk_false_end (fuel : nat) :
  forall (c : option cell) (s s' : Planner),
    walk mth grid fuel c s = Some (false, s') ->
    last (_path s) = Some c ->
    (last (_path s') = Some None
     \/ exists x, last (_path s') = Some (Some x) /\ x <> _goal s
                  /\ Math_equals mth (g_of mth s' x) INF = true)
    /\ exists q, _path s' = _path s ++ q.
Proof.
  induction fuel as [|fuel IH]; intros c s s'; [rewrite walk_O | rewrite walk_S];
    (destruct (decide (c = Some (_goal s))) as [->|Hne]; [discriminate|]);
    [discriminate|].
  destruct c as [x|].
  - destruct (Math_equals mth (g_of mth s x) INF) eqn:Eg.
    + intros [= <-] Hl. rewrite cell_path. split.
      * right. exists x. rewrite g_of_cell.
        split; [exact Hl | split; [congruence | exact Eg]].
      * exists []. rewrite app_nil_r. reflexivity.
    + cbv zeta.
      pose proof (min_succ_touched mth grid x (_cell mth x s)) as Ht.
      pose proof (min_succ_path mth grid x (_cell mth x s)) as Hp.
      set (r := _min_succ mth grid x (_cell mth x s)) in *.
      assert (Ht1 : touched mth s (snd r))
        by (eapply touched_trans; [apply touched_cell | exact Ht]).
      assert (Hp1 : _path (snd r) = _path s) by (rewrite Hp; apply cell_path).
      intros Hw Hl. apply IH in Hw; [|simpl; apply last_snoc].
      destruct Hw as (Hend & q & Hq). simpl in Hend, Hq.
      rewrite (touched_goal mth s _ Ht1) in Hend. split; [exact Hend|].
      exists ([fst r] ++ q). rewrite Hq, Hp1, <- app_assoc. reflexivity.
  - intros [= <-] Hl. split; [left; exact Hl|].
    exists []. rewrite app_nil_r. reflexivity.
Qed.

Lemma replan_walks (fuel : nat) (s s' : Planner) (b : bool) :
  replan mth grid min_value fuel s = Some (Returned b s') ->
  (exists sc, fixed sc = fixed (with_path [] s)
              /\ walk mth grid fuel (Some (_start s)) (with_path [Some (_start s)] sc)
                 = Some (b, s'))
  \/ (b = false /\ _path s' = []).
Proof.
  unfold replan.
  pose proof (fixed_compute mth grid min_value (with_path [] s)) as Hf.
  destruct (_compute mth grid min_value (with_path [] s)) as [[|] sc|sc] eqn:Ec;
    simpl in Hf.
  - pose proof (fixed_path _ _ Hf) as Hp. pose proof (fixed_start _ _ Hf) as Hs.
    simpl in Hp, Hs. rewrite Hp, Hs. simpl.
    destruct (walk mth grid fuel _ _) as [[b' s2]|] eqn:Ew; [|discriminate].
    intros [= <- <-]. left. exists sc. split; [exact Hf | exact Ew].
  - intros [= <- <-]. right. split; [reflexivity | apply fixed_path in Hf; exact Hf].
  - discriminate.
Qed.

(** X12.  When [replan] returns true, the path starts at the start
    cell, ends at the goal and holds no NULL, and each of its cells is
    followed by one of its neighbours, over an edge whose cost does not
    equal [INFINITY], to a cell whose g does not equal [INFINITY]. *)
Theorem replan_true_path (fuel : nat) (s s' : Planner) :
  replan mth grid min_value fuel s = Some (Returned true s') ->
  (exists q, path s' = Some (_start s) :: q)
  /\ last (path s') = Some (Some (_goal s))
  /\ chain mth grid s' (path s').
Proof.
  intros H. destruct (replan_walks _ _ _ _ H) as [(sc & Hf & Hw)|[Hb _]]; [|discriminate].
  apply walk_true_chain in Hw; [|reflexivity | exact I].
  destruct Hw as (Hl & Hc & q & Hq). simpl in Hl, Hq.
  rewrite (fixed_goal _ _ Hf) in Hl. simpl in Hl.
  split; [exists q; exact Hq | split; [exact Hl | exact Hc]].
Qed.

(** X13.  When [replan] returns false, the path is empty, or it starts
    at the start cell and ends in NULL or in a cell other than the goal
    whose g equals [INFINITY]. *)
Theorem replan_false_path (fuel : nat) (s s' : Planner) :
  replan mth grid min_value fuel s = Some (Returned false s') ->
  path s' = []
  \/ ((exists q, path s' = Some (_start s) :: q)
      /\ (last (path s') = Some None
          \/ exists x, last (path s') = Some (Some x) /\ x <> _goal s
                       /\ Math_equals mth (fst (_g mth x DBL_MIN s')) INF = true)).
Proof.
  intros H. destruct (replan_walks _ _ _ _ H) as [(sc & Hf & Hw)|[_ Hp]];
    [|left; exact Hp].
  right. apply walk_false_end in Hw; [|reflexivity].
  destruct Hw as (Hend & q & Hq). simpl in Hend, Hq.
  rewrite (fixed_goal _ _ Hf) in Hend. simpl in Hend.
  split; [exists q; exact Hq|].
  destruct Hend as [Hn|(x & Hx & Hne & Hg)]; [left; exact Hn|].
  right. exists x. rewrite g_get. auto.
Qed.

(** ** The fuel of the walk *)




(** X15.  [replan] assigns neither a cost nor km, start, goal or last,
    whatever its outcome. *)
Theorem replan_frame (fuel : nat) (s : Planner) (o : outcome) :
  replan mth grid min_value fuel s = Some o ->
  let s' := outcome_state o in
  cost s' = cost s /\ _km s' = _km s /\ _start s' = _start s
  /\ _goal s' = _goal s /\ _last s' = _last s.
Proof.
  unfold replan.
  pose proof (fixed_compute mth grid min_value (with_path [] s)) as Hf.
  destruct (_compute mth grid min_value (with_path [] s)) as [[|] sc|sc];
    unfold fixed in Hf; simpl in Hf.
  - destruct (walk mth grid fuel _ _) as [[b s2]|] eqn:Ew; [|discriminate].
    intros [= <-]. apply walk_touched in Ew.
    destruct Ew as (Hc & Hk & Hs & Hg & Hl & _). simpl in *.
    repeat split; congruence.
  - intros [= <-]. simpl. repeat split; congruence.
  - intros [= <-]. simpl. repeat split; congruence.
Qed.

(** X16.  [_compute] assigns neither a cost nor km, start, goal, last
    or the path, whatever its outcome. *)
Theorem compute_frame (s : Planner) :
  let s' := outcome_state (_compute mth grid min_value s) in
  cost s' = cost s /\ _km s' = _km s /\ _start s' = _start s
  /\ _goal s' = _goal s /\ _last s' = _last s /\ _path s' = _path s.
Proof.
  pose proof (fixed_compute mth grid min_value s) as Hf. unfold fixed in Hf.
  cbv zeta. repeat split; congruence.
Qed.

End Walk.

Section Compute.

Variable mth : Math.
Variable grid : Map.
Variable min_value : double.

Abbreviation INF := (Math_INFINITY mth).

(** ** How [_compute] returns *)

Lemma loop_body_break (s s' : Planner) :
  loop_body mth grid min_value s = Break s' ->
  exists k u l, _open_list s' = (k, u) :: l /\ u <> _goal s'
                /\ Math_equals mth (g_of mth s' u) INF = true.
Proof.
  rewrite loop_body_eq. destruct (_open_list s) as [|[k u] l] eqn:El; [discriminate|].
  cbv zeta. destruct (KeyCompare mth k _); [discriminate|].
  destruct (Math_greater mth _ _); [discriminate|].
  destruct (decide (u = _goal s)) as [|Hne]; [discriminate|].
  destruct (Math_equals mth _ INF) eqn:Eg; [|discriminate].
  intros [= <-]. exists k, u, l. rewrite g_of_cell, cell_open_list, cell_goal.
  split; [|split; [|exact Eg]].
  - change (_open_list (_cell mth u s) = (k, u) :: l). rewrite cell_open_list. exact El.
  - change (u <> _goal (_cell mth u s)). rewrite cell_goal. exact Hne.
Qed.

Lemma compute_loop_true (n : nat) (s s' : Planner) :
  compute_loop mth grid min_value n s = Returned true s' ->
  cond_of mth grid s' = false
  \/ exists k u l, _open_list s' = (k, u) :: l /\ u <> _goal s'
                   /\ Math_equals mth (g_of mth s' u) INF = true.
Proof.
  revert s. induction n as [|n IH]; intros s; simpl; rewrite loop_cond_eq;
    destruct (cond_of mth grid s) eqn:Ec; try discriminate;
    try (intros [= <-]; left; rewrite cond_of_cell; exact Ec).
  destruct (loop_body mth grid min_value (_cell mth (_start s) s)) as [s2|s2|s2] eqn:Eb;
    [apply IH | | discriminate].
  intros [= <-]. right. eapply loop_body_break. exact Eb.
Qed.

(** X17.  [_compute] returns false only when the open list was empty
    on entry, leaving the state as it was, or when the open list was not
    empty and the condition of the loop is true in the state it leaves.  It
    returns true only with the condition of the loop false or, after the
    [break] of line 242, with a cell other than the goal on top of the open
    list whose g equals [INFINITY]. *)
Theorem compute_results (s s' : Planner) (b : bool) :
  _compute mth grid min_value s = Returned b s' ->
  if b then
    fst (loop_cond mth grid s') = false
    \/ exists k u l, _open_list s' = (k, u) :: l /\ u <> _goal s'
                     /\ Math_equals mth (fst (_g mth u DBL_MIN s')) INF = true
  else
    (_open_list s = [] /\ s' = s)
    \/ (_open_list s <> [] /\ fst (loop_cond mth grid s') = true).
Proof.
  unfold _compute. destruct b.
  - destruct (_open_list s) eqn:El; [discriminate|]. intros H.
    apply compute_loop_true in H. rewrite loop_cond_eq. cbn [fst].
    destruct H as [H|(k & u & l' & H)]; [left; exact H|].
    right. exists k, u, l'. rewrite g_get. exact H.
  - destruct (_open_list s) eqn:El.
    + intros [= <-]. left. split; reflexivity.
    + intros H. right. split; [discriminate|].
      rewrite loop_cond_eq. cbn [fst]. eapply compute_loop_false. exact H.
Qed.

(** ** The argument of line 262 *)

Lemma loop_body_any (m1 m2 : double) (s : Planner) :
  Math_equals mth INF INF = true -> (INF =? DBL_MIN)%float = false ->
  loop_body mth grid m1 s = loop_body mth grid m2 s.
Proof.
  intros Hrefl Hsen. rewrite !loop_body_eq.
  destruct (_open_list s) as [|[k u] l]; [reflexivity|]. cbv zeta.
  destruct (KeyCompare mth k _); [reflexivity|].
  destruct (Math_greater mth _ _); [reflexivity|].
  destruct (decide (u = _goal s)); [reflexivity|].
  assert (Hg : g_of mth (set_g mth u INF (_cell mth u s)) u = INF).
  { unfold set_g. rewrite g_of_write. cbn [fst]. apply put_value, Hsen. }
  rewrite Hg, Hrefl. reflexivity.
Qed.

Lemma compute_loop_any (m1 m2 : double) (n : nat) (s : Planner) :
  Math_equals mth INF INF = true -> (INF =? DBL_MIN)%float = false ->
  compute_loop mth grid m1 n s = compute_loop mth grid m2 n s.
Proof.
  intros Hrefl Hsen. revert s. induction n as [|n IH]; intros s; simpl;
    destruct (loop_cond mth grid s) as [[|] s1]; try reflexivity.
  rewrite (loop_body_any m1 m2 s1 Hrefl Hsen).
  destruct (loop_body mth grid m2 s1); [apply IH | reflexivity | reflexivity].
Qed.

(** X18.  When [equals(INFINITY, INFINITY)] holds and [INFINITY] is
    not [DBL_MIN], the call [_rhs(u, min)] of line 262 is never reached:
    [_compute] and [replan] do the same whatever that argument is. *)
Theorem line_262_not_reached (m1 m2 : double) (fuel : nat) (s : Planner) :
  Math_equals mth INF INF = true -> (INF =? DBL_MIN)%float = false ->
  _compute mth grid m1 s = _compute mth grid m2 s
  /\ replan mth grid m1 fuel s = replan mth grid m2 fuel s.
Proof.
  intros Hrefl Hsen.
  assert (H : forall t, _compute mth grid m1 t = _compute mth grid m2 t).
  { intros t. unfold _compute. destruct (_open_list t); [reflexivity|].
    apply compute_loop_any; assumption. }
  split; [apply H|]. unfold replan. rewrite H. reflexivity.
Qed.

(** ** The reverse index *)

Lemma indexed_ext (s t : Planner) :
  _open_list s = _open_list t -> _open_hash s = _open_hash t ->
  indexed s -> indexed t.
Proof. unfold indexed, cells. intros -> ->. tauto. Qed.

Lemma indexed_touched (s t : Planner) : touched mth s t -> indexed s -> indexed t.
Proof. intros (_ & _ & _ & _ & _ & Hl & Hh & _). apply indexed_ext; assumption. Qed.

Lemma indexed_cell (u : cell) (s : Planner) : indexed s -> indexed (_cell mth u s).
Proof. apply indexed_touched, touched_cell. Qed.

Lemma indexed_update_cell (u : cell) (s : Planner) :
  indexed s -> indexed (_update mth grid u s).
Proof. intros H. apply (update_spec mth grid u s H). Qed.

Lemma indexed_relax_step (u : cell) (s : Planner) (nbr : option cell) :
  indexed s -> indexed (relax_step mth grid u s nbr).
Proof.
  intros H. destruct nbr as [v|]; [|exact H].
  rewrite relax_step_eq. apply indexed_update_cell.
  destruct (decide (v = _goal s)); [exact H|].
  unfold set_rhs. apply (indexed_ext (_cell mth u (_cell mth v s))); try reflexivity.
  apply indexed_cell, indexed_cell, H.
Qed.

Lemma indexed_update_nbr (s : Planner) (nbr : option cell) :
  indexed s -> indexed (update_nbr mth grid s nbr).
Proof. destruct nbr as [v|]; [apply indexed_update_cell | tauto]. Qed.

Lemma indexed_loop_body (s : Planner) :
  indexed s -> indexed (round_state (loop_body mth grid min_value s)).
Proof.
  intros H. rewrite loop_body_eq.
  destruct (_open_list s) as [|[k u] l] eqn:El; [exact H|].
  assert (Hu : u ∈ _open_hash s) by (eapply top_on_list; [exact H | exact El]).
  assert (H1 : indexed (_cell mth u s)) by apply indexed_cell, H.
  assert (Hu1 : u ∈ _open_hash (_cell mth u s)) by (rewrite cell_open_hash; exact Hu).
  cbv zeta.
  destruct (KeyCompare mth k _); cbn [round_state].
  { apply indexed_update; assumption. }
  destruct (Math_greater mth _ _); cbn [round_state].
  { apply (fold_left_keeps _ indexed).
    - intros a b. apply indexed_relax_step.
    - apply indexed_remove; [|exact Hu1].
      apply (indexed_ext (_cell mth u s)); [reflexivity | reflexivity | exact H1]. }
  assert (H5 : indexed (set_g mth u INF (_cell mth u s)))
    by (apply (indexed_ext (_cell mth u s)); [reflexivity | reflexivity | exact H1]).
  destruct (decide (u = _goal s)); cbn [round_state].
  { apply (fold_left_keeps _ indexed).
    - intros a b. apply indexed_update_nbr.
    - apply indexed_update_cell, H5. }
  destruct (Math_equals mth _ INF); cbn [round_state].
  { apply indexed_cell, H5. }
  apply (fold_left_keeps _ indexed).
  - intros a b. apply indexed_update_nbr.
  - apply indexed_update_cell.
    apply (indexed_ext (_cell mth u (set_g mth u INF (_cell mth u s))));
      [reflexivity | reflexivity | apply indexed_cell, H5].
Qed.

Lemma indexed_compute_loop (n : nat) (s : Planner) :
  indexed s -> indexed (outcome_state (compute_loop mth grid min_value n s)).
Proof.
  revert s. induction n as [|n IH]; intros s H; simpl; rewrite loop_cond_eq;
    assert (H1 : indexed (_cell mth (_start s) s)) by apply indexed_cell, H;
    destruct (cond_of mth grid s); try exact H1.
  pose proof (indexed_loop_body _ H1) as Hb.
  destruct (loop_body mth grid min_value (_cell mth (_start s) s)) as [s2|s2|s2];
    cbn [round_state] in Hb; [apply IH, Hb | exact Hb | exact Hb].
Qed.

Lemma indexed_replan (fuel : nat) (s : Planner) (o : outcome) :
  indexed s -> replan mth grid min_value fuel s = Some o ->
  indexed (outcome_state o).
Proof.
  intros H. unfold replan.
  assert (H0 : indexed (with_path [] s))
    by (apply (indexed_ext s); [reflexivity | reflexivity | exact H]).
  assert (Hc : indexed (outcome_state (_compute mth grid min_value (with_path [] s)))).
  { unfold _compute. destruct (_open_list (with_path [] s)); [exact H0|].
    apply indexed_compute_loop, H0. }
  destruct (_compute mth grid min_value (with_path [] s)) as [[|] sc|sc];
    cbn [outcome_state] in Hc; [|intros [= <-]; exact Hc | intros [= <-]; exact Hc].
  destruct (walk mth grid fuel _ _) as [[b' s2]|] eqn:Ew; [|discriminate].
  intros [= <-]. apply walk_touched in Ew.
  eapply indexed_touched; [exact Ew|].
  apply (indexed_ext sc); [reflexivity | reflexivity | exact Hc].
Qed.

Lemma indexed_update_public (u : cell) (c : double) (s : Planner) :
  indexed s -> indexed (update mth grid u c s).
Proof.
  intros H. unfold update. destruct (decide (u = _goal s)); [exact H|].
  apply indexed_update_cell.
  match goal with |- indexed (with_cost _ (_cell mth u ?t)) =>
    apply (indexed_ext (_cell mth u t)); [reflexivity | reflexivity |];
    apply indexed_cell; apply (indexed_ext s); [reflexivity | reflexivity | exact H]
  end.
Qed.

Lemma indexed_new (cost0 : cell -> double) (start goal : cell) :
  indexed (new_Planner mth grid cost0 start goal).
Proof.
  unfold new_Planner. rewrite rhs_any. cbn [_goal].
  destruct (decide (goal = goal)); [|congruence]. cbv beta iota zeta.
  rewrite k_eq. cbv beta iota zeta.
  apply indexed_insert.
  - apply indexed_cell. split; [apply NoDup_nil_2|].
    intros u. unfold cells. simpl. rewrite elem_of_empty, elem_of_nil. reflexivity.
  - rewrite cell_open_hash. simpl. apply not_elem_of_empty.
Qed.

(** X19.  After any sequence of public calls on a constructed planner,
    [goal] with a cell included, the open list holds no cell twice and
    [_open_hash] holds exactly the cells of the open list. *)
Theorem reverse_index_in_step (s : Planner) :
  operated mth grid min_value s ->
  NoDup (cells s) /\ forall u, u ∈ _open_hash s <-> u ∈ cells s.
Proof.
  intros H. change (indexed s).
  induction H as [cost0 st gl|s u c _ IH|s s' fuel b _ IH Hrp|s u _ IH|s u _ IH].
  - apply indexed_new.
  - apply indexed_update_public, IH.
  - apply (indexed_replan fuel s _ IH Hrp).
  - destruct u as [v|]; [|exact IH].
    apply (indexed_ext s); [reflexivity | reflexivity | exact IH].
  - destruct u as [v|]; [|exact IH].
    apply (indexed_ext s); [reflexivity | reflexivity | exact IH].
Qed.

(** ** The front of the open list *)

Section Reachable.

Hypothesis Hsane : MathSane mth.
Hypothesis Hsym : forall a b, Math_equals mth a b = Math_equals mth b a.

Lemma reachable_quiescent (s : Planner) :
  reachable mth grid min_value s -> quiescent mth s.
Proof.
  intros H.
  induction H as [cost0 st gl|s u c _ IH|s s' fuel b _ IH Hrp|s u _ IH|s _ IH].
  - apply new_quiescent, Hsane.
  - apply update_public_quiescent, IH.
  - eapply replan_quiescent; eassumption.
  - destruct u as [v|]; [|exact IH].
    eapply quiescent_ext; [| | | |exact IH]; reflexivity.
  - exact IH.
Qed.

Lemma quiescent_front (s : Planner) :
  quiescent mth s -> cond_of mth grid s = true -> _open_list s <> [].
Proof.
  intros ([_ Hix] & Hr & _) Hc He. unfold cond_of in Hc. rewrite He in Hc.
  cbn [orb] in Hc. apply negb_true_iff in Hc. rewrite Hsym in Hc.
  apply (Hr (_start s)), Hix in Hc. unfold cells in Hc. rewrite He in Hc.
  apply elem_of_nil in Hc. exact Hc.
Qed.

Lemma compute_loop_defined (n : nat) (s s' : Planner) :
  quiescent mth s -> compute_loop mth grid min_value n s <> Undefined s'.
Proof.
  revert s. induction n as [|n IH]; intros s Hq; simpl; rewrite loop_cond_eq;
    destruct (cond_of mth grid s) eqn:Ec; try discriminate.
  assert (Hq1 : quiescent mth (_cell mth (_start s) s))
    by (eapply quiescent_touched; [apply touched_cell | exact Hq]).
  pose proof (loop_body_quiescent mth grid min_value Hsane _ Hq1) as Hb.
  assert (Hl : _open_list (_cell mth (_start s) s) <> []).
  { apply quiescent_front; [exact Hq1 | rewrite cond_of_cell; exact Ec]. }
  destruct (loop_body mth grid min_value (_cell mth (_start s) s)) as [s2|s2|s2] eqn:Eb;
    cbn [round_state] in Hb; [apply IH, Hb | discriminate|].
  rewrite loop_body_eq in Eb.
  destruct (_open_list (_cell mth (_start s) s)) as [|[k u] l]; [congruence|].
  cbv zeta in Eb.
  destruct (KeyCompare mth k _); [discriminate|].
  destruct (Math_greater mth _ _); [discriminate|].
  destruct (decide _); [discriminate|].
  destruct (Math_equals mth _ INF); discriminate.
Qed.

(** X20.  In every state reachable without setting the goal anew,
    [replan] does not read [begin()] of an empty open list; the class
    [Math] is assumed to satisfy [MathSane] and [equals] to be
    symmetric. *)
Theorem front_is_there (s s' : Planner) (fuel : nat) :
  reachable mth grid min_value s ->
  replan mth grid min_value fuel s <> Some (Undefined s').
Proof.
  intros H. apply reachable_quiescent in H. unfold replan.
  assert (H0 : quiescent mth (with_path [] s))
    by (eapply quiescent_touched; [apply touched_path | exact H]).
  destruct (_compute mth grid min_value (with_path [] s)) as [[|] sc|sc] eqn:Ec.
  - destruct (walk mth grid fuel _ _) as [[b s2]|]; discriminate.
  - discriminate.
  - exfalso. unfold _compute in Ec.
    destruct (_open_list (with_path [] s)); [discriminate|].
    eapply compute_loop_defined; [exact H0 | exact Ec].
Qed.

End Reachable.

(** ** [KeyCompare] *)

(** X21.  [KeyCompare] is asymmetric when [less] is asymmetric and
    [less(a, b)] gives [greater(b, a)]. *)
Theorem key_compare_asymmetric (p q : key) :
  (forall a b, Math_less mth a b = true -> Math_less mth b a = false) ->
  (forall a b, Math_less mth a b = true -> Math_greater mth b a = true) ->
  KeyCompare mth p q = true -> KeyCompare mth q p = false.
Proof.
  intros Hasym Hflip. unfold KeyCompare.
  destruct (Math_less mth (fst p) (fst q)) eqn:E1.
  - intros _. rewrite (Hasym _ _ E1), (Hflip _ _ E1). reflexivity.
  - destruct (Math_greater mth (fst p) (fst q)) eqn:E2; [discriminate|].
    destruct (Math_less mth (snd p) (snd q)) eqn:E3.
    + intros _. destruct (Math_less mth (fst q) (fst p)) eqn:E4.
      * rewrite (Hflip _ _ E4) in E2. discriminate.
      * destruct (Math_greater mth (fst q) (fst p)); [reflexivity|].
        rewrite (Hasym _ _ E3). destruct (Math_greater mth (snd q) (snd p)); reflexivity.
    + destruct (Math_greater mth (snd p) (snd q)); discriminate.
Qed.

End Compute.

Section Endings.

Variable mth : Math.
Variable grid : Map.
Variable min_value : double.

Abbreviation INF := (Math_INFINITY mth).

Lemma compute_loop_undefined (n : nat) (s s' : Planner) :
  compute_loop mth grid min_value n s = Undefined s' ->
  _open_list s' = [] /\ cond_of mth grid s' = true.
Proof.
  revert s. induction n as [|n IH]; intros s; simpl; rewrite loop_cond_eq;
    destruct (cond_of mth grid s) eqn:Ec; try discriminate.
  destruct (loop_body mth grid min_value (_cell mth (_start s) s)) as [s2|s2|s2] eqn:Eb;
    [apply IH | discriminate|].
  intros [= <-]. rewrite loop_body_eq in Eb.
  destruct (_open_list (_cell mth (_start s) s)) as [|[k u] l] eqn:El.
  - injection Eb as <-. split; [exact El | rewrite cond_of_cell; exact Ec].
  - cbv zeta in Eb.
    destruct (KeyCompare mth k _); [discriminate|].
    destruct (Math_greater mth _ _); [discriminate|].
    destruct (decide _); [discriminate|].
    destruct (Math_equals mth _ INF); discriminate.
Qed.

(** X22.  [_compute] reads [begin()] of an empty list only if the open
    list was not empty on entry and is empty in the state it leaves, while
    rhs and g of the start differ. *)
Theorem compute_undefined (s s' : Planner) :
  _compute mth grid min_value s = Undefined s' ->
  _open_list s <> [] /\ _open_list s' = []
  /\ Math_equals mth (fst (_rhs mth (_start s') DBL_MIN s'))
                     (fst (_g mth (_start s') DBL_MIN s')) = false.
Proof.
  unfold _compute. destruct (_open_list s) eqn:El; [discriminate|].
  intros H. apply compute_loop_undefined in H as [He Hc].
  split; [discriminate | split; [exact He|]].
  unfold cond_of in Hc. rewrite He in Hc. cbn [orb] in Hc.
  apply negb_true_iff in Hc. rewrite rhs_get, g_get. exact Hc.
Qed.

(** ** A walk that does not end *)

Lemma min_succ_fold_view (u : cell) (l : list (option cell)) :
  forall (a : option cell * double) (s t : Planner),
    touched mth s t ->
    fst (fold_left (min_succ_step mth grid u) l (a, t))
    = fst (fold_left (min_succ_step mth grid u) l (a, s)).
Proof.
  induction l as [|[v|] l IH]; intros [mc mcost] s t Ht; cbn [fold_left].
  - reflexivity.
  - rewrite !min_succ_step_eq, (touched_cost mth grid u v s t Ht), (touched_g mth v s t Ht).
    apply IH.
    eapply touched_trans; [apply touched_sym, touched_cell|].
    eapply touched_trans; [exact Ht | apply touched_cell].
  - apply IH, Ht.
Qed.

Lemma min_succ_view (u : cell) (s t : Planner) :
  touched mth s t ->
  fst (_min_succ mth grid u t) = fst (_min_succ mth grid u s).
Proof.
  intros Ht. rewrite !min_succ_eq. cbn [fst].
  rewrite (min_succ_fold_view u _ _ s t Ht). reflexivity.
Qed.

Lemma walk_trapped (P : cell -> Prop) (s : Planner) :
  (forall x, P x ->
     x <> _goal s /\ Math_equals mth (g_of mth s x) INF = false
     /\ exists y, fst (_min_succ mth grid x s) = Some y /\ P y) ->
  forall (fuel : nat) (c : cell) (t : Planner),
    P c -> touched mth s t -> walk mth grid fuel (Some c) t = None.
Proof.
  intros HP. induction fuel as [|fuel IH]; intros c t Hc Ht;
    destruct (HP c Hc) as (Hg & Hfin & y & Hy & HPy);
    [rewrite walk_O | rewrite walk_S];
    rewrite (touched_goal mth s t Ht);
    (destruct (decide (Some c = Some (_goal s))) as [[= E]|_]; [contradiction|]);
    [reflexivity|].
  rewrite (touched_g mth c s t Ht), Hfin. cbv zeta.
  assert (Ht1 : touched mth s (_cell mth c t))
    by (eapply touched_trans; [exact Ht | apply touched_cell]).
  rewrite (min_succ_view c s _ Ht1), Hy. apply IH; [exact HPy|].
  eapply touched_trans; [exact Ht1|].
  eapply touched_trans; [apply min_succ_touched | apply touched_path].
Qed.

(** X23.  The walk of [replan] need not end.  Let the open list be not
    empty and the condition of the loop of [_compute] false, and let the
    start lie in a set of cells, none of them the goal, each with a g that
    does not equal [INFINITY] and with its least successor in the set: then
    [replan] returns with no amount of fuel. *)
Theorem replan_never_returns (P : cell -> Prop) (s : Planner) :
  _open_list s <> [] -> fst (loop_cond mth grid s) = false ->
  P (_start s) ->
  (forall x, P x ->
     x <> _goal s
     /\ Math_equals mth (fst (_g mth x DBL_MIN s)) INF = false
     /\ exists y, fst (_min_succ mth grid x s) = Some y /\ P y) ->
  forall fuel, replan mth grid min_value fuel s = None.
Proof.
  intros Hl Hc Hs HP fuel. rewrite loop_cond_eq in Hc. cbn [fst] in Hc.
  rewrite replan_when_settled by assumption.
  rewrite (walk_trapped P s); [reflexivity | | exact Hs |].
  - intros x Hx. destruct (HP x Hx) as (Hg & Hfin & Hy). rewrite g_get in Hfin.
    split; [exact Hg | split; [exact Hfin | exact Hy]].
  - eapply touched_trans; [apply (touched_path mth []) |].
    eapply touched_trans; [apply touched_cell | apply touched_path].
Qed.

End Endings.

Section Rounds.

Variable mth : Math.
Variable grid : Map.
Variable min_value : double.

Abbreviation INF := (Math_INFINITY mth).

(** ** The rounds of the loop of [_compute] *)

Lemma fixed_cost (s t : Planner) : fixed s = fixed t -> cost s = cost t.
Proof. unfold fixed. intros H. congruence. Qed.

Lemma relax_step_g (u : cell) (t : Planner) (nbr : option cell) (w : cell) :
  g_of mth (relax_step mth grid u t nbr) w = g_of mth t w.
Proof.
  destruct nbr as [v|]; [|reflexivity].
  rewrite relax_step_eq. unfold g_of at 1. rewrite stored_update.
  destruct (decide (v = _goal t)); [reflexivity|].
  unfold set_rhs. rewrite stored_write.
  destruct (decide (v = w)) as [->|]; cbn [fst]; rewrite !stored_cell; reflexivity.
Qed.

Lemma relax_step_rhs (u v : cell) (t : Planner) (w : cell) :
  rhs_of mth (relax_step mth grid u t (Some v)) w
  = if decide (w = v) then
      if decide (v = _goal t) then 0%float
      else put (std_min (rhs_of mth t v) (_cost mth grid v u t + g_of mth t u)%float)
               (rhs_of mth t v)
    else rhs_of mth t w.
Proof.
  pose proof (fixed_goal _ _ (fixed_relax_step mth grid u t (Some v))) as Hg.
  unfold rhs_of at 1. rewrite Hg. rewrite relax_step_eq, stored_update.
  destruct (decide (v = _goal t)) as [Hv|Hv].
  - unfold rhs_of. destruct (decide (w = v)) as [->|]; [|reflexivity].
    destruct (decide (v = _goal t)); [reflexivity | congruence].
  - unfold set_rhs. rewrite stored_write. rewrite !stored_cell.
    destruct (decide (w = v)) as [->|Hw].
    + destruct (decide (v = _goal t)); [congruence|].
      destruct (decide (v = v)); [|congruence]. cbn [snd].
      unfold rhs_of. destruct (decide (v = _goal t)); [congruence | reflexivity].
    + destruct (decide (v = w)); [congruence|]. reflexivity.
Qed.

(** What the relaxations of Case B leave: every rhs is the one it was or
    the cost through [u], which is then the lesser. *)
Lemma relax_fold (u : cell) (s : Planner) (l : list (option cell)) :
  forall t : Planner,
    cost t = cost s -> _goal t = _goal s -> g_of mth t u = g_of mth s u ->
    (forall v, rhs_of mth t v = rhs_of mth s v
               \/ (v <> _goal s
                   /\ rhs_of mth t v = (_cost mth grid v u s + g_of mth s u)%float
                   /\ (rhs_of mth t v <? rhs_of mth s v)%float = true)) ->
    let t' := fold_left (relax_step mth grid u) l t in
    forall v, rhs_of mth t' v = rhs_of mth s v
              \/ (v <> _goal s
                  /\ rhs_of mth t' v = (_cost mth grid v u s + g_of mth s u)%float
                  /\ (rhs_of mth t' v <? rhs_of mth s v)%float = true).
Proof.
  induction l as [|[w|] l IH]; intros t Hc Hg Hu Hinv; cbn [fold_left].
  - exact Hinv.
  - apply IH.
    + rewrite <- Hc. apply fixed_cost, fixed_relax_step.
    + rewrite <- Hg. apply fixed_goal, fixed_relax_step.
    + rewrite relax_step_g. exact Hu.
    + intros v. rewrite relax_step_rhs.
      destruct (decide (v = w)) as [->|]; [|apply Hinv].
      rewrite Hg. destruct (decide (w = _goal s)) as [Hw|Hw].
      { left. unfold rhs_of. destruct (decide (w = _goal s)); [reflexivity | congruence]. }
      rewrite Hu, (cost_ext mth grid w u t s) by (rewrite Hc; reflexivity).
      set (x := (_cost mth grid w u s + g_of mth s u)%float).
      unfold put, std_min.
      destruct (x <? rhs_of mth t w)%float eqn:Ex; [|destruct (_ =? _)%float; apply Hinv].
      destruct (x =? DBL_MIN)%float; [apply Hinv|].
      destruct (Hinv w) as [Heq|(_ & Heq & _)].
      * right. rewrite <- Heq. split; [exact Hw | split; [reflexivity | exact Ex]].
      * rewrite Heq in Ex. fold x in Ex. rewrite ltb_irrefl in Ex. discriminate.
  - apply IH; assumption.
Qed.

(** X24.  Case B of the loop of [_compute]: for the cell [u] on top of
    the open list with a key that is not stale, g greater than rhs and an
    rhs other than [DBL_MIN], the round sets g(u) to rhs(u) and changes no
    other g; every rhs is the one it was or, for a cell other than the
    goal, the cost of the edge to [u] plus the new g(u), which is then less
    than the rhs it replaces. *)
Theorem commit_round (s : Planner) (k : key) (u : cell) (l : OL) :
  _open_list s = (k, u) :: l ->
  KeyCompare mth k (fst (_k mth grid u s)) = false ->
  Math_greater mth (g_of mth s u) (rhs_of mth s u) = true ->
  (rhs_of mth s u =? DBL_MIN)%float = false ->
  exists s', loop_body mth grid min_value s = Continue s'
    /\ g_of mth s' u = rhs_of mth s u
    /\ (forall v, v <> u -> g_of mth s' v = g_of mth s v)
    /\ (forall v, rhs_of mth s' v = rhs_of mth s v
                  \/ (v <> _goal s
                      /\ rhs_of mth s' v
                         = (_cost mth grid v u s + rhs_of mth s u)%float
                      /\ (rhs_of mth s' v <? rhs_of mth s v)%float = true)).
Proof.
  intros Hl Hk Hgt Hsen. rewrite k_eq in Hk. cbn [fst] in Hk.
  rewrite loop_body_eq, Hl. cbv zeta. rewrite Hk, Hgt.
  set (s1 := _list_remove u (set_g mth u (rhs_of mth s u) (_cell mth u s))).
  assert (Hst : forall v, stored mth s1 v
                = if decide (u = v) then (rhs_of mth s u, snd (stored mth s u))
                  else stored mth s v).
  { intros v. unfold s1, _list_remove, set_g.
    change (stored mth (write u (put (rhs_of mth s u) (g_of mth (_cell mth u s) u),
                                 snd (stored mth (_cell mth u s) u)) (_cell mth u s)) v
            = if decide (u = v) then (rhs_of mth s u, snd (stored mth s u))
              else stored mth s v).
    rewrite stored_write, !stored_cell, (put_value _ _ Hsen). reflexivity. }
  assert (Hg1 : forall v, g_of mth s1 v = if decide (u = v) then rhs_of mth s u else g_of mth s v).
  { intros v. unfold g_of. rewrite Hst. destruct (decide (u = v)); reflexivity. }
  assert (Hgoal : _goal s1 = _goal s) by (unfold s1; simpl; apply cell_goal).
  assert (Hcost : cost s1 = cost s) by (unfold s1; simpl; apply cell_cost).
  assert (Hr1 : forall v, rhs_of mth s1 v = rhs_of mth s v).
  { intros v. unfold rhs_of. rewrite Hgoal, Hst.
    destruct (decide (u = v)) as [->|]; reflexivity. }
  eexists. split; [reflexivity|]. split; [|split].
  - rewrite (fold_left_keeps _ (fun t => g_of mth t u = g_of mth s1 u)).
    + rewrite Hg1. destruct (decide (u = u)); [reflexivity | congruence].
    + intros a b Ha. rewrite relax_step_g. exact Ha.
    + reflexivity.
  - intros v Hv.
    rewrite (fold_left_keeps _ (fun t => g_of mth t v = g_of mth s1 v)).
    + rewrite Hg1. destruct (decide (u = v)); [congruence | reflexivity].
    + intros a b Ha. rewrite relax_step_g. exact Ha.
    + reflexivity.
  - intros v.
    pose proof (relax_fold u s1 (cell_nbrs grid u) s1 eq_refl eq_refl eq_refl
                  (fun w => or_introl eq_refl) v) as H.
    cbv zeta in H. rewrite Hgoal, Hr1 in H.
    rewrite (cost_ext mth grid v u s1 s) in H by (rewrite Hcost; reflexivity).
    rewrite Hg1 in H. destruct (decide (u = u)); [exact H | congruence].
Qed.

(** X25.  Case A of the loop of [_compute]: when the key of the top
    entry is less than the key [_k] computes for its cell, the round
    replaces that key in the open list, keeps every other entry, and
    changes neither a g nor an rhs nor any other member. *)
Theorem rekey_round (s : Planner) (k : key) (u : cell) (l : OL) :
  _open_list s = (k, u) :: l ->
  KeyCompare mth k (fst (_k mth grid u s)) = true ->
  exists s', loop_body mth grid min_value s = Continue s'
    /\ _open_list s' ≡ₚ (fst (_k mth grid u s), u) :: l
    /\ (forall v, g_of mth s' v = g_of mth s v /\ rhs_of mth s' v = rhs_of mth s v)
    /\ fixed s' = fixed s.
Proof.
  intros Hl Hk. rewrite k_eq in *. cbn [fst] in *.
  rewrite loop_body_eq, Hl. cbv zeta. rewrite Hk.
  eexists. split; [reflexivity|].
  assert (Hs : forall v, stored mth (_list_update mth u (key_of mth grid s u) (_cell mth u s)) v
                         = stored mth s v).
  { intros v. rewrite stored_list_update. apply stored_cell. }
  assert (Hf : fixed (_list_update mth u (key_of mth grid s u) (_cell mth u s)) = fixed s).
  { rewrite fixed_list_update. apply fixed_cell. }
  split; [|split; [|exact Hf]].
  - unfold _list_update. rewrite cell_open_list, Hl. cbn [ol_split snd].
    destruct (decide (u = u)); [|congruence].
    unfold with_open. cbn [_open_list]. rewrite ol_insert_hint_perm. reflexivity.
  - intros v. split; [apply g_of_ext, Hs|].
    apply rhs_of_ext; [apply fixed_goal, Hf | apply Hs].
Qed.

End Rounds.

Section Terrain.

Variable mth : Math.
Variable grid : Map.
Variable min_value : double.

Abbreviation INF := (Math_INFINITY mth).

(** ** Unwalkable cells *)

Lemma linked_walkable (s : Planner) (a b : cell) :
  Math_equals mth (COST_UNWALKABLE grid) INF = true ->
  linked mth grid s a b ->
  (cost s a =? COST_UNWALKABLE grid)%float = false
  /\ (cost s b =? COST_UNWALKABLE grid)%float = false.
Proof.
  intros HU (_ & Hc & _). unfold _cost in Hc.
  destruct (cost s a =? COST_UNWALKABLE grid)%float;
    destruct (cost s b =? COST_UNWALKABLE grid)%float; cbn [orb] in Hc;
    try congruence.
  split; reflexivity.
Qed.

Lemma chain_walkable (s : Planner) (p : list (option cell)) :
  Math_equals mth (COST_UNWALKABLE grid) INF = true ->
  chain mth grid s p -> 2 <= length p ->
  forall c, Some c ∈ p -> (cost s c =? COST_UNWALKABLE grid)%float = false.
Proof.
  intros HU. induction p as [|[a|] q IH]; cbn [chain]; [simpl; lia | | tauto].
  destruct q as [|[b|] q']; [simpl; lia | | tauto].
  intros [Hl Hc] _ c Hin.
  destruct (linked_walkable s a b HU Hl) as [Ha Hb].
  apply elem_of_cons in Hin as [[= ->]|Hin]; [exact Ha|].
  destruct q' as [|x q''].
  - apply list_elem_of_singleton in Hin. injection Hin as ->. exact Hb.
  - apply IH; [exact Hc | simpl; lia | exact Hin].
Qed.

(** X26.  When [COST_UNWALKABLE] equals [INFINITY] and the start is not
    the goal, no cell of the path that [replan] leaves when it returns true
    is unwalkable. *)
Theorem path_is_walkable (fuel : nat) (s s' : Planner) :
  replan mth grid min_value fuel s = Some (Returned true s') ->
  Math_equals mth (COST_UNWALKABLE grid) INF = true ->
  _start s <> _goal s ->
  forall c, Some c ∈ path s' -> (cost s c =? COST_UNWALKABLE grid)%float = false.
Proof.
  intros H HU Hne.
  destruct (replan_walks mth grid min_value _ _ _ _ H) as [(sc & Hf & Hw)|[Hb _]];
    [|discriminate].
  pose proof (walk_touched mth grid _ _ _ _ _ Hw) as Ht.
  apply walk_true_chain in Hw; [|reflexivity | exact I].
  destruct Hw as (Hl & Hc & q & Hq). simpl in Hl, Hq.
  assert (Hcost : cost s' = cost s).
  { destruct Ht as (Ht & _). simpl in Ht. rewrite <- Ht.
    unfold fixed in Hf. simpl in Hf. congruence. }
  rewrite <- Hcost. apply chain_walkable; [exact HU | exact Hc|].
  unfold path. rewrite Hq. destruct q as [|x q']; [|simpl; lia].
  exfalso. rewrite Hq in Hl. simpl in Hl. injection Hl as Hl.
  rewrite (fixed_goal _ _ Hf) in Hl. simpl in Hl. congruence.
Qed.

End Terrain.

Section AtGoal.

Variable mth : Math.
Variable grid : Map.
Variable min_value : double.

Abbreviation INF := (Math_INFINITY mth).

(** ** The start at the goal *)

(** X27.  With the start at the goal the walk of [replan] takes no step:
    [replan] returns false with the empty path when [_compute] fails, and
    true with the path that holds the start alone when it succeeds. *)
Theorem replan_at_goal (fuel : nat) (s : Planner) :
  _start s = _goal s ->
  match _compute mth grid min_value (with_path [] s) with
  | Returned true sc =>
      replan mth grid min_value fuel s
      = Some (Returned true (with_path [Some (_start s)] sc))
  | Returned false sc =>
      replan mth grid min_value fuel s = Some (Returned false sc) /\ path sc = []
  | Undefined sc => replan mth grid min_value fuel s = Some (Undefined sc)
  end.
Proof.
  intros Hsg. unfold replan.
  pose proof (fixed_compute mth grid min_value (with_path [] s)) as Hf.
  destruct (_compute mth grid min_value (with_path [] s)) as [[|] sc|sc];
    simpl in Hf; [|split; [reflexivity | apply fixed_path in Hf; exact Hf] | reflexivity].
  pose proof (fixed_path _ _ Hf) as Hp. pose proof (fixed_start _ _ Hf) as Hs.
  pose proof (fixed_goal _ _ Hf) as Hg. simpl in Hp, Hs, Hg.
  rewrite Hp, Hs. simpl.
  assert (Hw : walk mth grid fuel (Some (_start s)) (with_path [Some (_start s)] sc)
               = Some (true, with_path [Some (_start s)] sc)).
  { destruct fuel; [rewrite walk_O | rewrite walk_S]; simpl; rewrite Hg, Hsg;
      destruct (decide (Some (_goal s) = Some (_goal s))); congruence. }
  rewrite Hw. reflexivity.
Qed.

End AtGoal.

(** ** The member functions on the scenarios *)

Lemma g_written_is_read_witness :
  (3 =? DBL_MIN)%float = false
  /\ fst (_g spec_math (at_xy 5 0 0) DBL_MIN
            (snd (_g spec_math (at_xy 5 0 0) 3%float scenario1))) = 3%float.
Proof.
  assert (H : (3 =? DBL_MIN)%float = false) by (vm_compute; reflexivity).
  split; [exact H|].
  exact (proj1 (proj2 (g_written_is_read spec_math (at_xy 5 0 0) 3%float scenario1 H))).
Defined.

Lemma rhs_written_is_read_witness :
  at_xy 5 0 0 <> _goal scenario1
  /\ (3 =? DBL_MIN)%float = false
  /\ fst (_rhs spec_math (at_xy 5 0 0) DBL_MIN
            (snd (_rhs spec_math (at_xy 5 0 0) 3%float scenario1))) = 3%float.
Proof.
  assert (Hu : at_xy 5 0 0 <> _goal scenario1) by (vm_compute; discriminate).
  assert (H : (3 =? DBL_MIN)%float = false) by (vm_compute; reflexivity).
  split; [exact Hu | split; [exact H|]].
  exact (proj1 (proj2 (rhs_written_is_read spec_math (at_xy 5 0 0) 3%float scenario1 Hu H))).
Defined.

Lemma list_insert_remove_witness :
  (at_xy 5 0 0 ∉ cells scenario1)
  /\ (at_xy 5 0 0 ∉ _open_hash scenario1)
  /\ _list_remove (at_xy 5 0 0)
       (_list_insert spec_math (at_xy 5 0 0) (1%float, 1%float) scenario1)
     = scenario1.
Proof.
  assert (Hc : at_xy 5 0 0 ∉ cells scenario1).
  { change (cells scenario1) with [at_xy 5 4 0].
    intros H. apply list_elem_of_singleton in H. discriminate H. }
  assert (Hh : at_xy 5 0 0 ∉ _open_hash scenario1).
  { apply (bool_decide_unpack (at_xy 5 0 0 ∉ _open_hash scenario1)).
    vm_compute. exact I. }
  split; [exact Hc | split; [exact Hh|]].
  exact (list_insert_remove spec_math (at_xy 5 0 0) (1%float, 1%float) scenario1 Hc Hh).
Defined.

Lemma list_update_rekeys_witness :
  (at_xy 5 4 0 ∈ cells scenario1)
  /\ (((1%float, 1%float), at_xy 5 4 0)
      ∈ _open_list (_list_update spec_math (at_xy 5 4 0) (1%float, 1%float) scenario1)).
Proof.
  assert (Hc : at_xy 5 4 0 ∈ cells scenario1).
  { change (cells scenario1) with [at_xy 5 4 0]. apply list_elem_of_here. }
  split; [exact Hc|].
  exact (proj1 (proj2 (proj2
    (list_update_rekeys spec_math (at_xy 5 4 0) (1%float, 1%float) scenario1 Hc)))).
Defined.

Lemma update_reconciles_witness :
  indexed scenario1
  /\ indexed (_update spec_math row5 (at_xy 5 3 0) scenario1).
Proof.
  assert (H : indexed scenario1) by apply indexed_new.
  split; [exact H|].
  exact (proj1 (update_reconciles spec_math row5 (at_xy 5 3 0) scenario1 H)).
Defined.

Lemma update_effect_witness :
  at_xy 5 2 0 <> _goal scenario1_planned
  /\ cost (update spec_math row5 (at_xy 5 2 0) 2%float scenario1_planned) (at_xy 5 2 0)
     = 2%float.
Proof.
  assert (H : at_xy 5 2 0 <> _goal scenario1_planned) by (vm_compute; discriminate).
  split; [exact H|].
  exact (proj1 (proj2 (proj2 (proj2 (proj2 (proj2
    (update_effect spec_math row5 (at_xy 5 2 0) 2%float scenario1_planned H))))))).
Defined.

Lemma update_keeps_open_cells_witness :
  indexed scenario1
  /\ reconciled spec_math scenario1 (at_xy 5 2 0)
  /\ _open_hash (update spec_math row5 (at_xy 5 2 0) infinity scenario1)
     = _open_hash scenario1.
Proof.
  assert (H : quiescent spec_math scenario1) by apply new_quiescent, spec_math_sane.
  destruct H as (Hix & Hr & _).
  split; [exact Hix | split; [exact (Hr (at_xy 5 2 0))|]].
  exact (proj2 (update_keeps_open_cells spec_math row5 (at_xy 5 2 0) infinity scenario1
                  Hix (Hr (at_xy 5 2 0)))).
Defined.

Lemma update_keeps_km_witness :
  (abs (Math_SQRT2 spec_math - 1) <? infinity)%float = true
  /\ Prim2SF (_km scenario1) <> S754_zero true
  /\ _last scenario1 = _start scenario1
  /\ _km (update spec_math row5 (at_xy 5 2 0) infinity scenario1) = _km scenario1.
Proof.
  assert (H1 : (abs (Math_SQRT2 spec_math - 1) <? infinity)%float = true)
    by (vm_compute; reflexivity).
  assert (H2 : Prim2SF (_km scenario1) <> S754_zero true) by (vm_compute; discriminate).
  assert (H3 : _last scenario1 = _start scenario1) by (vm_compute; reflexivity).
  split; [exact H1 | split; [exact H2 | split; [exact H3|]]].
  exact (update_keeps_km spec_math row5 (at_xy 5 2 0) infinity scenario1 H1 H2 H3).
Defined.

Lemma replan_true_path_witness :
  replan spec_math row5 min_arg 10 scenario1 = Some (Returned true scenario1_planned)
  /\ chain spec_math row5 scenario1_planned (path scenario1_planned).
Proof.
  assert (H : replan spec_math row5 min_arg 10 scenario1
              = Some (Returned true scenario1_planned)) by (vm_compute; reflexivity).
  split; [exact H|].
  exact (proj2 (proj2 (replan_true_path spec_math row5 min_arg 10 scenario1
                         scenario1_planned H))).
Defined.

Lemma replan_false_path_witness :
  let s' := state_after (replan spec_math board3 min_arg 10 scenario4) scenario4 in
  replan spec_math board3 min_arg 10 scenario4 = Some (Returned false s')
  /\ (path s' = []
      \/ ((exists q, path s' = Some (_start scenario4) :: q)
          /\ (last (path s') = Some None
              \/ exists x, last (path s') = Some (Some x) /\ x <> _goal scenario4
                           /\ Math_equals spec_math (fst (_g spec_math x DBL_MIN s'))
                                (Math_INFINITY spec_math) = true))).
Proof.
  intros s'.
  assert (H : replan spec_math board3 min_arg 10 scenario4 = Some (Returned false s'))
    by (vm_compute; reflexivity).
  split; [exact H|].
  exact (replan_false_path spec_math board3 min_arg 10 scenario4 s' H).
Defined.


Lemma replan_frame_witness :
  replan spec_math row5 min_arg 10 scenario1 = Some (Returned true scenario1_planned)
  /\ _km scenario1_planned = _km scenario1.
Proof.
  assert (H : replan spec_math row5 min_arg 10 scenario1
              = Some (Returned true scenario1_planned)) by (vm_compute; reflexivity).
  split; [exact H|].
  exact (proj1 (proj2 (replan_frame spec_math row5 min_arg 10 scenario1 _ H))).
Defined.

Lemma compute_results_witness :
  let s' := outcome_state (_compute spec_math row5 min_arg scenario1) in
  _compute spec_math row5 min_arg scenario1 = Returned true s'
  /\ (fst (loop_cond spec_math row5 s') = false
      \/ exists k u l, _open_list s' = (k, u) :: l /\ u <> _goal s'
                       /\ Math_equals spec_math (fst (_g spec_math u DBL_MIN s'))
                            (Math_INFINITY spec_math) = true).
Proof.
  intros s'.
  assert (H : _compute spec_math row5 min_arg scenario1 = Returned true s')
    by (vm_compute; reflexivity).
  split; [exact H|].
  exact (compute_results spec_math row5 min_arg scenario1 s' true H).
Defined.

Lemma line_262_not_reached_witness :
  Math_equals spec_math (Math_INFINITY spec_math) (Math_INFINITY spec_math) = true
  /\ (Math_INFINITY spec_math =? DBL_MIN)%float = false
  /\ replan spec_math board5 0%float 10 scenario3
     = replan spec_math board5 1%float 10 scenario3.
Proof.
  assert (H1 : Math_equals spec_math (Math_INFINITY spec_math) (Math_INFINITY spec_math)
               = true) by (vm_compute; reflexivity).
  assert (H2 : (Math_INFINITY spec_math =? DBL_MIN)%float = false)
    by (vm_compute; reflexivity).
  split; [exact H1 | split; [exact H2|]].
  exact (proj2 (line_262_not_reached spec_math board5 0%float 1%float 10 scenario3 H1 H2)).
Defined.

Lemma reverse_index_in_step_witness :
  operated spec_math row4 min_arg retarget4
  /\ NoDup (cells retarget4)
  /\ forall u, u ∈ _open_hash retarget4 <-> u ∈ cells retarget4.
Proof.
  assert (H : operated spec_math row4 min_arg retarget4).
  { apply (op_goal spec_math row4 min_arg _ (Some (at_xy 4 3 0))).
    apply (op_start spec_math row4 min_arg _ (Some (at_xy 4 3 0))).
    apply (op_replan spec_math row4 min_arg
             (new_Planner spec_math row4 gap_cost (at_xy 4 0 0) (at_xy 4 0 0)) _ 10 true);
      [apply op_new | vm_compute; reflexivity]. }
  split; [exact H|].
  exact (reverse_index_in_step spec_math row4 min_arg retarget4 H).
Defined.

Lemma front_is_there_witness :
  MathSane spec_math
  /\ (forall a b, Math_equals spec_math a b = Math_equals spec_math b a)
  /\ reachable spec_math board5 min_arg scenario3_planned
  /\ replan spec_math board5 min_arg 10 scenario3_planned
     <> Some (Undefined scenario3_planned).
Proof.
  assert (Hr : reachable spec_math board5 min_arg scenario3_planned).
  { apply (reach_replan spec_math board5 min_arg scenario3 scenario3_planned 10 true).
    - apply reach_new.
    - vm_compute; reflexivity. }
  split; [exact spec_math_sane | split; [exact spec_equals_sym | split; [exact Hr|]]].
  exact (front_is_there spec_math board5 min_arg spec_math_sane spec_equals_sym
           scenario3_planned scenario3_planned 10 Hr).
Defined.

Lemma key_compare_asymmetric_witness :
  (forall a b, Math_less spec_math a b = true -> Math_less spec_math b a = false)
  /\ (forall a b, Math_less spec_math a b = true -> Math_greater spec_math b a = true)
  /\ KeyCompare spec_math (1%float, 0%float) (2%float, 0%float) = true
  /\ KeyCompare spec_math (2%float, 0%float) (1%float, 0%float) = false.
Proof.
  assert (H : KeyCompare spec_math (1%float, 0%float) (2%float, 0%float) = true)
    by (vm_compute; reflexivity).
  split; [exact spec_less_asym | split; [exact spec_less_flip | split; [exact H|]]].
  exact (key_compare_asymmetric spec_math _ _ spec_less_asym spec_less_flip H).
Defined.

Lemma compute_undefined_witness :
  let s' := outcome_state (_compute spec_math row4 min_arg retarget4) in
  _compute spec_math row4 min_arg retarget4 = Undefined s'
  /\ _open_list s' = [].
Proof.
  intros s'.
  assert (H : _compute spec_math row4 min_arg retarget4 = Undefined s')
    by (vm_compute; reflexivity).
  split; [exact H|].
  exact (proj1 (proj2 (compute_undefined spec_math row4 min_arg retarget4 s' H))).
Defined.

Lemma replan_never_returns_witness :
  let P := fun x : cell => x = at_xy 5 0 0 \/ x = at_xy 5 1 1 in
  reachable spec_math board5 min_arg scenario3_blocked
  /\ _open_list scenario3_blocked <> []
  /\ fst (loop_cond spec_math board5 scenario3_blocked) = false
  /\ P (_start scenario3_blocked)
  /\ (forall x, P x ->
        x <> _goal scenario3_blocked
        /\ Math_equals spec_math (fst (_g spec_math x DBL_MIN scenario3_blocked))
             (Math_INFINITY spec_math) = false
        /\ exists y, fst (_min_succ spec_math board5 x scenario3_blocked) = Some y /\ P y)
  /\ forall fuel, replan spec_math board5 min_arg fuel scenario3_blocked = None.
Proof.
  intros P.
  assert (Hl : _open_list scenario3_blocked <> []) by (vm_compute; discriminate).
  assert (Hc : fst (loop_cond spec_math board5 scenario3_blocked) = false)
    by (vm_compute; reflexivity).
  assert (Hs : P (_start scenario3_blocked)) by (left; vm_compute; reflexivity).
  assert (HP : forall x, P x ->
        x <> _goal scenario3_blocked
        /\ Math_equals spec_math (fst (_g spec_math x DBL_MIN scenario3_blocked))
             (Math_INFINITY spec_math) = false
        /\ exists y, fst (_min_succ spec_math board5 x scenario3_blocked) = Some y /\ P y).
  { intros x [-> | ->].
    - split; [vm_compute; discriminate | split; [vm_compute; reflexivity|]].
      exists (at_xy 5 1 1). split; [vm_compute; reflexivity | right; reflexivity].
    - split; [vm_compute; discriminate | split; [vm_compute; reflexivity|]].
      exists (at_xy 5 0 0). split; [vm_compute; reflexivity | left; reflexivity]. }
  assert (Hr : reachable spec_math board5 min_arg scenario3_blocked).
  { apply reach_update.
    apply (reach_replan spec_math board5 min_arg scenario3 scenario3_planned 10 true).
    - apply reach_new.
    - vm_compute; reflexivity. }
  split; [exact Hr|].
  split; [exact Hl | split; [exact Hc | split; [exact Hs | split; [exact HP|]]]].
  exact (replan_never_returns spec_math board5 min_arg P scenario3_blocked Hl Hc Hs HP).
Defined.

Lemma commit_round_witness :
  let u := at_xy 5 4 0 in
  _open_list scenario1 = [((4%float, 0%float), u)]
  /\ KeyCompare spec_math (4%float, 0%float) (fst (_k spec_math row5 u scenario1))
     = false
  /\ Math_greater spec_math (g_of spec_math scenario1 u) (rhs_of spec_math scenario1 u)
     = true
  /\ (rhs_of spec_math scenario1 u =? DBL_MIN)%float = false
  /\ exists s', loop_body spec_math row5 min_arg scenario1 = Continue s'
                /\ g_of spec_math s' u = rhs_of spec_math scenario1 u.
Proof.
  intros u.
  assert (H1 : _open_list scenario1 = [((4%float, 0%float), u)])
    by (vm_compute; reflexivity).
  assert (H2 : KeyCompare spec_math (4%float, 0%float)
                 (fst (_k spec_math row5 u scenario1)) = false)
    by (vm_compute; reflexivity).
  assert (H3 : Math_greater spec_math (g_of spec_math scenario1 u)
                 (rhs_of spec_math scenario1 u) = true) by (vm_compute; reflexivity).
  assert (H4 : (rhs_of spec_math scenario1 u =? DBL_MIN)%float = false)
    by (vm_compute; reflexivity).
  split; [exact H1 | split; [exact H2 | split; [exact H3 | split; [exact H4|]]]].
  destruct (commit_round spec_math row5 min_arg scenario1 _ u [] H1 H2 H3 H4)
    as (s' & Hb & Hg & _).
  exists s'. split; [exact Hb | exact Hg].
Defined.

Lemma rekey_round_witness :
  exists k u l,
    _open_list scenario3_moved = (k, u) :: l
    /\ KeyCompare spec_math k (fst (_k spec_math board5 u scenario3_moved)) = true
    /\ exists s', loop_body spec_math board5 min_arg scenario3_moved = Continue s'
                  /\ fixed s' = fixed scenario3_moved.
Proof.
  let e := eval vm_compute in (_open_list scenario3_moved) in
  assert (E : _open_list scenario3_moved = e) by (vm_compute; reflexivity).
  match type of E with
  | _ = (?k, ?u) :: ?l =>
      assert (Hk : KeyCompare spec_math k (fst (_k spec_math board5 u scenario3_moved))
                   = true) by (vm_compute; reflexivity);
      destruct (rekey_round spec_math board5 min_arg scenario3_moved k u l E Hk)
        as (s' & Hb & _ & _ & Hf);
      exists k, u, l; split; [exact E | split; [exact Hk|]];
      exists s'; split; [exact Hb | exact Hf]
  end.
Defined.

Lemma path_is_walkable_witness :
  replan spec_math row5 min_arg 10 scenario1 = Some (Returned true scenario1_planned)
  /\ Math_equals spec_math (COST_UNWALKABLE row5) (Math_INFINITY spec_math) = true
  /\ _start scenario1 <> _goal scenario1
  /\ forall c, Some c ∈ path scenario1_planned ->
               (cost scenario1 c =? COST_UNWALKABLE row5)%float = false.
Proof.
  assert (H : replan spec_math row5 min_arg 10 scenario1
              = Some (Returned true scenario1_planned)) by (vm_compute; reflexivity).
  assert (HU : Math_equals spec_math (COST_UNWALKABLE row5) (Math_INFINITY spec_math)
               = true) by (vm_compute; reflexivity).
  assert (Hne : _start scenario1 <> _goal scenario1) by (vm_compute; discriminate).
  split; [exact H | split; [exact HU | split; [exact Hne|]]].
  exact (path_is_walkable spec_math row5 min_arg 10 scenario1 scenario1_planned H HU Hne).
Defined.

Lemma replan_at_goal_witness :
  let s := snd (start (Some (at_xy 5 4 0)) scenario1) in
  _start s = _goal s
  /\ exists s', replan spec_math row5 min_arg 0 s = Some (Returned true s')
                /\ path s' = [Some (at_xy 5 4 0)].
Proof.
  intros s.
  assert (H : _start s = _goal s) by (vm_compute; reflexivity).
  split; [exact H|].
  pose proof (replan_at_goal spec_math row5 min_arg 0 s H) as R.
  destruct (_compute spec_math row5 min_arg (with_path [] s)) as [[|] sc|sc] eqn:E.
  - exists (with_path [Some (_start s)] sc). split; [exact R | reflexivity].
  - exfalso. vm_compute in E. discriminate E.
  - exfalso. vm_compute in E. discriminate E.
Defined.
